(** * Dengo: a MongoDB-style document API over an ordered key-value store

    Shallow embedding of the collection engine (the [Collection] and
    [Cursor] classes and the [utils] path helpers) together with the part
    of the host runtime it relies on: JavaScript values, the ordered
    key-value store with versionstamps, and a few string built-ins.

    Values.  A value is [undefined], [null], a boolean, a number, a string,
    a [Date], an [ObjectId], an array or a plain object.  Numbers are the
    integral doubles ([VNum n], with [n] in [Z]) and [NaN]; sums and
    products are rounded as the host rounds them; a relational operator
    reads a string as the double its text denotes, fractions and infinities
    included ([xnum]).  A [Date] is a valid date, given by its time value.
    Arrays are dense and have no property besides their elements.  Strings
    are sequences of code units below 128 (as [string]); an object keeps its
    own enumerable properties in insertion order (an association list; the
    host's rule that integer-like keys come first is not modelled);
    [ObjectId] is its 24-digit lower-case hexadecimal form and has, like
    [Date], no enumerable own property; prototype members and the [length]
    of arrays and strings are not addressed by document paths.

    Effects.  Reads are functions of the store; writes pass the store along
    and return an [outcome].  An operation runs without interleaving, so a
    prefix scan is a snapshot.  The id a call would generate is a parameter
    ([fresh]).  Mutation in place is followed where the code depends on it:
    [$push] and [$addToSet] extend the array that [getNestedValue] found
    inside the document, see [getNestedRef].  Documents, filters and updates
    are trees: no object is reachable along two paths of an input.

    Not covered: sorting ([Cursor.sort] and the [sort] option of [find]),
    [updateMany], [deleteMany], and [insertMany] with [ordered: false],
    whose insertions run concurrently. *)

From Stdlib Require Import ZArith String Ascii List Bool Lia.
From Stdlib Require Import DecimalString.
From stdpp Require Import gmap strings list fin_maps sorting.
Import ListNotations.

Open Scope string_scope.
Open Scope Z_scope.

(** ** Host values *)

#[local] Set Warnings "-register-all".

Inductive value : Type :=
  | VUndef
  | VNull
  | VBool (b : bool)
  | VNum (n : Z)
  | VStr (s : string)
  | VDate (ms : Z)
  | VOid (hex : string)
  | VArr (items : list value)
  | VObj (fields : list (string * value))
  | VNaN.

Module Js.

Inductive jstype := TUndefined | TObject | TBoolean | TNumber | TString.

Definition jstype_eqb (a b : jstype) : bool :=
  match a, b with
  | TUndefined, TUndefined | TObject, TObject | TBoolean, TBoolean
  | TNumber, TNumber | TString, TString => true
  | _, _ => false
  end.

(** [typeof v] *)
Definition typeof (v : value) : jstype :=
  match v with
  | VUndef => TUndefined
  | VBool _ => TBoolean
  | VNum _ | VNaN => TNumber
  | VStr _ => TString
  | VNull | VDate _ | VOid _ | VArr _ | VObj _ => TObject
  end.

Definition typeof_name (t : jstype) : string :=
  match t with
  | TUndefined => "undefined"
  | TObject => "object"
  | TBoolean => "boolean"
  | TNumber => "number"
  | TString => "string"
  end.

(** [ToBoolean]: what [if (v)], [!v], [a || b] test. *)
Definition truthy (v : value) : bool :=
  match v with
  | VUndef | VNull | VNaN => false
  | VBool b => b
  | VNum n => negb (n =? 0)
  | VStr s => negb (String.eqb s EmptyString)
  | VDate _ | VOid _ | VArr _ | VObj _ => true
  end.

Definition is_undef (v : value) : bool :=
  match v with VUndef => true | _ => false end.

Definition is_null (v : value) : bool :=
  match v with VNull => true | _ => false end.

(** [v == null] *)
Definition is_nullish (v : value) : bool := is_undef v || is_null v.

(** [Array.isArray(v)] *)
Definition isArray (v : value) : bool :=
  match v with VArr _ => true | _ => false end.

(** [a === b] on primitives.  Two object-typed values are strictly equal
    only when they are the same object; the callers below compare a value
    of a document with a value of a filter or an update, which are
    different objects, so the identity test is not modelled. *)
Definition strict_eq_prim (a b : value) : bool :=
  match a, b with
  | VUndef, VUndef | VNull, VNull => true
  | VBool x, VBool y => Bool.eqb x y
  | VNum x, VNum y => x =? y
  | VStr x, VStr y => String.eqb x y
  | _, _ => false
  end.

(** *** Own properties *)

Fixpoint obj_get (fs : list (string * value)) (k : string) : option value :=
  match fs with
  | [] => None
  | (k', v) :: rest => if String.eqb k' k then Some v else obj_get rest k
  end.

Definition obj_has (fs : list (string * value)) (k : string) : bool :=
  match obj_get fs k with Some _ => true | None => false end.

(** [o[k] = v]: an existing property keeps its place, a new one goes last. *)
Fixpoint obj_set (fs : list (string * value)) (k : string) (v : value)
  : list (string * value) :=
  match fs with
  | [] => [(k, v)]
  | (k', v') :: rest =>
      if String.eqb k' k then (k, v) :: rest else (k', v') :: obj_set rest k v
  end.

(** [delete o[k]] *)
Fixpoint obj_del (fs : list (string * value)) (k : string)
  : list (string * value) :=
  match fs with
  | [] => []
  | (k', v') :: rest =>
      if String.eqb k' k then obj_del rest k else (k', v') :: obj_del rest k
  end.

(** [{...a, ...b}] / [Object.assign(a, b)] *)
Definition obj_assign (a b : list (string * value)) : list (string * value) :=
  fold_left (fun acc kv => obj_set acc (fst kv) (snd kv)) b a.

(** *** Strings and numbers *)

Definition is_digit (c : ascii) : bool :=
  let n := N_of_ascii c in (48 <=? n)%N && (n <=? 57)%N.

Fixpoint all_digits_aux (s : string) : bool :=
  match s with
  | EmptyString => true
  | String c rest => is_digit c && all_digits_aux rest
  end.

(** [/^\d+$/.test(s)] *)
Definition all_digits (s : string) : bool :=
  negb (String.eqb s EmptyString) && all_digits_aux s.

Fixpoint parse_digits (s : string) (acc : N) : N :=
  match s with
  | EmptyString => acc
  | String c rest => parse_digits rest (10 * acc + (N_of_ascii c - 48))%N
  end.

(** [parseInt(s, 10)] on a string of digits. *)
Definition parseInt (s : string) : N := parse_digits s 0%N.

(** [s.split(".")] *)
Fixpoint split_dot (s : string) : list string :=
  match s with
  | EmptyString => [EmptyString]
  | String c rest =>
      if Ascii.eqb c "." then EmptyString :: split_dot rest
      else match split_dot rest with
           | [] => [String c EmptyString]
           | h :: t => String c h :: t
           end
  end.

(** [String(n)] for an integral number below 10 ^ 21 in size, where the
    host writes every digit. *)
Definition number_to_string (n : Z) : string :=
  NilZero.string_of_int (Z.to_int n).

Definition is_space (c : ascii) : bool :=
  let n := N_of_ascii c in
  (n =? 32)%N || ((9 <=? n)%N && (n <=? 13)%N).

Fixpoint trim_left (s : string) : string :=
  match s with
  | String c rest => if is_space c then trim_left rest else s
  | EmptyString => EmptyString
  end.

Fixpoint string_rev_acc (s acc : string) : string :=
  match s with
  | EmptyString => acc
  | String c rest => string_rev_acc rest (String c acc)
  end.

Definition trim (s : string) : string :=
  string_rev_acc (trim_left (string_rev_acc (trim_left s) EmptyString)) EmptyString.

(** *** Doubles

    What a relational operator compares: a finite double [m * 2 ^ e], an
    infinity, or [NaN]. *)
Inductive xnum : Type :=
  | XFin (m e : Z)
  | XInf (negative : bool)
  | XNaN.

(** The double nearest to the rational [p / q], for [0 <= p] and [0 < q]:
    a mantissa of 53 bits (fewer for a subnormal, whose exponent stays at
    -1074), the remainder rounded to nearest, ties to even. *)
Definition round_ratio (p q : Z) : xnum :=
  if p =? 0 then XFin 0 0
  else
    let scaled e := if 0 <=? e then p / (q * 2 ^ e) else (p * 2 ^ (- e)) / q in
    let e0 := Z.log2 p - Z.log2 q - 53 in
    let e1 := if 2 ^ 53 <=? scaled e0 then e0 + 1 else e0 in
    let e := Z.max e1 (-1074) in
    let num := if 0 <=? e then p else p * 2 ^ (- e) in
    let den := if 0 <=? e then q * 2 ^ e else q in
    let m := num / den in
    let r := num mod den in
    let m' := if (den <? 2 * r) || ((2 * r =? den) && Z.odd m) then m + 1 else m in
    if (0 <=? e) && (2 ^ 1024 <=? m' * 2 ^ e) then XInf false else XFin m' e.

Definition xnum_opp (x : xnum) : xnum :=
  match x with
  | XFin m e => XFin (- m) e
  | XInf negative => XInf (negb negative)
  | XNaN => XNaN
  end.

(** [x < y] on doubles; [None] when an operand is [NaN]. *)
Definition xnum_lt (x y : xnum) : option bool :=
  match x, y with
  | XNaN, _ | _, XNaN => None
  | XInf nx, XInf ny => Some (nx && negb ny)
  | XInf nx, XFin _ _ => Some nx
  | XFin _ _, XInf ny => Some (negb ny)
  | XFin m1 e1, XFin m2 e2 =>
      let e := Z.min e1 e2 in
      Some (m1 * 2 ^ (e1 - e) <? m2 * 2 ^ (e2 - e))
  end.

(** The double nearest to an integer, as the result of an addition or a
    multiplication of integral doubles is rounded; [None] past the largest
    double, where the host answers an infinity. *)
Definition double_of_Z (z : Z) : option Z :=
  let a := Z.abs z in
  let k := Z.log2 a - 52 in
  if k <=? 0 then Some z
  else
    let q := a / 2 ^ k in
    let r := a mod 2 ^ k in
    let half := 2 ^ (k - 1) in
    let q' := if (half <? r) || ((r =? half) && Z.odd q) then q + 1 else q in
    if 2 ^ 1024 <=? q' * 2 ^ k then None else Some (Z.sgn z * (q' * 2 ^ k)).

(** *** [ToNumber] of a string ([StringToNumber])

    White space is trimmed; the empty string is 0; then come the literals
    [0x..], [0o..], [0b..], and the decimal literals with an optional sign:
    [Infinity], digits with an optional fraction and exponent.  Anything
    else is [NaN]. *)

Fixpoint span_digits (s : string) : string * string :=
  match s with
  | String c rest =>
      if is_digit c then let (d, r) := span_digits rest in (String c d, r)
      else (EmptyString, s)
  | EmptyString => (EmptyString, EmptyString)
  end.

Definition digit_in (base : N) (c : ascii) : option N :=
  let n := N_of_ascii c in
  let d := if (48 <=? n)%N && (n <=? 57)%N then Some (n - 48)%N
           else if (97 <=? n)%N && (n <=? 102)%N then Some (n - 87)%N
           else if (65 <=? n)%N && (n <=? 70)%N then Some (n - 55)%N
           else None in
  match d with
  | Some d => if (d <? base)%N then Some d else None
  | None => None
  end.

Fixpoint parse_in (base : N) (s : string) (acc : N) : option N :=
  match s with
  | EmptyString => Some acc
  | String c rest =>
      match digit_in base c with
      | Some d => parse_in base rest (base * acc + d)%N
      | None => None
      end
  end.

Definition radix_literal (base : N) (digits : string) : xnum :=
  match digits with
  | EmptyString => XNaN
  | _ => match parse_in base digits 0%N with
         | Some n => round_ratio (Z.of_N n) 1
         | None => XNaN
         end
  end.

(** The exponent [e+12] of a decimal literal; no exponent counts as 0. *)
Definition exponent_part (s : string) : option Z :=
  match s with
  | EmptyString => Some 0
  | String c rest =>
      if Ascii.eqb c "e" || Ascii.eqb c "E" then
        match rest with
        | String "-" ds => if all_digits ds then Some (- Z.of_N (parseInt ds)) else None
        | String "+" ds => if all_digits ds then Some (Z.of_N (parseInt ds)) else None
        | ds => if all_digits ds then Some (Z.of_N (parseInt ds)) else None
        end
      else None
  end.

Definition unsigned_decimal (s : string) : xnum :=
  if String.eqb s "Infinity" then XInf false
  else
    let (int_part, after_int) := span_digits s in
    let (frac_part, after_frac) :=
      match after_int with
      | String "." rest => span_digits rest
      | _ => (EmptyString, after_int)
      end in
    if String.eqb int_part EmptyString && String.eqb frac_part EmptyString then XNaN
    else
      match exponent_part after_frac with
      | Some x =>
          let mantissa := Z.of_N (parseInt (int_part ++ frac_part)) in
          let scale := x - Z.of_nat (String.length frac_part) in
          if 0 <=? scale then round_ratio (mantissa * 10 ^ scale) 1
          else round_ratio mantissa (10 ^ (- scale))
      | None => XNaN
      end.

Definition string_to_number (s : string) : xnum :=
  match trim s with
  | EmptyString => XFin 0 0
  | String "0" (String c digits) as t =>
      if Ascii.eqb c "x" || Ascii.eqb c "X" then radix_literal 16 digits
      else if Ascii.eqb c "o" || Ascii.eqb c "O" then radix_literal 8 digits
      else if Ascii.eqb c "b" || Ascii.eqb c "B" then radix_literal 2 digits
      else unsigned_decimal t
  | String "-" rest => xnum_opp (unsigned_decimal rest)
  | String "+" rest => unsigned_decimal rest
  | t => unsigned_decimal t
  end.

(** The primitive a comparable value is turned into by a relational
    operator ([ToPrimitive] with hint number: a [Date] gives its time). *)
Inductive prim := PNum (n : Z) | PNaN | PStr (s : string).

Definition to_prim (v : value) : option prim :=
  match v with
  | VNum n => Some (PNum n)
  | VNaN => Some PNaN
  | VDate ms => Some (PNum ms)
  | VStr s => Some (PStr s)
  | _ => None
  end.

Definition prim_to_number (p : prim) : xnum :=
  match p with
  | PNum n => XFin n 0
  | PNaN => XNaN
  | PStr s => string_to_number s
  end.

(** Abstract relational comparison [x < y]: two strings are compared by
    their code units, any other pair as numbers; [None] is the undefined
    outcome (an operand is [NaN]). *)
Definition prim_lt (x y : prim) : option bool :=
  match x, y with
  | PStr a, PStr b => Some (String.ltb a b)
  | _, _ => xnum_lt (prim_to_number x) (prim_to_number y)
  end.

Definition js_lt (x y : prim) : bool :=
  match prim_lt x y with Some b => b | None => false end.
Definition js_gt (x y : prim) : bool := js_lt y x.
Definition js_le (x y : prim) : bool :=
  match prim_lt y x with Some b => negb b | None => false end.
Definition js_ge (x y : prim) : bool :=
  match prim_lt x y with Some b => negb b | None => false end.

(** *** [Date.prototype.toISOString] *)

Definition pad_left (width : nat) (s : string) : string :=
  string_rev_acc
    (string_rev_acc s EmptyString ++
     string_of_list_ascii
       (repeat "0"%char (width - String.length s)%nat)) EmptyString.

Definition nat_str (width : nat) (n : Z) : string :=
  pad_left width (number_to_string n).

(** Proleptic Gregorian date of a day count from 1970-01-01. *)
Definition civil_from_days (days : Z) : Z * Z * Z :=
  let z := days + 719468 in
  let era := z / 146097 in
  let doe := z - era * 146097 in
  let yoe := (doe - doe / 1460 + doe / 36524 - doe / 146096) / 365 in
  let doy := doe - (365 * yoe + yoe / 4 - yoe / 100) in
  let mp := (5 * doy + 2) / 153 in
  let d := doy - (153 * mp + 2) / 5 + 1 in
  let m := if mp <? 10 then mp + 3 else mp - 9 in
  let y := yoe + era * 400 + (if m <=? 2 then 1 else 0) in
  (y, m, d).

Definition toISOString (ms : Z) : string :=
  let days := ms / 86400000 in
  let rest := ms mod 86400000 in
  let '(y, m, d) := civil_from_days days in
  let year :=
    if (0 <=? y) && (y <=? 9999) then nat_str 4 y
    else if y <? 0 then "-" ++ nat_str 6 (- y) else "+" ++ nat_str 6 y in
  year ++ "-" ++ nat_str 2 m ++ "-" ++ nat_str 2 d ++ "T" ++
  nat_str 2 (rest / 3600000) ++ ":" ++
  nat_str 2 (rest / 60000 mod 60) ++ ":" ++
  nat_str 2 (rest / 1000 mod 60) ++ "." ++
  nat_str 3 (rest mod 1000) ++ "Z".

(** *** [JSON.stringify] *)

Definition hex_digit (n : N) : ascii :=
  if (n <? 10)%N then ascii_of_N (48 + n) else ascii_of_N (87 + n).

Definition json_escape_char (c : ascii) : string :=
  let n := N_of_ascii c in
  if (n =? 34)%N then String (ascii_of_N 92) (String (ascii_of_N 34) EmptyString)
  else if (n =? 92)%N then "\\"
  else if (n =? 8)%N then "\b"
  else if (n =? 12)%N then "\f"
  else if (n =? 10)%N then "\n"
  else if (n =? 13)%N then "\r"
  else if (n =? 9)%N then "\t"
  else if (n <? 32)%N then
    "\u00" ++ String (hex_digit (n / 16)) (String (hex_digit (n mod 16)) EmptyString)
  else String c EmptyString.

Fixpoint json_escape (s : string) : string :=
  match s with
  | EmptyString => EmptyString
  | String c rest => json_escape_char c ++ json_escape rest
  end.

Definition json_quote (s : string) : string :=
  String (ascii_of_N 34) (json_escape s ++ String (ascii_of_N 34) EmptyString).

Fixpoint join_comma (parts : list string) : string :=
  match parts with
  | [] => EmptyString
  | [p] => p
  | p :: rest => p ++ "," ++ join_comma rest
  end.

(** [JSON.stringify(v)], [None] when the result is [undefined]. *)
Fixpoint json_stringify (v : value) : option string :=
  match v with
  | VUndef => None
  | VNull => Some "null"
  | VBool true => Some "true"
  | VBool false => Some "false"
  | VNum n => Some (number_to_string n)
  | VNaN => Some "null"
  | VStr s => Some (json_quote s)
  | VDate ms => Some (json_quote (toISOString ms))
  | VOid hex => Some (json_quote hex)
  | VArr items =>
      Some ("[" ++
            join_comma
              (List.map (fun item =>
                           match json_stringify item with
                           | Some s => s
                           | None => "null"
                           end) items) ++ "]")
  | VObj fields =>
      Some ("{" ++
            join_comma
              (List.flat_map
                 (fun kv =>
                    match json_stringify (snd kv) with
                    | Some s => [json_quote (fst kv) ++ ":" ++ s]
                    | None => []
                    end) fields) ++ "}")
  end.

End Js.

Import Js.

(** ** Outcomes of fallible code

    [Throw] is an exception raised by the engine or by the host (a
    [TypeError]); [Unmodelled] marks an input that leaves the value model
    (an array with holes or named properties, an own property written on a
    [Date] or an [ObjectId], an infinite number, an [ObjectId] written to
    the store outside [_id]).  Nothing is claimed about such an input, and
    a statement that rests on a result says which inputs it leaves out. *)

Inductive outcome (A : Type) : Type :=
  | Ok (a : A)
  | Throw (msg : string)
  | Unmodelled.

Arguments Ok {A} a.
Arguments Throw {A} msg.
Arguments Unmodelled {A}.

Definition obind {A B} (m : outcome A) (f : A -> outcome B) : outcome B :=
  match m with
  | Ok a => f a
  | Throw msg => Throw msg
  | Unmodelled => Unmodelled
  end.

Definition TypeError {A} : outcome A := Throw "TypeError".

(** ** Path helpers ([utils]) *)

Module utils.

(** An array index in canonical form: ["0"], or digits not starting with 0. *)
Definition is_index (k : string) : bool :=
  all_digits k &&
  (String.eqb k "0" ||
   match k with String c _ => negb (Ascii.eqb c "0") | EmptyString => false end).

(** Own property read [v[k]] of a value that is not null or undefined. *)
Definition prop_get (v : value) (k : string) : value :=
  match v with
  | VObj fs => match obj_get fs k with Some x => x | None => VUndef end
  | VArr xs => if is_index k then nth (N.to_nat (parseInt k)) xs VUndef else VUndef
  | _ => VUndef
  end.

(** [item && typeof item === "object"] *)
Definition is_objectlike (item : value) : bool :=
  truthy item && jstype_eqb (typeof item) TObject.

(** One round of the [reduce] in [getNestedValue]. *)
Definition getNestedStep (current : value) (part : string) : value :=
  match current with
  | VUndef | VNull => VUndef
  | VArr xs =>
      if String.eqb part "$" || String.eqb part EmptyString then current
      else if all_digits part then
        let index := parseInt part in
        if (index <? N.of_nat (List.length xs))%N
        then nth (N.to_nat index) xs VUndef else VUndef
      else if existsb is_objectlike xs then
        let values :=
          List.filter (fun v => negb (is_undef v))
            (List.map (fun item => prop_get item part)
               (List.filter is_objectlike xs)) in
        match values with [] => VUndef | _ => VArr values end
      else VUndef
  | _ => if is_objectlike current then prop_get current part else VUndef
  end.

Definition getNestedValue (obj : value) (path : string) : value :=
  if negb (truthy obj) then VUndef
  else fold_left getNestedStep (split_dot path) obj.

(** [part in current] *)
Definition has_in (current : value) (part : string) : outcome bool :=
  match current with
  | VObj fs => Ok (obj_has fs part)
  | VArr xs =>
      if is_index part
      then Ok (parseInt part <? N.of_nat (List.length xs))%N
      else Ok false
  | VDate _ | VOid _ => Ok false
  | VUndef | VNull | VBool _ | VNum _ | VNaN | VStr _ => TypeError
  end.

(** [current[part] = v].  A property of another name written on an array
    does not enter the value model, nor does a position past its end: the
    host returns normally there, with an array that [getNestedValue] reads
    as before. *)
Definition assign (current : value) (part : string) (v : value) : outcome value :=
  match current with
  | VObj fs => Ok (VObj (obj_set fs part v))
  | VArr xs =>
      if is_index part then
        let i := N.to_nat (parseInt part) in
        if (i <? List.length xs)%nat then Ok (VArr (<[i := v]> xs))
        else if (i =? List.length xs)%nat then Ok (VArr (xs ++ [v]))
        else Unmodelled
      else Unmodelled
  | VDate _ | VOid _ => Unmodelled
  | VUndef | VNull | VBool _ | VNum _ | VNaN | VStr _ => TypeError
  end.

(** [setNestedValue]: the walk creates the missing intermediate objects;
    the object it mutates in place is returned. *)
Fixpoint setNestedWalk (current : value) (parts : list string) (v : value)
  : outcome value :=
  match parts with
  | [] => Ok current
  | [lastPart] => assign current lastPart v
  | part :: rest =>
      obind (has_in current part) (fun present =>
      let child := if present then prop_get current part else VObj [] in
      obind (setNestedWalk child rest v) (fun child' =>
      assign current part child'))
  end.

Definition setNestedValue (obj : value) (path : string) (v : value)
  : outcome value :=
  setNestedWalk obj (split_dot path) v.

(** [delete current[part]], in strict code: the [length] of an array or
    a string and the characters of a string cannot be deleted; deleting an
    element of an array leaves a hole; a property that is not there is
    deleted from any value but [null] and [undefined]. *)
Definition delete_prop (current : value) (part : string) : outcome value :=
  match current with
  | VObj fs => Ok (VObj (obj_del fs part))
  | VArr xs =>
      if String.eqb part "length" then TypeError
      else if is_index part && (parseInt part <? N.of_nat (List.length xs))%N
      then Unmodelled else Ok current
  | VStr chars =>
      if String.eqb part "length" ||
         (is_index part && (parseInt part <? N.of_nat (String.length chars))%N)
      then TypeError else Ok current
  | VUndef | VNull => TypeError
  | _ => Ok current
  end.

(** [deleteNestedField]: returns early when an intermediate step is
    missing or null. *)
Fixpoint deleteNestedWalk (current : value) (parts : list string)
  : outcome value :=
  match parts with
  | [] => Ok current
  | [lastPart] => delete_prop current lastPart
  | part :: rest =>
      obind (has_in current part) (fun present =>
      if negb present || is_null (prop_get current part) then Ok current
      else
        obind (deleteNestedWalk (prop_get current part) rest) (fun child' =>
        assign current part child'))
  end.

Definition deleteNestedField (obj : value) (path : string) : outcome value :=
  deleteNestedWalk obj (split_dot path).

End utils.

Import utils.

(** ** The filter evaluator ([Collection.isEqual], [matchesCondition],
    [matchesFilter]) *)

(** [l.every((x, i) => f(i, x))], counting from [i]. *)
Definition forallb_idx {A} (f : nat -> A -> bool) : nat -> list A -> bool :=
  fix go (i : nat) (l : list A) : bool :=
    match l with
    | [] => true
    | x :: rest => f i x && go (S i) rest
    end.

Definition index_key (i : nat) : string := number_to_string (Z.of_nat i).

(** [Object.prototype.hasOwnProperty.call(b, key)] *)
Definition hasOwnProperty (b : value) (key : string) : bool :=
  match b with
  | VObj fs => obj_has fs key
  | VArr xs => is_index key && (parseInt key <? N.of_nat (List.length xs))%N
  | _ => false
  end.

(** [Object.keys(v).length] *)
Definition own_key_count (v : value) : nat :=
  match v with
  | VObj fs => List.length fs
  | VArr xs => List.length xs
  | _ => 0%nat
  end.

Fixpoint isEqual (a b : value) {struct a} : bool :=
  match a, b with
  | VOid x, VOid y => String.eqb x y
  | VDate x, VDate y => x =? y
  | _, _ =>
      if strict_eq_prim a b then true
      else if is_nullish a || is_nullish b then false
      else if negb (jstype_eqb (typeof a) (typeof b)) then false
      else
        match a, b with
        | VArr xs, VArr ys =>
            if negb (List.length xs =? List.length ys)%nat then false
            else
              match xs with
              | [] => true
              | _ => forallb_idx (fun index item => isEqual item (nth index ys VUndef)) 0 xs
              end
        | VObj fa, _ =>
            if negb (List.length fa =? own_key_count b)%nat then false
            else
              forallb (fun kv => hasOwnProperty b (fst kv) &&
                                 isEqual (snd kv) (prop_get b (fst kv))) fa
        | VArr xs, _ =>
            if negb (List.length xs =? own_key_count b)%nat then false
            else
              forallb_idx (fun index item =>
                             hasOwnProperty b (index_key index) &&
                             isEqual item (prop_get b (index_key index))) 0 xs
        | (VDate _ | VOid _), _ => (0 =? own_key_count b)%nat
        | _, _ => false
        end
  end.

Definition isComparable (v : value) : bool :=
  match v with
  | VNum _ | VNaN | VStr _ | VDate _ => true
  | _ => false
  end.

(** The host's [<] between two comparable values, and its three siblings. *)
Definition compare_with (rel : prim -> prim -> bool) (value val : value) : bool :=
  match to_prim value, to_prim val with
  | Some p, Some q => rel p q
  | _, _ => false
  end.

(** The entry [op: val] of an operator object, tested on [value];
    [recVal x] stands for [matchesCondition(x, val)]. *)
Definition matchesOperator (recVal : value -> bool) (op : string)
    (val value : value) : bool :=
  if String.eqb op "$eq" then isEqual value val
  else if String.eqb op "$gt" then
    if negb (isComparable value) || negb (isComparable val) then false
    else compare_with js_gt value val
  else if String.eqb op "$gte" then
    if negb (isComparable value) || negb (isComparable val) then false
    else compare_with js_ge value val
  else if String.eqb op "$lt" then
    if negb (isComparable value) || negb (isComparable val) then false
    else compare_with js_lt value val
  else if String.eqb op "$lte" then
    if negb (isComparable value) || negb (isComparable val) then false
    else compare_with js_le value val
  else if String.eqb op "$ne" then negb (isEqual value val)
  else if String.eqb op "$in" then
    match val with
    | VArr vs => existsb (fun v => isEqual value v) vs
    | _ => false
    end
  else if String.eqb op "$nin" then
    match value, val with
    | VArr items, VArr vs =>
        negb (existsb (fun item => existsb (fun v => isEqual item v) vs) items)
    | VArr _, _ => false
    | _, VArr vs => negb (existsb (fun v => isEqual value v) vs)
    | _, _ => false
    end
  else if String.eqb op "$exists" then
    match val with
    | VBool b => Bool.eqb b (negb (is_undef value))
    | _ => false
    end
  else if String.eqb op "$all" then
    match value, val with
    | VArr items, VArr vs =>
        forallb (fun v => existsb (fun item => isEqual item v) items) vs
    | _, _ => false
    end
  else if String.eqb op "$size" then
    match value, val with
    | VArr items, VNum n => Z.of_nat (List.length items) =? n
    | _, _ => false
    end
  else if String.eqb op "$elemMatch" then
    match value with
    | VArr items =>
        existsb (fun item =>
                   if negb (jstype_eqb (typeof val) TObject) then isEqual item val
                   else recVal item) items
    | _ => false
    end
  else if String.eqb op "$not" then
    if negb (jstype_eqb (typeof val) TObject) then negb (isEqual value val)
    else negb (recVal value)
  else if String.eqb op "$type" then
    match val with
    | VStr "null" => is_null value
    | VStr "array" => isArray value
    | VStr "date" => match value with VDate _ => true | _ => false end
    | VStr "objectId" => match value with VOid _ => true | _ => false end
    | VStr name => String.eqb (typeof_name (typeof value)) name
    | _ => false
    end
  else
    match value with
    | VObj _ | VDate _ | VOid _ => recVal (getNestedValue value op)
    | _ => false
    end.

(** [condition && typeof condition === "object" && ("$all" in condition ||
    "$size" in condition || "$elemMatch" in condition || "$nin" in condition)] *)
Definition has_array_operator (condition : value) : bool :=
  match condition with
  | VObj fs =>
      obj_has fs "$all" || obj_has fs "$size" ||
      obj_has fs "$elemMatch" || obj_has fs "$nin"
  | _ => false
  end.

(** The array branch of [matchesCondition]: an array value is matched
    element by element unless the condition is an array or carries an array
    operator; [rest] is the remainder of the function for this condition. *)
Definition matchesAnyElement (condition : value) (rest : value -> bool)
  : value -> bool :=
  fix onValue (value : value) : bool :=
    match value with
    | VArr items =>
        if negb (isArray condition) && negb (has_array_operator condition)
        then existsb onValue items
        else rest value
    | _ => rest value
    end.

Fixpoint matchesConditionRest (condition : value) {struct condition}
  : value -> bool :=
  fun value =>
    match value, condition with
    | VOid x, VOid y => String.eqb x y
    | VArr vs, VArr cs =>
        if negb (List.length vs =? List.length cs)%nat then false
        else forallb_idx (fun index item => isEqual (nth index vs VUndef) item) 0 cs
    | _, _ =>
        if is_objectlike condition then
          match condition with
          | VObj entries =>
              forallb (fun e =>
                         matchesOperator
                           (matchesAnyElement (snd e) (matchesConditionRest (snd e)))
                           (fst e) (snd e) value) entries
          | VArr cs =>
              forallb_idx (fun index c =>
                             matchesOperator
                               (matchesAnyElement c (matchesConditionRest c))
                               (index_key index) c value) 0 cs
          | _ => true
          end
        else isEqual value condition
    end.

Definition matchesCondition (value condition : value) : bool :=
  matchesAnyElement condition (matchesConditionRest condition) value.

(** A field entry [key: condition] of a filter. *)
Definition matchesField (doc : value) (key : string) (condition : value) : bool :=
  let value := getNestedValue doc key in
  match condition with
  | VNull => is_null value
  | _ => matchesCondition value condition
  end.

(** [matchesFilter(doc, filter)].  The entries are visited in order; an
    empty [$or], [$and] or [$nor] list ends the visit with [true].  A filter
    is an object; of the other values, an array and a string have their
    elements as entries and the rest have none ([null] and [undefined], on
    which [Object.entries] throws, are no filters). *)
Fixpoint matchesFilter (filter : value) (doc : value) {struct filter} : bool :=
  match filter with
  | VObj fs =>
      (fix visit (entries : list (string * value)) : bool :=
         match entries with
         | [] => true
         | (key, condition) :: rest =>
             match condition with
             | VArr subs =>
                 if String.eqb key "$or" then
                   match subs with
                   | [] => true
                   | _ => if existsb (fun sub => matchesFilter sub doc) subs
                          then visit rest else false
                   end
                 else if String.eqb key "$and" then
                   match subs with
                   | [] => true
                   | _ => if forallb (fun sub => matchesFilter sub doc) subs
                          then visit rest else false
                   end
                 else if String.eqb key "$nor" then
                   match subs with
                   | [] => true
                   | _ => if existsb (fun sub => matchesFilter sub doc) subs
                          then false else visit rest
                   end
                 else if String.eqb key "$not" then
                   if forallb_idx (fun index c => matchesField doc (index_key index) c) 0 subs
                   then false else visit rest
                 else if matchesField doc key condition then visit rest else false
             | VObj _ | VDate _ | VOid _ =>
                 if String.eqb key "$not" then
                   if matchesFilter condition doc then false else visit rest
                 else if matchesField doc key condition then visit rest else false
             | _ => if matchesField doc key condition then visit rest else false
             end
         end) fs
  | VArr subs => forallb_idx (fun index c => matchesField doc (index_key index) c) 0 subs
  | VStr chars =>
      forallb_idx (fun index c => matchesField doc (index_key index) c) 0
        (List.map (fun c => VStr (String c EmptyString)) (list_ascii_of_string chars))
  | _ => true
  end.

(** ** The host key-value store

    Keys are tuples of parts, ordered part by part (strings before numbers
    before booleans, a proper prefix before its extensions).  [KNaN] is the
    [NaN] with a clear sign bit, which the store orders after every number.
    Every entry carries the versionstamp of the commit that wrote it. *)

Inductive key_part : Type :=
  | KStr (s : string)
  | KNum (n : Z)
  | KBool (b : bool)
  | KNaN.

Global Instance key_part_eq_dec : EqDecision key_part.
Proof. solve_decision. Defined.

Global Instance key_part_countable : Countable key_part.
Proof.
  refine (inj_countable'
            (fun p => match p with
                      | KStr s => inl s
                      | KNum n => inr (inl (Some n))
                      | KNaN => inr (inl None)
                      | KBool b => inr (inr b)
                      end)
            (fun x => match x with
                      | inl s => KStr s
                      | inr (inl (Some n)) => KNum n
                      | inr (inl None) => KNaN
                      | inr (inr b) => KBool b
                      end) _).
  by intros [].
Defined.

Abbreviation kv_key := (list key_part).

Module Kv.

Definition part_compare (a b : key_part) : comparison :=
  match a, b with
  | KStr x, KStr y => String.compare x y
  | KStr _, _ => Lt
  | (KNum _ | KNaN), KStr _ => Gt
  | KNum x, KNum y => Z.compare x y
  | KNum _, KNaN => Lt
  | KNaN, KNum _ => Gt
  | KNaN, KNaN => Eq
  | (KNum _ | KNaN), KBool _ => Lt
  | KBool x, KBool y => Bool.compare x y
  | KBool _, _ => Gt
  end.

Fixpoint key_compare (a b : kv_key) : comparison :=
  match a, b with
  | [], [] => Eq
  | [], _ :: _ => Lt
  | _ :: _, [] => Gt
  | x :: a', y :: b' =>
      match part_compare x y with
      | Eq => key_compare a' b'
      | c => c
      end
  end.

Definition key_le (a b : kv_key) : Prop := key_compare a b <> Gt.

Global Instance key_le_dec a b : Decision (key_le a b).
Proof. unfold key_le. solve_decision. Defined.

(** [key] extends [prefix] by at least one part. *)
Fixpoint has_prefix (prefix key : kv_key) : bool :=
  match prefix, key with
  | [], _ :: _ => true
  | [], [] => false
  | _ :: _, [] => false
  | p :: prefix', k :: key' =>
      bool_decide (p = k) && has_prefix prefix' key'
  end.

Record entry : Type := mkEntry {
  value_of : value;
  versionstamp : N
}.

Record store : Type := mkStore {
  data : gmap kv_key entry;
  clock : N
}.

Definition empty : store := mkStore ∅ 0.

(** [kv.get(key)]: the value and versionstamp, both null when absent. *)
Definition get (s : store) (key : kv_key) : option entry := data s !! key.

(** The store keeps a structured clone of a value written to it.  The
    clone of a value that holds no [ObjectId] is the value itself; an
    [ObjectId] is a class instance and is cloned as a plain object of its
    own properties, which the value model does not describe: such a value
    is not [storable], and a commit that writes one is [Unmodelled] (see
    [commit]). *)
Fixpoint storable (v : value) : bool :=
  match v with
  | VOid _ => false
  | VArr items => forallb storable items
  | VObj fields => forallb (fun kv => storable (snd kv)) fields
  | _ => true
  end.

Inductive mutation : Type :=
  | Set_ (key : kv_key) (v : value)
  | Delete (key : kv_key).

Definition storable_mutation (m : mutation) : bool :=
  match m with
  | Set_ _ v => storable v
  | Delete _ => true
  end.

Definition apply_mutation (stamp : N) (d : gmap kv_key entry) (m : mutation)
  : gmap kv_key entry :=
  match m with
  | Set_ key v => <[key := mkEntry v stamp]> d
  | Delete key => delete key d
  end.

(** A check holds when the key still carries the expected versionstamp
    ([None]: the key is absent). *)
Definition check_holds (s : store) (c : kv_key * option N) : bool :=
  bool_decide (versionstamp <$> get s (fst c) = snd c).

(** [kv.atomic().check(..).set(..).delete(..).commit()]: all mutations are
    applied, under one new versionstamp, when every check holds; nothing
    is applied otherwise.  The result is the [ok] flag. *)
Definition atomic (checks : list (kv_key * option N)) (ms : list mutation)
    (s : store) : bool * store :=
  if forallb (check_holds s) checks then
    let stamp := N.succ (clock s) in
    (true, mkStore (fold_left (apply_mutation stamp) ms (data s)) stamp)
  else (false, s).

(** [kv.set(key, v)] and [kv.delete(key)] *)
Definition set (key : kv_key) (v : value) (s : store) : store :=
  snd (atomic [] [Set_ key v] s).

Definition delete (key : kv_key) (s : store) : store :=
  snd (atomic [] [Delete key] s).

Definition entry_le (a b : kv_key * entry) : Prop := key_le (fst a) (fst b).

Global Instance entry_le_dec a b : Decision (entry_le a b).
Proof. unfold entry_le. apply _. Defined.

(** [kv.list({ prefix })]: the entries under the prefix, in key order. *)
Definition list_prefix (s : store) (prefix : kv_key) : list (kv_key * entry) :=
  merge_sort entry_le
    (List.filter (fun e => has_prefix prefix (fst e)) (map_to_list (data s))).

End Kv.

(** ** Places inside a document

    [getNestedValue] hands out either a value that lives in the document
    (the caller may then mutate it in place, as [$push] does) or an array it
    has just built by fanning out over the elements of an array.  [getNestedRef]
    follows the same steps and keeps track of which of the two it is. *)

Inductive step : Type :=
  | SField (k : string)
  | SIndex (i : nat).

Abbreviation place := (list step).

Fixpoint read_at (v : value) (l : place) : value :=
  match l with
  | [] => v
  | SField k :: rest =>
      match v with
      | VObj fs =>
          match obj_get fs k with
          | Some x => read_at x rest
          | None => VUndef
          end
      | _ => VUndef
      end
  | SIndex i :: rest =>
      match v with
      | VArr xs =>
          match nth_error xs i with
          | Some x => read_at x rest
          | None => VUndef
          end
      | _ => VUndef
      end
  end.

Fixpoint modify_at (f : value -> value) (v : value) (l : place) : value :=
  match l with
  | [] => f v
  | SField k :: rest =>
      match v with
      | VObj fs =>
          match obj_get fs k with
          | Some x => VObj (obj_set fs k (modify_at f x rest))
          | None => v
          end
      | _ => v
      end
  | SIndex i :: rest =>
      match v with
      | VArr xs =>
          match nth_error xs i with
          | Some x => VArr (<[i := modify_at f x rest]> xs)
          | None => v
          end
      | _ => v
      end
  end.

Inductive ref : Type :=
  | RAt (l : place)
  | RFresh (elements : list place)
  | RNone.

Definition deref (doc : value) (r : ref) : value :=
  match r with
  | RAt l => read_at doc l
  | RFresh ls => VArr (List.map (read_at doc) ls)
  | RNone => VUndef
  end.

(** The step of [getNestedValue] on an array whose elements live at [elems]. *)
Definition refStepArray (doc : value) (self : ref) (elems : list place)
    (part : string) : ref :=
  if String.eqb part "$" || String.eqb part EmptyString then self
  else if all_digits part then
    let index := parseInt part in
    if (index <? N.of_nat (List.length elems))%N
    then match nth_error elems (N.to_nat index) with
         | Some l => RAt l
         | None => RNone
         end
    else RNone
  else if existsb (fun l => is_objectlike (read_at doc l)) elems then
    let found :=
      List.filter (fun l => negb (is_undef (read_at doc l)))
        (List.map (fun l => (l ++ [SField part])%list)
           (List.filter (fun l => is_objectlike (read_at doc l)) elems)) in
    match found with [] => RNone | _ => RFresh found end
  else RNone.

Definition refStep (doc : value) (current : ref) (part : string) : ref :=
  match current with
  | RNone => RNone
  | RFresh ls => refStepArray doc current ls part
  | RAt l =>
      match read_at doc l with
      | VUndef | VNull => RNone
      | VArr xs =>
          refStepArray doc current
            (List.map (fun i => (l ++ [SIndex i])%list) (seq 0 (List.length xs))) part
      | VObj fs => if obj_has fs part then RAt (l ++ [SField part])%list else RNone
      | _ => RNone
      end
  end.

Definition getNestedRef (obj : value) (path : string) : ref :=
  if negb (truthy obj) then RNone
  else fold_left (refStep obj) (split_dot path) (RAt []).

(** ** The update engine ([Collection.applyUpdateOperators]) *)

(** [Object.entries(v)]: the own enumerable properties of an object, the
    elements of an array, the characters of a string; nothing for the other
    values ([null] and [undefined], for which the host throws, are guarded
    by the callers). *)
Definition string_chars (s : string) : list value :=
  List.map (fun c => VStr (String c EmptyString)) (list_ascii_of_string s).

Definition indexed (xs : list value) : list (string * value) :=
  combine (List.map index_key (seq 0 (List.length xs))) xs.

Definition entries_of (v : value) : list (string * value) :=
  match v with
  | VObj fs => fs
  | VArr xs => indexed xs
  | VStr s => indexed (string_chars s)
  | _ => []
  end.

(** A loop over entries that stops at the first exception. *)
Fixpoint foldO {A B} (f : B -> A -> outcome B) (l : list A) (acc : B) : outcome B :=
  match l with
  | [] => Ok acc
  | x :: rest => obind (f acc x) (foldO f rest)
  end.

Module Update.

Definition applySet (result : value) (e : string * value) : outcome value :=
  setNestedValue result (fst e) (snd e).

(** The [$unset] loop: walk while the next step is truthy, then delete the
    last part of the path from wherever the walk stopped. *)
Definition unsetHere (current : value) (lastPart : string) : outcome value :=
  if is_objectlike current then delete_prop current lastPart else Ok current.

(** [current[part] = child] for a step the walk has just read. *)
Definition put_back (current : value) (part : string) (child : value) : value :=
  match current with
  | VObj fs => VObj (obj_set fs part child)
  | VArr xs => VArr (<[N.to_nat (parseInt part) := child]> xs)
  | _ => current
  end.

Fixpoint unsetWalk (current : value) (parts : list string) (lastPart : string)
  : outcome value :=
  match parts with
  | [] | [_] => unsetHere current lastPart
  | part :: rest =>
      let next := prop_get current part in
      if negb (truthy next) then unsetHere current lastPart
      else obind (unsetWalk next rest lastPart)
                 (fun next' => Ok (put_back current part next'))
  end.

Definition applyUnset (result : value) (e : string * value) : outcome value :=
  let parts := split_dot (fst e) in
  unsetWalk result parts (List.last parts EmptyString).

(** A number the host has computed from integral doubles. *)
Definition rounded (z : Z) : outcome value :=
  match double_of_Z z with
  | Some d => Ok (VNum d)
  | None => Unmodelled
  end.

(** [currentValue + value] *)
Definition js_add (a b : value) : outcome value :=
  match a, b with
  | VNum x, VNum y => rounded (x + y)
  | VNum _, VNaN => Ok VNaN
  | VStr x, VNum y => Ok (VStr (x ++ number_to_string y))
  | VStr x, VNaN => Ok (VStr (x ++ "NaN"))
  | VStr x, VStr y => Ok (VStr (x ++ y))
  | _, _ => Unmodelled
  end.

(** [currentValue * value] *)
Definition js_mul (a b : value) : outcome value :=
  match a, b with
  | VNum x, VNum y => rounded (x * y)
  | VNum _, VNaN => Ok VNaN
  | _, _ => Unmodelled
  end.

(** [getNestedValue(result, path) || 0] *)
Definition current_or_zero (result : value) (path : string) : value :=
  let v := getNestedValue result path in
  if truthy v then v else VNum 0.

Definition applyInc (result : value) (e : string * value) : outcome value :=
  if is_undef (snd e) then Ok result
  else obind (js_add (current_or_zero result (fst e)) (snd e))
             (setNestedValue result (fst e)).

Definition applyMul (result : value) (e : string * value) : outcome value :=
  if is_undef (snd e) then Ok result
  else obind (js_mul (current_or_zero result (fst e)) (snd e))
             (setNestedValue result (fst e)).

Definition push_onto (v : value) (a : value) : value :=
  match a with
  | VArr xs => VArr (xs ++ [v])
  | _ => a
  end.

(** [$push]: the array found at the path is extended in place; when there
    is none, a new array is stored at the path and then extended. *)
Definition applyPush (result : value) (e : string * value) : outcome value :=
  let r := getNestedRef result (fst e) in
  match deref result r with
  | VArr _ =>
      match r with
      | RAt l => Ok (modify_at (push_onto (snd e)) result l)
      | _ => Ok result
      end
  | _ => setNestedValue result (fst e) (VArr [snd e])
  end.

Definition applyPull (result : value) (e : string * value) : outcome value :=
  match getNestedValue result (fst e) with
  | VArr items =>
      setNestedValue result (fst e)
        (VArr (List.filter (fun item => negb (isEqual item (snd e))) items))
  | _ => Ok result
  end.

Definition applyAddToSet (result : value) (e : string * value) : outcome value :=
  let r := getNestedRef result (fst e) in
  match deref result r with
  | VArr items =>
      if existsb (fun item => isEqual item (snd e)) items then Ok result
      else match r with
           | RAt l => Ok (modify_at (push_onto (snd e)) result l)
           | _ => Ok result
           end
  | _ => setNestedValue result (fst e) (VArr [snd e])
  end.

(** [currentValue === undefined || rel(currentValue, value)] *)
Definition replace_when (rel : prim -> prim -> bool) (result : value)
    (e : string * value) : outcome value :=
  if is_undef (snd e) then Ok result
  else
    let currentValue := getNestedValue result (fst e) in
    if is_undef currentValue then setNestedValue result (fst e) (snd e)
    else match to_prim currentValue, to_prim (snd e) with
         | Some p, Some q =>
             if rel p q then setNestedValue result (fst e) (snd e)
             else Ok result
         | _, _ => Unmodelled
         end.

(** [if (update.$op) Object.entries(update.$op).forEach(...)] *)
Definition forOperator (update : value) (op : string)
    (f : value -> string * value -> outcome value) (result : value)
  : outcome value :=
  let operand := prop_get update op in
  if truthy operand then foldO f (entries_of operand) result else Ok result.

End Update.

Definition applyUpdateOperators (doc update : value) : outcome value :=
  match doc with
  | VObj fs =>
      obind (Update.forOperator update "$set" Update.applySet (VObj fs)) (fun r =>
      obind (Update.forOperator update "$unset" Update.applyUnset r) (fun r =>
      obind (Update.forOperator update "$inc" Update.applyInc r) (fun r =>
      obind (Update.forOperator update "$mul" Update.applyMul r) (fun r =>
      obind (Update.forOperator update "$push" Update.applyPush r) (fun r =>
      obind (Update.forOperator update "$pull" Update.applyPull r) (fun r =>
      obind (Update.forOperator update "$addToSet" Update.applyAddToSet r) (fun r =>
      obind (Update.forOperator update "$min" (Update.replace_when js_gt) r) (fun r =>
      Update.forOperator update "$max" (Update.replace_when js_lt) r))))))))
  | _ => Unmodelled
  end.

(** ** Object ids *)

Definition is_hex (c : ascii) : bool :=
  let n := N_of_ascii c in
  ((48 <=? n) && (n <=? 57) || (97 <=? n) && (n <=? 102) ||
   (65 <=? n) && (n <=? 70))%N.

Definition lower_hex (c : ascii) : ascii :=
  let n := N_of_ascii c in
  if ((65 <=? n) && (n <=? 70))%N then ascii_of_N (n + 32) else c.

Fixpoint string_forallb (f : ascii -> bool) (s : string) : bool :=
  match s with
  | EmptyString => true
  | String c rest => f c && string_forallb f rest
  end.

Fixpoint string_map (f : ascii -> ascii) (s : string) : string :=
  match s with
  | EmptyString => EmptyString
  | String c rest => String (f c) (string_map f rest)
  end.

Definition is_hex24 (s : string) : bool :=
  (String.length s =? 24)%nat && string_forallb is_hex s.

(** [new ObjectId(x)] for a 24-digit hexadecimal string or an [ObjectId];
    what the constructor does with any other argument is not modelled. *)
Definition newObjectId (x : value) : outcome value :=
  match x with
  | VStr s => if is_hex24 s then Ok (VOid (string_map lower_hex s)) else Unmodelled
  | VOid h => Ok (VOid h)
  | _ => Unmodelled
  end.

(** [id.toString()] of what the code holds for an [ObjectId]; a plain
    object without a [toString] of its own answers ["[object Object]"]. *)
Definition idToString (id : value) : outcome string :=
  match id with
  | VOid h => Ok h
  | VStr s => Ok s
  | VObj fs => if obj_has fs "toString" then Unmodelled else Ok "[object Object]"
  | VUndef | VNull => TypeError
  | _ => Unmodelled
  end.

(** ** Index values *)

(** [String(part)] of a key part. *)
Definition part_to_string (p : key_part) : string :=
  match p with
  | KStr s => s
  | KNum n => number_to_string n
  | KNaN => "NaN"
  | KBool true => "true"
  | KBool false => "false"
  end.

Definition serializeIndexValue (v : value) : key_part :=
  match v with
  | VDate ms => KStr (toISOString ms)
  | VOid h => KStr h
  | VNull | VUndef => KStr EmptyString
  | VStr s => KStr s
  | VNum n => KNum n
  | VNaN => KNaN
  | VBool b => KBool b
  | VArr _ | VObj _ =>
      KStr (match json_stringify v with Some s => s | None => EmptyString end)
  end.

(** ** Results and options *)

Record UpdateResult : Type := mkUpdateResult {
  matchedCount : nat;
  modifiedCount : nat;
  upsertedId : value;
  upsertedCount : nat;
  update_acknowledged : bool
}.

Record InsertOneResult : Type := mkInsertOneResult {
  insert_acknowledged : bool;
  insertedId : value
}.

Record DeleteResult : Type := mkDeleteResult {
  delete_acknowledged : bool;
  deletedCount : nat
}.

(** The result of an ordered [insertMany]: it is returned only when no
    insertion failed, so [writeErrors] is empty. *)
Record InsertManyResult : Type := mkInsertManyResult {
  insertedCount : nat;
  insertedIds : list value;
  hasWriteErrors : bool
}.

(** An element of [listIndexes()]. *)
Record IndexDescription : Type := mkIndexDescription {
  index_name : value;
  index_spec : value;
  index_options : value
}.

(** [FindOptions] without [sort]: the model covers the calls that pass no
    sort order. *)
Record FindOptions : Type := mkFindOptions {
  limit : option nat;
  skip : option nat;
  projection : option (list (string * value))
}.

Definition noOptions : FindOptions := mkFindOptions None None None.

(** ** Projection *)

Definition is_one (v : value) : bool :=
  match v with VNum 1 => true | _ => false end.
Definition is_zero (v : value) : bool :=
  match v with VNum 0 => true | _ => false end.
Definition is_one_or_true (v : value) : bool :=
  match v with VNum 1 | VBool true => true | _ => false end.

(** [Collection.applyProjection] *)
Definition applyProjection (doc : value) (proj : option (list (string * value)))
  : outcome value :=
  match proj with
  | None | Some [] => Ok doc
  | Some projection =>
      let values :=
        List.map snd
          (List.filter (fun e => negb (String.eqb (fst e) "_id")) projection) in
      if negb (Nat.eqb (List.length values) 0) && existsb is_one values &&
         existsb is_zero values
      then Throw "Projection cannot have a mix of inclusion and exclusion"
      else
        let result := VObj [("_id", prop_get doc "_id")] in
        let includeMode := existsb is_one_or_true values in
        if includeMode then
          foldO (fun result e =>
                   if is_one (snd e) || String.eqb (fst e) "_id" then
                     let val := getNestedValue doc (fst e) in
                     if negb (is_undef val)
                     then setNestedValue result (fst e) val
                     else Ok result
                   else Ok result) projection result
        else
          foldO (fun result kv =>
                   if negb (match obj_get projection (fst kv) with
                            | Some v => is_zero v
                            | None => false
                            end) && negb (String.eqb (fst kv) "_id")
                   then assign result (fst kv) (snd kv)
                   else Ok result) (entries_of doc) result
  end.

Module Cursor.

(** [Boolean(value) !== includeMode] over the entries other than [_id];
    [None] is the [null] the loop starts from. *)
Fixpoint includeModeOf (entries : list (string * value)) (mode : option bool)
  : outcome (option bool) :=
  match entries with
  | [] => Ok mode
  | (field, v) :: rest =>
      if String.eqb field "_id" then includeModeOf rest mode
      else match mode with
           | None => includeModeOf rest (Some (truthy v))
           | Some m =>
               if negb (Bool.eqb (truthy v) m)
               then Throw "Projection cannot have a mix of inclusion and exclusion."
               else includeModeOf rest mode
           end
  end.

Definition isIncludeProjection (projection : list (string * value))
  : outcome bool :=
  obind (includeModeOf projection None) (fun mode =>
  Ok (match mode with Some false => false | _ => true end)).

Definition projectOne (projection : list (string * value)) (doc : value)
  : outcome value :=
  let result := VObj [("_id", prop_get doc "_id")] in
  obind (isIncludeProjection projection) (fun includeMode =>
  if includeMode then
    foldO (fun result e =>
             if String.eqb (fst e) "_id" then Ok result
             else if truthy (snd e) then
               let v := getNestedValue doc (fst e) in
               if negb (is_undef v) then setNestedValue result (fst e) v
               else Ok result
             else Ok result) projection result
  else
    foldO (fun result e =>
             if negb (String.eqb (fst e) "_id") || truthy (snd e)
             then deleteNestedField result (fst e)
             else Ok result) projection
          (VObj (obj_assign [("_id", prop_get doc "_id")] (entries_of doc)))).

(** [cursor.project(projection)], on the documents the cursor holds.  (The
    exclusion branch deletes nested fields from values it shares with the
    cursor's own documents; only the projected documents are returned
    here.) *)
Fixpoint project (projection : list (string * value)) (documents : list value)
  : outcome (list value) :=
  match documents with
  | [] => Ok []
  | doc :: rest =>
      obind (projectOne projection doc) (fun d =>
      obind (project projection rest) (fun ds => Ok (d :: ds)))
  end.

(** [toArray()], [count()], [next()] ([None] is [null]), and the cursors of
    [limit(n)] and [skip(n)] for a count [n]. *)
Definition toArray (documents : list value) : list value := documents.

Definition count (documents : list value) : nat := List.length documents.

Definition next (documents : list value) : option value :=
  match documents with
  | first :: _ => Some first
  | [] => None
  end.

Definition limit (n : nat) (documents : list value) : list value :=
  firstn n documents.

Definition skip (n : nat) (documents : list value) : list value :=
  skipn n documents.

End Cursor.

(** ** Distinct values ([Collection.distinct]) *)

Definition normalizeValue (v : value) : value :=
  match v with
  | VNull => VNull
  | _ =>
      if jstype_eqb (typeof v) TObject
      then VStr (match json_stringify v with Some s => s | None => EmptyString end)
      else v
  end.

(** [array.some((item) => this.isEqual(item, value))] *)
Definition arrayIncludes (array : list value) (v : value) : bool :=
  existsb (fun item => isEqual item v) array.

(** The first loop of [distinct]: the values of the field, the elements
    of an array value one by one. *)
Definition collectValues (field : string) (docs : list value) : list value :=
  fold_left (fun allValues doc =>
               match getNestedValue doc field with
               | VUndef => allValues
               | VArr items => (allValues ++ items)%list
               | v => (allValues ++ [v])%list
               end) docs [].

(** The second loop: a value is looked up among the normalized values kept
    so far, and is normalized when it is kept. *)
Definition distinctValues (allValues : list value) : list value :=
  fold_left (fun kept v =>
               if arrayIncludes kept v then kept
               else (kept ++ [normalizeValue v])%list) allValues [].

(** ** Store-passing computations *)

Definition M (A : Type) : Type := Kv.store -> outcome A * Kv.store.

Definition ret {A} (a : A) : M A := fun s => (Ok a, s).

Definition bind {A B} (m : M A) (f : A -> M B) : M B :=
  fun s =>
    match m s with
    | (Ok a, s') => f a s'
    | (Throw msg, s') => (Throw msg, s')
    | (Unmodelled, s') => (Unmodelled, s')
    end.

Definition throw {A} (msg : string) : M A := fun s => (Throw msg, s).

(** A computation that only reads the store. *)
Definition reading {A} (f : Kv.store -> outcome A) : M A := fun s => (f s, s).

(** [kv.atomic()...commit()], for mutations whose values the store keeps
    as they are. *)
Definition commit (checks : list (kv_key * option N)) (ms : list Kv.mutation)
  : M bool :=
  fun s =>
    if forallb Kv.storable_mutation ms
    then let (ok, s') := Kv.atomic checks ms s in (Ok ok, s')
    else (Unmodelled, s).

Arguments commit : simpl never.

Notation "x <- m ;; k" := (bind m (fun x => k))
  (at level 90, m at level 89, right associativity).
Notation "m ;;; k" := (bind m (fun _ => k))
  (at level 90, right associativity).
Notation "x <~ o ;; k" := (obind o (fun x => k))
  (at level 90, o at level 89, right associativity).

Fixpoint forM {A} (l : list A) (f : A -> M unit) : M unit :=
  match l with
  | [] => ret tt
  | x :: rest => f x ;;; forM rest f
  end.

(** ** The collection *)

Section Collection.

Variable collectionName : string.

Definition getKvKey (id : value) : outcome kv_key :=
  idStr <~ idToString id ;; Ok [KStr collectionName; KStr idStr].

Definition indexPrefix : kv_key := [KStr "__indexes__"; KStr collectionName].

(** [Object.keys(indexSpec.key)] *)
Definition specFields (indexSpec : value) : outcome (list string) :=
  match indexSpec with
  | VUndef | VNull => TypeError
  | _ =>
      match prop_get indexSpec "key" with
      | VUndef | VNull => TypeError
      | key => Ok (List.map fst (entries_of key))
      end
  end.

(** [indexInfo.spec] and [indexInfo.options] of a metadata entry. *)
Definition infoSpec (indexInfo : value) : outcome value :=
  match indexInfo with
  | VUndef | VNull => TypeError
  | _ => Ok (prop_get indexInfo "spec")
  end.

Definition infoOptions (indexInfo : value) : outcome value :=
  match indexInfo with
  | VUndef | VNull => TypeError
  | _ => Ok (prop_get indexInfo "options")
  end.

(** [options.unique] *)
Definition optionUnique (options : value) : outcome bool :=
  match options with
  | VUndef | VNull => TypeError
  | _ => Ok (truthy (prop_get options "unique"))
  end.

(** [(entry.value as any)._id] *)
Definition entryId (e : kv_key * Kv.entry) : outcome value :=
  match Kv.value_of (snd e) with
  | VUndef | VNull => TypeError
  | v => Ok (prop_get v "_id")
  end.

(** The uniqueness scan: an entry under the prefix that names another
    document is a duplicate. *)
Fixpoint checkUnique (field idStr : string) (entries : list (kv_key * Kv.entry))
  : outcome unit :=
  match entries with
  | [] => Ok tt
  | e :: rest =>
      existingId <~ entryId e ;;
      if truthy existingId && negb (strict_eq_prim existingId (VStr idStr))
      then Throw ("Duplicate key error: " ++ field)
      else checkUnique field idStr rest
  end.

Definition indexEntryKey (field : string) (serializedValue : key_part)
    (idStr : string) : kv_key :=
  [KStr collectionName; KStr "__idx__"; KStr field; serializedValue; KStr idStr].

(** The round of the loop of [updateIndexEntry] for one field: the
    uniqueness scan when the index is unique, then the commit of the entry. *)
Definition indexOneField (doc options : value) (field : string) : M unit :=
  let value := getNestedValue doc field in
  let serializedValue := serializeIndexValue value in
  idStr <- reading (fun _ => idToString (prop_get doc "_id")) ;;
  let indexKey := indexEntryKey field serializedValue idStr in
  unique <- reading (fun _ => optionUnique options) ;;
  (if unique then
     reading (fun s =>
       checkUnique field idStr
         (Kv.list_prefix s
            [KStr collectionName; KStr "__idx__"; KStr field; serializedValue]))
   else ret tt) ;;;
  commit [] [Kv.Set_ indexKey (VObj [("_id", VStr idStr)])] ;;;
  ret tt.

(** [updateIndexEntry]: one commit per field of the index. *)
Definition updateIndexEntry (doc indexSpec options : value) : M unit :=
  fields <- reading (fun _ => specFields indexSpec) ;;
  forM fields (indexOneField doc options).

(** The round of the loop of [insertOne] for one declared index. *)
Definition indexUnder (doc : value) (entry : kv_key * Kv.entry) : M unit :=
  spec <- reading (fun _ => infoSpec (Kv.value_of (snd entry))) ;;
  options <- reading (fun _ => infoOptions (Kv.value_of (snd entry))) ;;
  updateIndexEntry doc spec options.

(** [insertOne(doc)]; [fresh] is the id [new ObjectId()] would produce. *)
Definition insertOne (fresh : string) (doc : value) : M InsertOneResult :=
  match doc with
  | VObj fs =>
      let _id := if truthy (prop_get doc "_id") then prop_get doc "_id"
                 else VOid fresh in
      key <- reading (fun _ => getKvKey _id) ;;
      idStr <- reading (fun _ => idToString _id) ;;
      let docToInsert := VObj (obj_set fs "_id" (VStr idStr)) in
      existing <- reading (fun s => Ok (Kv.get s key)) ;;
      if match existing with
         | Some e => truthy (Kv.value_of e)
         | None => false
         end
      then throw "Duplicate key error"
      else
        infos <- reading (fun s => Ok (Kv.list_prefix s indexPrefix)) ;;
        forM infos (indexUnder (VObj (obj_set fs "_id" _id))) ;;;
        ok <- commit [(key, None)] [Kv.Set_ key docToInsert] ;;
        if negb ok then throw "Failed to insert document"
        else ret (mkInsertOneResult true _id)
  | VArr _ | VDate _ | VOid _ => fun s => (Unmodelled, s)
  | _ => throw "Invalid document"
  end.

(** [doc._id = this.deserializeObjectId(doc._id)] on a stored document. *)
Definition reviveId (stored : value) : outcome value :=
  match stored with
  | VObj fs =>
      oid <~ newObjectId (prop_get stored "_id") ;;
      Ok (VObj (obj_set fs "_id" oid))
  | _ => Unmodelled
  end.

(** The direct lookup [findOne] does for [{ _id: <ObjectId>, ... }]. *)
Definition findById (s : Kv.store) (hex : string) : outcome (option value) :=
  match Kv.get s [KStr collectionName; KStr hex] with
  | None => Ok None
  | Some e =>
      if negb (truthy (Kv.value_of e)) then Ok None
      else doc <~ reviveId (Kv.value_of e) ;; Ok (Some doc)
  end.

(** *** Planning *)

Definition indexableOps : list string :=
  ["$eq"; "$gt"; "$gte"; "$lt"; "$lte"; "$in"].

Definition rangeOps : list string := ["$gt"; "$gte"; "$lt"; "$lte"].

Definition includes (l : list string) (x : string) : bool :=
  existsb (String.eqb x) l.

(** [Object.keys(v)] *)
Definition keys_of (v : value) : list string := List.map fst (entries_of v).

(** [fields.every((field) => field in filter)] *)
Fixpoint every_in (filter : value) (fields : list string) : outcome bool :=
  match fields with
  | [] => Ok true
  | field :: rest =>
      present <~ has_in filter field ;;
      if present then every_in filter rest else Ok false
  end.

Definition canUseIndexForQuery (indexSpec filter : value) : outcome bool :=
  indexFields <~ specFields indexSpec ;;
  match indexFields with
  | [field] =>
      present <~ has_in filter field ;;
      let condition := prop_get filter field in
      Ok (present &&
          (negb (jstype_eqb (typeof condition) TObject) ||
           (jstype_eqb (typeof condition) TObject && negb (is_null condition) &&
            existsb (includes indexableOps) (keys_of condition))))
  | _ =>
      let firstField := match indexFields with
                        | f :: _ => f
                        | [] => "undefined"
                        end in
      present <~ has_in filter firstField ;;
      if negb present then Ok false
      else every_in filter (List.tl indexFields)
  end.

(** [findUsableIndex]: the first metadata entry, in key order, whose index
    the filter can use. *)
Fixpoint firstUsable (filter : value) (infos : list (kv_key * Kv.entry))
  : outcome (option value) :=
  match infos with
  | [] => Ok None
  | entry :: rest =>
      spec <~ infoSpec (Kv.value_of (snd entry)) ;;
      usable <~ canUseIndexForQuery spec filter ;;
      if usable then Ok (Some (Kv.value_of (snd entry)))
      else firstUsable filter rest
  end.

Definition findUsableIndex (s : Kv.store) (filter : value)
  : outcome (option value) :=
  firstUsable filter (Kv.list_prefix s indexPrefix).

Definition isRangeQuery (condition : value) : bool :=
  if negb (jstype_eqb (typeof condition) TObject) || is_null condition
  then false
  else existsb (includes rangeOps) (keys_of condition).

Definition getQueryValue (condition : value) : outcome value :=
  match condition with
  | VObj obj =>
      match obj_get obj "$eq" with
      | Some v => Ok v
      | None =>
          match obj_get obj "$in" with
          | Some (VArr vs) => Ok (nth 0 vs VUndef)
          | Some (VObj fs) => Ok (prop_get (VObj fs) "0")
          | Some (VUndef | VNull) => TypeError
          | Some (VStr chars) => Ok (nth 0 (string_chars chars) VUndef)
          | Some _ => Ok VUndef
          | None => Ok condition
          end
      end
  | _ => Ok condition
  end.

(** *** Execution *)

(** [processed.slice(skip || 0, limit ? (skip || 0) + limit : undefined)] *)
Definition slice_options (options : FindOptions) (docs : list value)
  : list value :=
  let start := match skip options with Some n => n | None => 0%nat end in
  match limit options with
  | Some (S n) => firstn (S n) (skipn start docs)
  | _ => skipn start docs
  end.

Fixpoint mapO {A B} (f : A -> outcome B) (l : list A) : outcome (list B) :=
  match l with
  | [] => Ok []
  | x :: rest => y <~ f x ;; ys <~ mapO f rest ;; Ok (y :: ys)
  end.

Definition applyFindOptions (results : list value) (options : FindOptions)
  : outcome (list value) :=
  let processed := slice_options options results in
  match projection options with
  | Some p => mapO (fun doc => applyProjection doc (Some p)) processed
  | None => Ok processed
  end.

(** The documents collected so far, with the ids already seen. *)
Definition addUniqueDoc (doc : value) (acc : list string * list value)
  : outcome (list string * list value) :=
  idStr <~ idToString (prop_get doc "_id") ;;
  if includes (fst acc) idStr then Ok acc
  else Ok (idStr :: fst acc, (snd acc ++ [doc])%list).

(** Fetch the document an index entry names and keep it when the filter
    accepts it. *)
Definition collectCandidate (s : Kv.store) (filter : value)
    (acc : list string * list value) (entry : kv_key * Kv.entry)
  : outcome (list string * list value) :=
  docId <~ entryId entry ;;
  oid <~ newObjectId docId ;;
  hex <~ idToString oid ;;
  found <~ findById s hex ;;
  match found with
  | Some doc => if matchesFilter filter doc then addUniqueDoc doc acc else Ok acc
  | None => Ok acc
  end.

(** One round of the full scan; an entry whose key does not have two parts
    is skipped ("skip index entries"). *)
Definition scanStep (filter : value) (results : list value)
    (entry : kv_key * Kv.entry) : outcome (list value) :=
  if negb (List.length (fst entry) =? 2)%nat then Ok results
  else
    doc <~ reviveId (Kv.value_of (snd entry)) ;;
    if matchesFilter filter doc then Ok (results ++ [doc])%list else Ok results.

Definition findWithoutIndex (s : Kv.store) (filter : value)
    (options : FindOptions) : outcome (list value) :=
  results <~ foldO (scanStep filter) (Kv.list_prefix s [KStr collectionName]) [] ;;
  applyFindOptions results options.

(** The bounds test of the range scan, on [String(indexValue)]. *)
Definition inRange (condition : value) (indexValue : key_part) : bool :=
  let gt := prop_get condition "$gt" in
  let lt := prop_get condition "$lt" in
  let start := if truthy gt then gt else prop_get condition "$gte" in
  let end_ := if truthy lt then lt else prop_get condition "$lte" in
  let strIndexValue := part_to_string indexValue in
  let matches :=
    if negb (is_undef start) then
      let strStartValue := part_to_string (serializeIndexValue start) in
      if truthy gt then negb (String.leb strIndexValue strStartValue)
      else negb (String.ltb strIndexValue strStartValue)
    else true in
  if negb (is_undef end_) && matches then
    let strEndValue := part_to_string (serializeIndexValue end_) in
    if truthy lt then negb (String.leb strEndValue strIndexValue)
    else negb (String.ltb strEndValue strIndexValue)
  else matches.

Definition findUsingIndexRange (s : Kv.store) (field : string)
    (condition fullFilter : value) (options : FindOptions)
  : outcome (list value) :=
  let scanned :=
    foldO (fun acc entry =>
             if inRange condition (nth 3 (fst entry) (KStr EmptyString))
             then collectCandidate s fullFilter acc entry
             else Ok acc)
          (Kv.list_prefix s [KStr collectionName; KStr "__idx__"; KStr field])
          ([], []) in
  match scanned with
  | Ok acc => applyFindOptions (snd acc) options
  | Throw _ => findWithoutIndex s fullFilter options
  | Unmodelled => Unmodelled
  end.

Definition findUsingIndex (s : Kv.store) (indexInfo filter : value)
    (options : FindOptions) : outcome (list value) :=
  spec <~ infoSpec indexInfo ;;
  indexFields <~ specFields spec ;;
  match indexFields with
  | [field] =>
      let condition := prop_get filter field in
      if isRangeQuery condition
      then findUsingIndexRange s field condition filter options
      else
        value <~ getQueryValue condition ;;
        let serializedValue := serializeIndexValue value in
        acc <~ foldO (collectCandidate s filter)
                 (Kv.list_prefix s
                    [KStr collectionName; KStr "__idx__"; KStr field;
                     serializedValue])
                 ([], []) ;;
        applyFindOptions (snd acc) options
  | _ =>
      let firstField := match indexFields with
                        | f :: _ => f
                        | [] => "undefined"
                        end in
      let firstValue := prop_get filter firstField in
      acc <~ foldO (collectCandidate s filter)
               (Kv.list_prefix s
                  [KStr collectionName; KStr "__idx__"; KStr firstField;
                   KStr (part_to_string (serializeIndexValue firstValue))])
               ([], []) ;;
      applyFindOptions (snd acc) options
  end.

Definition find (s : Kv.store) (filter : value) (options : FindOptions)
  : outcome (list value) :=
  usableIndex <~ findUsableIndex s filter ;;
  match usableIndex with
  | Some indexInfo => findUsingIndex s indexInfo filter options
  | None => findWithoutIndex s filter options
  end.

(** [{ limit: 1, ...options }] *)
Definition limitOne (options : FindOptions) : FindOptions :=
  mkFindOptions (match limit options with Some n => Some n | None => Some 1%nat end)
                (skip options) (projection options).

(** [findOne(filter, options)] *)
Definition findOne (s : Kv.store) (filter : value) (options : FindOptions)
  : outcome (option value) :=
  match filter with
  | VObj fs =>
      match obj_get fs "_id" with
      | Some (VOid hex) => findById s hex
      | _ =>
          results <~ find s filter (limitOne options) ;;
          match results with
          | first :: _ => if truthy first then Ok (Some first) else Ok None
          | [] => Ok None
          end
      end
  | _ => Unmodelled
  end.

(** *** Writes *)

(** [updateOne(filter, update, { upsert })]; [fresh] is the id
    [generateId()] would produce. *)
Definition updateOne (fresh : string) (filter update : value) (upsert : bool)
  : M UpdateResult :=
  found <- reading (fun s => findOne s filter noOptions) ;;
  match found with
  | None =>
      if upsert then
        let _id := if truthy (prop_get filter "_id") then prop_get filter "_id"
                   else VOid fresh in
        let emptyDoc := VObj [("_id", _id)] in
        newDoc <- reading (fun _ => applyUpdateOperators emptyDoc update) ;;
        key <- reading (fun _ => getKvKey _id) ;;
        idStr <- reading (fun _ => idToString _id) ;;
        ok <- commit [(key, None)]
                [Kv.Set_ key (VObj (obj_set (entries_of newDoc) "_id" (VStr idStr)))] ;;
        if negb ok then throw "Failed to upsert document"
        else ret (mkUpdateResult 0 1 _id 1 true)
      else ret (mkUpdateResult 0 0 VNull 0 true)
  | Some doc =>
      updatedDoc <- reading (fun _ => applyUpdateOperators doc update) ;;
      key <- reading (fun _ => getKvKey (prop_get doc "_id")) ;;
      currentEntry <- reading (fun s => Ok (Kv.get s key)) ;;
      idStr <- reading (fun _ => idToString (prop_get doc "_id")) ;;
      ok <- commit [(key, Kv.versionstamp <$> currentEntry)]
              [Kv.Set_ key (VObj (obj_set (entries_of updatedDoc) "_id" (VStr idStr)))] ;;
      if negb ok then throw "Failed to update document"
      else ret (mkUpdateResult 1 1 VNull 0 true)
  end.

(** [deleteOne(filter)] *)
Definition deleteOne (filter : value) : M DeleteResult :=
  found <- reading (fun s => findOne s filter noOptions) ;;
  match found with
  | None => ret (mkDeleteResult true 0)
  | Some doc =>
      key <- reading (fun _ => getKvKey (prop_get doc "_id")) ;;
      currentEntry <- reading (fun s => Ok (Kv.get s key)) ;;
      ok <- commit [(key, Kv.versionstamp <$> currentEntry)] [Kv.Delete key] ;;
      if negb ok
      then throw "Failed to delete document - concurrent modification detected"
      else ret (mkDeleteResult true 1)
  end.

(** [countDocuments(filter, { limit, skip })] *)
Definition countDocuments (s : Kv.store) (filter : value)
    (limit_ skip_ : option nat) : outcome Z :=
  results <~ find s filter noOptions ;;
  let len := Z.of_nat (List.length results) in
  match limit_, skip_ with
  | None, None => Ok len
  | _, _ =>
      let start := match skip_ with Some n => Z.of_nat n | None => 0 end in
      let end_ := match limit_ with
                  | Some n => start + Z.of_nat n
                  | None => len
                  end in
      Ok (Z.min (Z.max 0 (len - start)) (end_ - start))
  end.

(** [estimatedDocumentCount()] *)
Definition estimatedDocumentCount (s : Kv.store) : nat :=
  List.length (Kv.list_prefix s [KStr collectionName]).

(** *** Indexes *)

Definition validOptionKeys : list string := ["unique"; "sparse"; "name"].

Definition normalizeIndexSpec (fieldOrSpec : value) : value :=
  match fieldOrSpec with
  | VStr field => VObj [("key", VObj [(field, VNum 1)])]
  | _ => fieldOrSpec
  end.

Fixpoint join_with (sep : string) (parts : list string) : string :=
  match parts with
  | [] => EmptyString
  | [p] => p
  | p :: rest => p ++ sep ++ join_with sep rest
  end.

(** The pieces [field_dir] of a generated index name. *)
Definition namePiece (e : string * value) : outcome string :=
  match snd e with
  | VNum n => Ok (fst e ++ "_" ++ number_to_string n)
  | VStr d => Ok (fst e ++ "_" ++ d)
  | _ => Unmodelled
  end.

(** The documents of the collection, as [createIndex] gathers them. *)
Definition allDocuments (s : Kv.store) : outcome (list value) :=
  foldO (fun docs entry =>
           if (List.length (fst entry) =? 2)%nat then
             doc <~ reviveId (Kv.value_of (snd entry)) ;;
             Ok (docs ++ [doc])%list
           else Ok docs)
        (Kv.list_prefix s [KStr collectionName]) [].

(** The uniqueness check before a unique index is built. *)
Definition checkNoDuplicates (fields : list string) (documents : list value)
  : outcome unit :=
  seen <~ foldO (fun seen doc =>
                   foldO (fun seen field =>
                            let key := field ++ ":" ++
                              part_to_string
                                (serializeIndexValue (getNestedValue doc field)) in
                            if includes seen key
                            then Throw ("Duplicate key error: " ++ field)
                            else Ok (key :: seen)) fields seen)
                documents [] ;;
  Ok tt.

Definition createIndex (fieldOrSpec options : value) : M string :=
  if existsb (fun key => negb (includes validOptionKeys key)) (keys_of options)
  then throw "Invalid index options"
  else
    let indexSpec := normalizeIndexSpec fieldOrSpec in
    let key := prop_get indexSpec "key" in
    if negb (truthy key) || (List.length (keys_of key) =? 0)%nat
    then throw "Invalid index specification"
    else
      indexName <- reading (fun _ =>
        match prop_get options "name" with
        | VStr name =>
            if truthy (VStr name) then Ok name
            else pieces <~ mapO namePiece (entries_of key) ;;
                 Ok (join_with "_" pieces)
        | VUndef | VNull =>
            pieces <~ mapO namePiece (entries_of key) ;;
            Ok (join_with "_" pieces)
        | _ => Unmodelled
        end) ;;
      let indexKey := (indexPrefix ++ [KStr indexName])%list in
      existingIndex <- reading (fun s => Ok (Kv.get s indexKey)) ;;
      if match existingIndex with
         | Some e => truthy (Kv.value_of e)
         | None => false
         end
      then throw "Index already exists"
      else
        documents <- reading allDocuments ;;
        (if truthy (prop_get options "unique")
         then reading (fun _ => checkNoDuplicates (keys_of key) documents)
         else ret tt) ;;;
        commit [] [Kv.Set_ indexKey
                     (VObj [("spec", indexSpec); ("options", options)])] ;;;
        forM documents (fun doc => updateIndexEntry doc indexSpec options) ;;;
        ret indexName.

(** [dropIndex(indexName)] *)
Definition dropIndex (indexName : string) : M unit :=
  fun s => (Ok tt, Kv.delete (indexPrefix ++ [KStr indexName])%list s).

(** [listIndexes()] *)
Definition key_part_value (p : key_part) : value :=
  match p with
  | KStr s => VStr s
  | KNum n => VNum n
  | KNaN => VNaN
  | KBool b => VBool b
  end.

Definition describeIndex (entry : kv_key * Kv.entry) : outcome IndexDescription :=
  let name := match nth_error (fst entry) 2 with
              | Some p => key_part_value p
              | None => VUndef
              end in
  match Kv.value_of (snd entry) with
  | VUndef | VNull => TypeError
  | info => Ok (mkIndexDescription name (prop_get info "spec") (prop_get info "options"))
  end.

Definition listIndexes (s : Kv.store) : outcome (list IndexDescription) :=
  mapO describeIndex (Kv.list_prefix s indexPrefix).

(** *** Inserting several documents *)

(** The scan of [checkIndexViolations] under one value of one field. *)
Fixpoint checkViolation (field : string) (id : value)
    (entries : list (kv_key * Kv.entry)) : outcome unit :=
  match entries with
  | [] => Ok tt
  | e :: rest =>
      existingId <~ entryId e ;;
      if truthy existingId then
        idStr <~ idToString id ;;
        if negb (strict_eq_prim existingId (VStr idStr))
        then Throw ("Duplicate key error: " ++ field)
        else checkViolation field id rest
      else checkViolation field id rest
  end.

(** The round of [checkIndexViolations] for one declared index. *)
Definition violationsUnder (s : Kv.store) (doc : value)
    (entry : kv_key * Kv.entry) : outcome unit :=
  options <~ infoOptions (Kv.value_of (snd entry)) ;;
  unique <~ optionUnique options ;;
  if unique then
    spec <~ infoSpec (Kv.value_of (snd entry)) ;;
    fields <~ specFields spec ;;
    foldO (fun _ field =>
             checkViolation field (prop_get doc "_id")
               (Kv.list_prefix s
                  [KStr collectionName; KStr "__idx__"; KStr field;
                   serializeIndexValue (getNestedValue doc field)]))
          fields tt
  else Ok tt.

Definition checkIndexViolations (s : Kv.store) (doc : value) : outcome unit :=
  foldO (fun _ entry => violationsUnder s doc entry)
        (Kv.list_prefix s indexPrefix) tt.

(** [insertDoc(doc, index)] of an ordered [insertMany]: every error is
    thrown on; [None] is the [null] returned for a value that is no
    document. *)
Definition insertDoc (fresh : string) (doc : value) : M (option value) :=
  match doc with
  | VObj fs =>
      let _id := if truthy (prop_get doc "_id") then prop_get doc "_id"
                 else VOid fresh in
      key <- reading (fun _ => getKvKey _id) ;;
      existing <- reading (fun s => Ok (Kv.get s key)) ;;
      if match existing with
         | Some e => truthy (Kv.value_of e)
         | None => false
         end
      then throw "Duplicate key error"
      else
        idStr <- reading (fun _ => idToString _id) ;;
        let docToInsert := VObj (obj_set fs "_id" (VStr idStr)) in
        reading (fun s => checkIndexViolations s docToInsert) ;;;
        ok <- commit [(key, None)] [Kv.Set_ key docToInsert] ;;
        if negb ok then throw "Failed to insert document"
        else ret (Some _id)
  | VArr _ | VDate _ | VOid _ => fun s => (Unmodelled, s)
  | _ => ret None
  end.

(** The loop of the ordered mode, from the document at position [i];
    [fresh i] is the id [new ObjectId()] would produce there. *)
Fixpoint insertLoop (fresh : nat -> string) (i : nat) (docs : list value)
    (insertedIds : list value) : M (list value) :=
  match docs with
  | [] => ret insertedIds
  | doc :: rest =>
      _id <- insertDoc (fresh i) doc ;;
      insertLoop fresh (S i) rest
        (match _id with
         | Some id => (insertedIds ++ [id])%list
         | None => insertedIds
         end)
  end.

(** [insertMany(docs)], with the default [ordered: true]. *)
Definition insertMany (fresh : nat -> string) (docs : value) : M InsertManyResult :=
  match docs with
  | VArr items =>
      if existsb (fun doc => negb (is_objectlike doc)) items
      then throw "Invalid document"
      else
        ids <- insertLoop fresh 0 items [] ;;
        ret (mkInsertManyResult (List.length ids) ids false)
  | _ => throw "docs parameter must be an array"
  end.

(** [distinct(field, filter)] *)
Definition distinct (s : Kv.store) (field : string) (filter : value)
  : outcome (list value) :=
  docs <~ find s filter noOptions ;;
  Ok (distinctValues (collectValues field docs)).

End Collection.

(** The store a computation leaves behind. *)
Definition run {A} (m : M A) (s : Kv.store) : Kv.store := snd (m s).

(** * Example data *)

(** ** A small collection

    Collection [users] with an index on [age] and two documents, built by
    the engine's own operations. *)

Definition idA : string := "650000000000000000000001".
Definition idB : string := "650000000000000000000002".
Definition idC : string := "650000000000000000000003".

Definition alice : value :=
  VObj [("name", VStr "A"); ("age", VNum 10); ("tags", VArr [VStr "a"])].
Definition bob : value := VObj [("name", VStr "B"); ("age", VNum 5)].

Definition users0 : Kv.store :=
  run (createIndex "users" (VStr "age") (VObj [])) Kv.empty.
Definition users1 : Kv.store := run (insertOne "users" idA alice) users0.
Definition users2 : Kv.store := run (insertOne "users" idB bob) users1.

Definition ageIndexInfo : value :=
  VObj [("spec", VObj [("key", VObj [("age", VNum 1)])]); ("options", VObj [])].

Definition aliceStored : value :=
  VObj [("name", VStr "A"); ("age", VNum 10); ("tags", VArr [VStr "a"]);
        ("_id", VOid idA)].

Definition aliceIndexKey : kv_key :=
  [KStr "users"; KStr "__idx__"; KStr "age"; KNum 10; KStr idA].

(** ** Index entries and the documents they name *)


(** The entry under [key] is an index entry naming the document [idStr]. *)
Definition names_document (s : Kv.store) (key : kv_key) (idStr : string) : Prop :=
  Kv.value_of <$> Kv.get s key = Some (VObj [("_id", VStr idStr)]).



(** ** The data of the repository's index tests

    Four documents inserted before any index is declared, as the test suite
    does with [insertMany]; [createIndex] then builds the entries. *)

Definition member (name email status : string) (age : Z) : value :=
  VObj [("name", VStr name); ("age", VNum age); ("email", VStr email);
        ("status", VStr status)].

Definition id1 : string := "650000000000000000000011".
Definition id2 : string := "650000000000000000000012".
Definition id3 : string := "650000000000000000000013".
Definition id4 : string := "650000000000000000000014".

Definition members : Kv.store :=
  run (insertOne "members" id4 (member "Alice" "alice@test.com" "active" 28))
    (run (insertOne "members" id3 (member "Bob" "bob@test.com" "inactive" 35))
       (run (insertOne "members" id2 (member "Jane" "jane@test.com" "active" 25))
          (run (insertOne "members" id1 (member "John" "john@test.com" "active" 30))
             Kv.empty))).




(** The names of the documents a query returns. *)
Definition names_of (o : outcome (list value)) : option (list value) :=
  match o with
  | Ok docs => Some (List.map (fun d => getNestedValue d "name") docs)
  | _ => None
  end.

(** ** Documents, updates and filters *)

Definition withSibling : value := VObj [("_id", VOid idA); ("y", VNum 1)].

Definition eachNothing : value := VObj [("$each", VArr [])].

Definition person : value :=
  VObj [("_id", VOid idA); ("name", VStr "A"); ("age", VNum 30)].

Definition orderedOps : list string := ["$gt"; "$gte"; "$lt"; "$lte"].

(** The host's relational operator behind an ordered filter operator. *)
Definition ordered_relation (op : string) : prim -> prim -> bool :=
  if String.eqb op "$gt" then js_gt
  else if String.eqb op "$gte" then js_ge
  else if String.eqb op "$lt" then js_lt
  else js_le.

(** The order of two integers behind an ordered filter operator. *)
Definition integer_order (op : string) (a b : Z) : bool :=
  if String.eqb op "$gt" then b <? a
  else if String.eqb op "$gte" then b <=? a
  else if String.eqb op "$lt" then a <? b
  else a <=? b.

(** The order of two strings, by code units, behind an ordered filter
    operator. *)
Definition string_order (op : string) (a b : string) : bool :=
  if String.eqb op "$gt" then String.ltb b a
  else if String.eqb op "$gte" then negb (String.ltb a b)
  else if String.eqb op "$lt" then String.ltb a b
  else negb (String.ltb b a).



Definition olderThanFive : value := VObj [("age", VObj [("$gt", VNum 5)])].

(** ** What a plan may return

    [doc] is a document of the collection that the filter accepts: it is
    what the entry under some two-part key of the collection revives to. *)
Definition stored_match (coll : string) (s : Kv.store) (filter doc : value) : Prop :=
  matchesFilter filter doc = true /\
  exists k e,
    In (k, e) (Kv.list_prefix s [KStr coll]) /\
    List.length k = 2%nat /\
    reviveId (Kv.value_of e) = Ok doc.

(** ** Well-formed values

    The own properties of a host object have distinct names; the
    association list of a [VObj] that stands for one has distinct keys, at
    every depth. *)

Fixpoint distinct_keys (keys : list string) : bool :=
  match keys with
  | [] => true
  | k :: rest => negb (existsb (String.eqb k) rest) && distinct_keys rest
  end.

Fixpoint wf_value (v : value) : bool :=
  match v with
  | VArr items => forallb wf_value items
  | VObj fields =>
      distinct_keys (List.map fst fields) &&
      forallb (fun kv => wf_value (snd kv)) fields
  | _ => true
  end.

(** The values [typeof] does not call an object, and [null]. *)
Definition is_primitive (v : value) : bool :=
  match v with
  | VUndef | VNull | VBool _ | VNum _ | VNaN | VStr _ => true
  | _ => false
  end.

(** [NaN] itself. *)
Definition is_nan (v : value) : bool :=
  match v with VNaN => true | _ => false end.

(** A primitive other than [NaN]: [undefined], [null], a boolean, an
    integer or a string. *)
Definition is_exact (v : value) : bool := is_primitive v && negb (is_nan v).

(** A document that holds no [ObjectId] outside its [_id]: the store keeps
    it as it is written. *)
Definition storable_document (doc : value) : bool :=
  Kv.storable (VObj (obj_del (entries_of doc) "_id")).

(** No [NaN] anywhere inside the value. *)
Fixpoint nan_free (v : value) : bool :=
  match v with
  | VNaN => false
  | VArr items => forallb nan_free items
  | VObj fields => forallb (fun kv => nan_free (snd kv)) fields
  | _ => true
  end.


(** A path of one part. *)
Definition is_field_name (k : string) : Prop := split_dot k = [k].

(** An entry [$or: []], [$and: []] or [$nor: []] of a filter. *)
Definition empty_logical (e : string * value) : bool :=
  match snd e with
  | VArr [] =>
      String.eqb (fst e) "$or" || String.eqb (fst e) "$and" ||
      String.eqb (fst e) "$nor"
  | _ => false
  end.

(** ** Induction on values, through arrays and objects *)

Section ValueInduction.

Variable P : value -> Prop.
Hypothesis Hundef : P VUndef.
Hypothesis Hnull : P VNull.
Hypothesis Hbool : forall b, P (VBool b).
Hypothesis Hnum : forall n, P (VNum n).
Hypothesis Hstr : forall s, P (VStr s).
Hypothesis Hdate : forall ms, P (VDate ms).
Hypothesis Hoid : forall hex, P (VOid hex).
Hypothesis Harr : forall items, Forall P items -> P (VArr items).
Hypothesis Hobj : forall fields, Forall (fun kv => P (snd kv)) fields -> P (VObj fields).
Hypothesis Hnan : P VNaN.

Fixpoint value_nested_ind (v : value) : P v :=
  match v with
  | VUndef => Hundef
  | VNull => Hnull
  | VBool b => Hbool b
  | VNum n => Hnum n
  | VStr s => Hstr s
  | VDate ms => Hdate ms
  | VOid hex => Hoid hex
  | VArr items =>
      Harr items
        ((fix all (l : list value) : Forall P l :=
            match l with
            | [] => @List.Forall_nil _ P
            | x :: rest => @List.Forall_cons _ P x rest (value_nested_ind x) (all rest)
            end) items)
  | VObj fields =>
      Hobj fields
        ((fix all (l : list (string * value)) : Forall (fun kv => P (snd kv)) l :=
            match l with
            | [] => @List.Forall_nil _ _
            | kv :: rest =>
                @List.Forall_cons _ _ kv rest (value_nested_ind (snd kv)) (all rest)
            end) fields)
  | VNaN => Hnan
  end.

End ValueInduction.

(** ** Places around a change

    The vocabulary for following a path again after the array at a place
    has been extended. *)

Global Instance step_eq_dec : EqDecision step.
Proof. solve_decision. Defined.

(** [l] is a prefix of [q]: the place [q] lies at or below [l]. *)
Definition below (l q : place) : Prop := exists t, q = (l ++ t)%list.

(** What the steps of a path observe of two values is the same: they are
    objects with the same fields, arrays of the same length, or equal. *)
Definition similar (a b : value) : Prop :=
  match a, b with
  | VObj fa, VObj fb => forall k, obj_has fa k = obj_has fb k
  | VArr xa, VArr xb => List.length xa = List.length xb
  | _, _ => a = b
  end.

(** Every place of the reference has [n] steps. *)
Definition depth (r : ref) (n : nat) : Prop :=
  match r with
  | RAt p => List.length p = n
  | RFresh ls => ls <> [] /\ Forall (fun q => List.length q = n) ls
  | RNone => False
  end.

(** The places a step may look at: the target itself, or a place that is
    not below it. *)
Definition clear_of (l q : place) : Prop := q = l \/ ~ below l q.

(** ** Vocabulary of the statements *)

(** Every step of the path before the last reads an object, an array, a
    [Date] or an [ObjectId]: the walks of [$unset] and of
    [deleteNestedField] both reach the parent of the path. *)
Fixpoint reaches_parent (current : value) (parts : list string) : bool :=
  match parts with
  | [] | [_] => true
  | part :: rest =>
      is_objectlike (prop_get current part) &&
      reaches_parent (prop_get current part) rest
  end.

(** The path steps into arrays by position only and leaves no hole:
    wherever the walk from [current] stands on an array, the next part is
    an index in canonical form, at most the length of the array; and the
    walk never stands on a [Date] or an [ObjectId].  (A part of another
    form names a property of the array itself when it is written, and fans
    out over the elements when it is read.) *)
Definition index_step (current : value) (part : string) : bool :=
  match current with
  | VArr xs => is_index part && (N.to_nat (parseInt part) <=? List.length xs)%nat
  | VDate _ | VOid _ => false
  | _ => true
  end.

Fixpoint index_steps (current : value) (parts : list string) : bool :=
  match parts with
  | [] => true
  | part :: rest =>
      index_step current part && index_steps (prop_get current part) rest
  end.

(** The ids of a list of documents. *)
Definition ids_of (docs : list value) : list value :=
  List.map (fun d => prop_get d "_id") docs.

(** The state of an index scan: the ids seen are the ids of the documents
    gathered, each once. *)
Definition seen_once (acc : list string * list value) : Prop :=
  NoDup (fst acc) /\ ids_of (snd acc) = List.map VOid (rev (fst acc)).


(** The entry is an index entry that names the document [x]. *)
Definition names (e : kv_key * Kv.entry) (x : string) : Prop :=
  Kv.value_of (snd e) = VObj [("_id", VStr x)].



(** A boolean, a number or a string. *)
Definition is_scalar (v : value) : bool :=
  match v with
  | VBool _ | VNum _ | VStr _ => true
  | _ => false
  end.

(** Every document of the collection carries the id of its key. *)
Definition ids_agree (coll : string) (s : Kv.store) : bool :=
  forallb (fun entry =>
             match fst entry with
             | [_; KStr hex] =>
                 match reviveId (Kv.value_of (snd entry)) with
                 | Ok d =>
                     match prop_get d "_id" with
                     | VOid h => String.eqb h hex
                     | _ => false
                     end
                 | _ => true
                 end
             | _ => true
             end) (Kv.list_prefix s [KStr coll]).

(** The state of an index scan: the documents gathered include the document
    of every id seen. *)
Definition gathered (coll : string) (s : Kv.store)
    (acc : list string * list value) : Prop :=
  forall h d, includes (fst acc) h = true ->
              findById coll s h = Ok (Some d) -> In d (snd acc).

(** ** More example data *)

(** The [members] collection with an index on [status], and with a unique
    index on [email]. *)
Definition membersByStatus : Kv.store :=
  run (createIndex "members" (VStr "status") (VObj [])) members.

Definition membersUnique : Kv.store :=
  run (createIndex "members" (VStr "email") (VObj [("unique", VBool true)])) members.

Definition johnEmailEntry : kv_key * Kv.entry :=
  ([KStr "members"; KStr "__idx__"; KStr "email"; KStr "john@test.com"; KStr id1],
   Kv.mkEntry (VObj [("_id", VStr id1)]) 6).

(** The documents of [members], as a query returns them. *)
Definition storedMember (id name email status : string) (age : Z) : value :=
  VObj [("name", VStr name); ("age", VNum age); ("email", VStr email);
        ("status", VStr status); ("_id", VOid id)].

Definition johnStored : value :=
  storedMember id1 "John" "john@test.com" "active" 30.

Definition memberDocs : list value :=
  [johnStored;
   storedMember id2 "Jane" "jane@test.com" "active" 25;
   storedMember id3 "Bob" "bob@test.com" "inactive" 35;
   storedMember id4 "Alice" "alice@test.com" "active" 28].

(** Two documents inserted in one call. *)
Definition freshAB (i : nat) : string :=
  match i with O => idA | _ => idB end.

Definition usersMany : Kv.store :=
  run (insertMany "users" freshAB (VArr [alice; bob])) Kv.empty.

Definition bothInserted : InsertManyResult :=
  mkInsertManyResult 2 [VOid idA; VOid idB] false.

(** Two documents with equal object values in the field [pos]. *)
Definition origin : value := VObj [("pos", VObj [("x", VNum 0)])].

Definition points : Kv.store :=
  run (insertOne "points" idB origin) (run (insertOne "points" idA origin) Kv.empty).

Definition pointDocs : list value :=
  [VObj [("pos", VObj [("x", VNum 0)]); ("_id", VOid idA)];
   VObj [("pos", VObj [("x", VNum 0)]); ("_id", VOid idB)]].

(** * Properties *)

(** ** The repository's tests on the model *)

(** "exact match with single field index" *)
Example suite_exact_match :
  names_of (find "members"
              (run (createIndex "members" (VStr "status") (VObj [])) members)
              (VObj [("status", VStr "active")]) noOptions)
  = Some [VStr "John"; VStr "Jane"; VStr "Alice"].
Proof. vm_compute. reflexivity. Qed.

(** "range query with index": ages 25, 28 and 30 lie in [[25, 35)]. *)
Example suite_range_query :
  names_of (find "members"
              (run (createIndex "members" (VStr "age") (VObj [])) members)
              (VObj [("age", VObj [("$gte", VNum 25); ("$lt", VNum 35)])]) noOptions)
  = Some [VStr "Jane"; VStr "Alice"; VStr "John"].
Proof. vm_compute. reflexivity. Qed.

(** "compound index query" *)
Example suite_compound_index :
  fst (createIndex "members"
         (VObj [("key", VObj [("status", VNum 1); ("age", VNum 1)])]) (VObj [])
         members)
  = Ok "status_1_age_1" /\
  names_of (find "members"
              (run (createIndex "members"
                      (VObj [("key", VObj [("status", VNum 1); ("age", VNum 1)])])
                      (VObj [])) members)
              (VObj [("status", VStr "active"); ("age", VObj [("$gte", VNum 25)])])
              noOptions)
  = Some [VStr "John"; VStr "Jane"; VStr "Alice"].
Proof. split; vm_compute; reflexivity. Qed.

(** "unique index enforcement" and "index options validation" *)
Example suite_index_errors :
  fst (insertOne "members" idA (member "Jim" "john@test.com" "active" 40)
         (run (createIndex "members" (VStr "email") (VObj [("unique", VBool true)]))
            members))
  = Throw "Duplicate key error: email" /\
  fst (createIndex "members" (VStr "test") (VObj [("invalid", VBool true)]) members)
  = Throw "Invalid index options".
Proof. split; vm_compute; reflexivity. Qed.

(** "nested field updates", and the array pull of the specification's
    scenarios. *)
Example suite_updates :
  applyUpdateOperators (VObj [("_id", VOid id1); ("nested", VObj [("x", VNum 1)])])
    (VObj [("$set", VObj [("nested.y", VNum 2)]);
           ("$inc", VObj [("nested.x", VNum 1)])])
  = Ok (VObj [("_id", VOid id1); ("nested", VObj [("x", VNum 2); ("y", VNum 2)])]) /\
  applyUpdateOperators
    (VObj [("_id", VOid id1); ("t", VArr [VNum 1; VNum 2; VNum 3; VNum 2])])
    (VObj [("$pull", VObj [("t", VNum 2)])])
  = Ok (VObj [("_id", VOid id1); ("t", VArr [VNum 1; VNum 3])]).
Proof. split; vm_compute; reflexivity. Qed.

(** ** Facts about objects *)

Lemma obj_get_set_same fs k v : obj_get (obj_set fs k v) k = Some v.
Proof.
  induction fs as [|[k' v'] fs IH]; cbn.
  - by rewrite String.eqb_refl.
  - destruct (String.eqb k' k) eqn:Hk; cbn.
    + by rewrite String.eqb_refl.
    + by rewrite Hk.
Qed.

Lemma obj_set_set fs k v v' : obj_set (obj_set fs k v) k v' = obj_set fs k v'.
Proof.
  induction fs as [|[k' w] fs IH]; cbn.
  - by rewrite String.eqb_refl.
  - destruct (String.eqb k' k) eqn:Hk; cbn.
    + by rewrite String.eqb_refl.
    + by rewrite Hk, IH.
Qed.

(** ** Facts about the store *)

(** A computation returns its result together with the store [run] gives. *)
Lemma with_run {A} (m : M A) (s : Kv.store) (a : outcome A) :
  fst (m s) = a -> m s = (a, run m s).
Proof. unfold run. intros <-. by destruct (m s). Qed.

Section StoreFacts.

Implicit Types (s : Kv.store) (key k : kv_key) (v : value).

Lemma get_set_same checks key v s :
  forallb (Kv.check_holds s) checks = true ->
  Kv.get (snd (Kv.atomic checks [Kv.Set_ key v] s)) key
  = Some (Kv.mkEntry v (N.succ (Kv.clock s))).
Proof.
  intros Hc. unfold Kv.atomic. rewrite Hc. cbn.
  unfold Kv.get. cbn. apply lookup_insert_eq.
Qed.

Lemma get_set_other checks key v s k :
  k <> key ->
  Kv.get (snd (Kv.atomic checks [Kv.Set_ key v] s)) k = Kv.get s k.
Proof.
  intros Hne. unfold Kv.atomic.
  destruct (forallb (Kv.check_holds s) checks); cbn; [|reflexivity].
  unfold Kv.get. cbn. by apply lookup_insert_ne.
Qed.

Lemma get_delete_same checks key s :
  forallb (Kv.check_holds s) checks = true ->
  Kv.get (snd (Kv.atomic checks [Kv.Delete key] s)) key = None.
Proof.
  intros Hc. unfold Kv.atomic. rewrite Hc. cbn.
  unfold Kv.get. cbn. apply lookup_delete_eq.
Qed.

Lemma get_delete_other checks key s k :
  k <> key ->
  Kv.get (snd (Kv.atomic checks [Kv.Delete key] s)) k = Kv.get s k.
Proof.
  intros Hne. unfold Kv.atomic.
  destruct (forallb (Kv.check_holds s) checks); cbn; [|reflexivity].
  unfold Kv.get. cbn. by apply lookup_delete_ne.
Qed.

(** A check against the versionstamp just read holds. *)
Lemma check_holds_current s key :
  Kv.check_holds s (key, Kv.versionstamp <$> Kv.get s key) = true.
Proof. unfold Kv.check_holds. cbn. by apply bool_decide_eq_true. Qed.


(** What a prefix scan delivers. *)
Lemma elem_of_list_prefix s prefix k (e : Kv.entry) :
  In (k, e) (Kv.list_prefix s prefix) <->
  Kv.get s k = Some e /\ Kv.has_prefix prefix k = true.
Proof.
  unfold Kv.list_prefix, Kv.get.
  rewrite <- list_elem_of_In, merge_sort_Permutation, list_elem_of_In.
  rewrite filter_In. cbn.
  rewrite <- list_elem_of_In, elem_of_map_to_list. reflexivity.
Qed.

Lemma has_prefix_one (c : key_part) (k : kv_key) :
  Kv.has_prefix [c] k = true <->
  exists x rest, k = c :: x :: rest.
Proof.
  destruct k as [|c' [|x rest]]; cbn.
  - split; [discriminate | intros (? & ? & ?); discriminate].
  - rewrite andb_false_r. split; [discriminate | intros (? & ? & ?); discriminate].
  - rewrite andb_true_r. rewrite bool_decide_eq_true.
    split; [intros ->; eauto | intros (? & ? & [= -> _ _]); reflexivity].
Qed.

End StoreFacts.

(** ** The places [getNestedRef] finds hold what [getNestedValue] returns *)

Section Places.

Variable doc : value.

Lemma read_at_undef (l : place) : read_at VUndef l = VUndef.
Proof. destruct l as [|[k|i] l]; reflexivity. Qed.

Lemma read_at_app (l l' : place) (v : value) :
  read_at v (l ++ l') = read_at (read_at v l) l'.
Proof.
  revert v. induction l as [|[k|i] l IH]; intros v; cbn; [reflexivity| |].
  - destruct v as [| | | | | | |xs|fs|]; try (symmetry; apply read_at_undef).
    destruct (obj_get fs k); [apply IH | symmetry; apply read_at_undef].
  - destruct v as [| | | | | | |xs|fs|]; try (symmetry; apply read_at_undef).
    destruct (nth_error xs i); [apply IH | symmetry; apply read_at_undef].
Qed.

Lemma read_field (l : place) (part : string) :
  all_digits part = false ->
  read_at doc (l ++ [SField part]) = prop_get (read_at doc l) part.
Proof.
  intros Hd. rewrite read_at_app. cbn.
  destruct (read_at doc l); cbn; try reflexivity.
  unfold is_index. by rewrite Hd.
Qed.

Lemma read_elements (l : place) (xs : list value) :
  read_at doc l = VArr xs ->
  List.map (read_at doc) (List.map (fun i => (l ++ [SIndex i])%list) (seq 0 (List.length xs)))
  = xs.
Proof.
  intros Hl. rewrite List.map_map.
  transitivity (List.map (fun i => nth i xs VUndef) (seq 0 (List.length xs))).
  - apply List.map_ext_in. intros i Hi. apply in_seq in Hi.
    rewrite read_at_app, Hl. cbn.
    destruct (nth_error xs i) eqn:Hn.
    + symmetry. by apply nth_error_nth.
    + apply nth_error_None in Hn. lia.
  - clear Hl. induction xs as [|x xs IH]; [reflexivity|].
    cbn [List.length seq List.map nth]. f_equal.
    rewrite <- seq_shift, List.map_map. exact IH.
Qed.

Lemma existsb_over_map {A B} (f : B -> bool) (g : A -> B) (l : list A) :
  existsb f (List.map g l) = existsb (fun x => f (g x)) l.
Proof. induction l as [|x l IH]; cbn; [reflexivity | by rewrite IH]. Qed.

Lemma refStepArray_agrees (self : ref) (elems : list place) (part : string) :
  deref doc self = VArr (List.map (read_at doc) elems) ->
  deref doc (refStepArray doc self elems part)
  = getNestedStep (VArr (List.map (read_at doc) elems)) part.
Proof.
  intros Hself. unfold refStepArray, getNestedStep.
  destruct (String.eqb part "$" || String.eqb part EmptyString); [assumption|].
  destruct (all_digits part) eqn:Hd.
  - rewrite length_map.
    destruct (parseInt part <? N.of_nat (List.length elems))%N eqn:Hlt; [|reflexivity].
    destruct (nth_error elems (N.to_nat (parseInt part))) as [l|] eqn:Hn; cbn.
    + symmetry. apply nth_error_nth. by rewrite nth_error_map, Hn.
    + apply nth_error_None in Hn. apply N.ltb_lt in Hlt. lia.
  - rewrite existsb_over_map.
    destruct (existsb _ elems); [|reflexivity].
    set (found := List.filter _ (List.map _ (List.filter _ elems))).
    set (values := List.filter _ (List.map _ (List.filter _ (List.map _ elems)))).
    assert (Hv : List.map (read_at doc) found = values).
    { subst found values. clear Hself.
      induction elems as [|l ls IH]; [reflexivity|].
      cbn [List.map List.filter].
      destruct (is_objectlike (read_at doc l)); [|exact IH].
      cbn [List.map List.filter]. rewrite (read_field _ _ Hd).
      destruct (negb (is_undef (prop_get (read_at doc l) part))) eqn:Hu;
        cbn [List.map]; [rewrite (read_field _ _ Hd)|]; by rewrite IH. }
    rewrite <- Hv. by destruct found.
Qed.

Lemma refStep_agrees (r : ref) (part : string) :
  deref doc (refStep doc r part) = getNestedStep (deref doc r) part.
Proof.
  destruct r as [l|ls|]; cbn [refStep deref]; [| |reflexivity].
  - destruct (read_at doc l) as [| | | | | | |xs|fs|] eqn:Hl; try reflexivity;
      try (unfold getNestedStep, is_objectlike; cbn;
           rewrite andb_false_r; reflexivity).
    + rewrite <- (read_elements l xs Hl) at 2.
      apply refStepArray_agrees. cbn. by rewrite Hl, read_elements.
    + cbn. unfold obj_has.
      destruct (obj_get fs part) eqn:Hg; cbn; [|reflexivity].
      rewrite read_at_app, Hl. cbn. by rewrite Hg.
  - by apply refStepArray_agrees.
Qed.

Lemma getNestedRef_agrees (path : string) :
  deref doc (getNestedRef doc path) = getNestedValue doc path.
Proof.
  unfold getNestedRef, getNestedValue.
  destruct (negb (truthy doc)); [reflexivity|].
  change doc with (deref doc (RAt [])) at 3.
  generalize (RAt []). induction (split_dot path) as [|part parts IH]; intros r.
  - reflexivity.
  - cbn [fold_left]. by rewrite IH, refStep_agrees.
Qed.

End Places.



Lemma getKvKey_length coll id key :
  getKvKey coll id = Ok key -> List.length key = 2%nat.
Proof.
  unfold getKvKey. destruct (idToString id); cbn; [|discriminate..].
  by intros [= <-].
Qed.

(** ** Index entries written by [insertOne] *)

Section InsertIndexes.

Variable coll : string.
Variable idStr : string.

Lemma bind_Ok {A B} (m : M A) (f : A -> M B) s r s' :
  bind m f s = (Ok r, s') ->
  exists a s1, m s = (Ok a, s1) /\ f a s1 = (Ok r, s').
Proof.
  unfold bind. destruct (m s) as [[a| |] s1]; try discriminate. eauto.
Qed.

Lemma reading_Ok {A} (f : Kv.store -> outcome A) s a s1 :
  reading f s = (Ok a, s1) -> f s = Ok a /\ s1 = s.
Proof. unfold reading. by intros [= -> ->]. Qed.

(** A commit that returns has written values the store keeps as they are. *)
Lemma commit_Ok checks ms s ok s' :
  commit checks ms s = (Ok ok, s') ->
  forallb Kv.storable_mutation ms = true /\ Kv.atomic checks ms s = (ok, s').
Proof.
  unfold commit. destruct (forallb _ ms); [|discriminate].
  destruct (Kv.atomic checks ms s) as [ok' s1]. by intros [= -> ->].
Qed.

Lemma commit_storable checks ms s :
  forallb Kv.storable_mutation ms = true ->
  commit checks ms s = (Ok (fst (Kv.atomic checks ms s)), snd (Kv.atomic checks ms s)).
Proof.
  intros H. unfold commit. rewrite H. by destruct (Kv.atomic checks ms s).
Qed.

(** A commit changes the store through [Kv.atomic] or not at all. *)
Lemma commit_store {A} checks ms s (P : Kv.store -> A) :
  P (snd (commit checks ms s)) = P (snd (Kv.atomic checks ms s)) \/
  P (snd (commit checks ms s)) = P s.
Proof.
  unfold commit. destruct (forallb _ ms); [left|right; reflexivity].
  by destruct (Kv.atomic checks ms s).
Qed.

Lemma forM_preserves {A} (f : A -> M unit) (P : Kv.store -> Prop) :
  (forall x s s', f x s = (Ok tt, s') -> P s -> P s') ->
  forall l s s', forM l f s = (Ok tt, s') -> P s -> P s'.
Proof.
  intros Hstep l. induction l as [|x l IH]; intros s s' Hrun Hs; cbn in Hrun.
  - by injection Hrun as <-.
  - apply bind_Ok in Hrun as ([] & s1 & Hx & Hrest). eauto.
Qed.

Lemma forM_establishes {A} (f : A -> M unit) (Q : A -> Kv.store -> Prop) :
  (forall x s s', f x s = (Ok tt, s') -> Q x s') ->
  (forall x y s s', f x s = (Ok tt, s') -> Q y s -> Q y s') ->
  forall l s s', forM l f s = (Ok tt, s') -> forall x, In x l -> Q x s'.
Proof.
  intros Hest Hstable l. induction l as [|x l IH]; intros s s' Hrun y Hin;
    [destruct Hin|].
  cbn in Hrun. apply bind_Ok in Hrun as ([] & s1 & Hx & Hrest).
  destruct Hin as [<- | Hin]; [|eauto].
  apply (forM_preserves f (Q x) (fun z t t' Hz => Hstable z x t t' Hz)
           l s1 s' Hrest).
  eauto.
Qed.

(** Writing an entry [{ _id: idStr }] keeps every such entry in place. *)
Lemma names_after_write key k s :
  names_document s key idStr ->
  names_document (snd (Kv.atomic [] [Kv.Set_ k (VObj [("_id", VStr idStr)])] s))
    key idStr.
Proof.
  unfold names_document. intros Hkey.
  destruct (decide (key = k)) as [->|Hne].
  - by rewrite get_set_same.
  - by rewrite get_set_other.
Qed.

Lemma indexOneField_writes doc options field s s' :
  idToString (prop_get doc "_id") = Ok idStr ->
  indexOneField coll doc options field s = (Ok tt, s') ->
  s' = snd (Kv.atomic []
              [Kv.Set_ (indexEntryKey coll field
                          (serializeIndexValue (getNestedValue doc field)) idStr)
                 (VObj [("_id", VStr idStr)])] s).
Proof.
  intros Hid. unfold indexOneField, bind, reading, commit, ret. rewrite Hid.
  destruct (optionUnique options) as [[|]| |]; try discriminate.
  - destruct (checkUnique _ _ _); try discriminate.
    destruct (Kv.atomic _ _ s). cbn. by intros [= <-].
  - destruct (Kv.atomic _ _ s). cbn. by intros [= <-].
Qed.

Lemma updateIndexEntry_writes doc spec options s s' fields field :
  idToString (prop_get doc "_id") = Ok idStr ->
  updateIndexEntry coll doc spec options s = (Ok tt, s') ->
  specFields spec = Ok fields -> In field fields ->
  names_document s'
    (indexEntryKey coll field (serializeIndexValue (getNestedValue doc field)) idStr)
    idStr.
Proof.
  intros Hid Hrun Hfields. unfold updateIndexEntry in Hrun.
  apply bind_Ok in Hrun as (fields' & s1 & Hf & Hrun).
  apply reading_Ok in Hf as [Hf ->]. rewrite Hfields in Hf. injection Hf as <-.
  revert field.
  apply (forM_establishes (indexOneField coll doc options)
           (fun field t =>
              names_document t
                (indexEntryKey coll field
                   (serializeIndexValue (getNestedValue doc field)) idStr) idStr))
    with (s := s); [| |assumption].
  - intros field t t' Hstep. rewrite (indexOneField_writes _ _ _ _ _ Hid Hstep).
    unfold names_document. by rewrite get_set_same.
  - intros x y t t' Hstep. rewrite (indexOneField_writes _ _ _ _ _ Hid Hstep).
    apply names_after_write.
Qed.





End InsertIndexes.


(** ** Index maintenance on writes *)


(** [deleteOne] and [updateOne] write nothing but the primary entry of the
    document: a key that is not a two-part document key holds after them
    what it held before. *)
Lemma commit_frame checks m s k :
  match m with Kv.Set_ key _ | Kv.Delete key => k <> key end ->
  Kv.get (snd (commit checks [m] s)) k = Kv.get s k.
Proof.
  intros Hne. destruct (commit_store checks [m] s (fun t => Kv.get t k)) as [-> | ->];
    [|reflexivity].
  destruct m; [by apply get_set_other | by apply get_delete_other].
Qed.

Lemma commit_frame_eq checks m s k (o : outcome bool) s' :
  commit checks [m] s = (o, s') ->
  match m with Kv.Set_ key _ | Kv.Delete key => k <> key end ->
  Kv.get s' k = Kv.get s k.
Proof.
  intros Hc Hne. change s' with (snd (o, s')). rewrite <- Hc.
  by apply commit_frame.
Qed.




(** ** Dropping an index *)

(** C6 (as stated, refuted): after [dropIndex("age_1")] the metadata entry
    is gone, and the index entry written for a document under
    [("users", "__idx__", "age", ...)] is still in the store. *)
Lemma dropIndex_keeps_index_entries :
  Kv.get (run (dropIndex "users" "age_1") users2)
    [KStr "__indexes__"; KStr "users"; KStr "age_1"] = None /\
  Kv.value_of <$> Kv.get (run (dropIndex "users" "age_1") users2) aliceIndexKey
    = Some (VObj [("_id", VStr idA)]).
Proof. split; vm_compute; reflexivity. Qed.

(** C6 (amended): [dropIndex(name)] deletes the metadata entry
    [("__indexes__", collection, name)] and nothing else: every other key,
    index entries included, keeps its value. *)
Theorem dropIndex_deletes_only_metadata
    (coll name : string) (s : Kv.store) (k : kv_key) :
  fst (dropIndex coll name s) = Ok tt /\
  Kv.get (run (dropIndex coll name) s) k =
    if decide (k = [KStr "__indexes__"; KStr coll; KStr name]) then None
    else Kv.get s k.
Proof.
  split; [reflexivity|].
  unfold run, dropIndex, Kv.delete, indexPrefix. cbn [snd app].
  destruct (decide _) as [->|Hne].
  - by apply get_delete_same.
  - by apply get_delete_other.
Qed.

(** ** Counting *)

(** C9: with an index declared on [age] and two documents inserted,
    [estimatedDocumentCount] returns 4 (it counts the two index entries
    under the collection prefix as well), while [countDocuments({})]
    returns 2. *)
Theorem estimatedDocumentCount_counts_index_entries :
  estimatedDocumentCount "users" users2 = 4%nat /\
  countDocuments "users" users2 (VObj []) None None = Ok 2.
Proof. split; vm_compute; reflexivity. Qed.

(** ** Looking a document up by id *)

(** A stored document comes back with its id string turned into an
    [ObjectId]. *)
Lemma reviveId_stored (stored : list (string * value)) (idStr : string) :
  obj_get stored "_id" = Some (VStr idStr) ->
  is_hex24 idStr = true ->
  reviveId (VObj stored)
  = Ok (VObj (obj_set stored "_id" (VOid (string_map lower_hex idStr)))).
Proof.
  intros Hid Hhex. unfold reviveId, prop_get. rewrite Hid. cbn. by rewrite Hhex.
Qed.

(** C10: when the filter's [_id] is an [ObjectId], [findOne] answers from
    the entry stored under that id alone: [null] when there is none, the
    stored document (its id revived) when there is one, whatever the other
    entries of the filter are. *)
Theorem findOne_by_id_ignores_other_conditions
    (coll : string) (s : Kv.store) (fs : list (string * value)) (hex : string)
    (options : FindOptions) :
  obj_get fs "_id" = Some (VOid hex) ->
  (Kv.get s [KStr coll; KStr hex] = None ->
   findOne coll s (VObj fs) options = Ok None) /\
  (forall e stored idStr,
     Kv.get s [KStr coll; KStr hex] = Some e ->
     Kv.value_of e = VObj stored ->
     obj_get stored "_id" = Some (VStr idStr) ->
     is_hex24 idStr = true ->
     findOne coll s (VObj fs) options
     = Ok (Some (VObj (obj_set stored "_id" (VOid (string_map lower_hex idStr)))))).
Proof.
  intros Hid. unfold findOne. rewrite Hid. unfold findById. split.
  - by intros ->.
  - intros e stored idStr -> Hv Hs Hhex. rewrite Hv. cbn [truthy negb].
    by rewrite (reviveId_stored _ _ Hs Hhex).
Qed.

(** The example of C10: the document under [idA] has name ["A"], the
    filter asks for name ["y"], and [findOne] still returns the document. *)
Lemma findOne_by_id_ignores_other_conditions_witness :
  matchesFilter (VObj [("_id", VOid idA); ("name", VStr "y")]) aliceStored = false /\
  findOne "users" users2 (VObj [("_id", VOid idA); ("name", VStr "y")]) noOptions
  = Ok (Some aliceStored).
Proof.
  split; [reflexivity|].
  refine (proj2 (findOne_by_id_ignores_other_conditions "users" users2
                   [("_id", VOid idA); ("name", VStr "y")] idA noOptions _)
            (Kv.mkEntry (VObj (obj_set (entries_of alice) "_id" (VStr idA))) 3)
            (obj_set (entries_of alice) "_id" (VStr idA)) idA _ _ _ _);
    vm_compute; reflexivity.
Defined.

(** ** The update engine *)

(** C3: the path ["a.y"] does not resolve in [{ _id, y: 1 }] (there is no
    field [a]), yet [$unset] of it removes the top-level field [y]: the walk
    stops at the missing step and the last part of the path is deleted from
    the object it stopped at.  [deleteNestedField], the helper written for
    the same job, leaves the document unchanged. *)
Theorem unset_past_missing_step_deletes_sibling :
  getNestedValue withSibling "a.y" = VUndef /\
  applyUpdateOperators withSibling (VObj [("$unset", VObj [("a.y", VBool true)])])
    = Ok (VObj [("_id", VOid idA)]) /\
  deleteNestedField withSibling "a.y" = Ok withSibling.
Proof. repeat split; vm_compute; reflexivity. Qed.

(** C5: [$push] with the operand [{ $each: [] }] appends the operand itself:
    an existing array [["a"]] becomes [["a", { $each: [] }]], and an absent
    path receives the one-element array [[{ $each: [] }]]. *)
Theorem push_each_appends_the_operand :
  applyUpdateOperators (VObj [("_id", VOid idA); ("tags", VArr [VStr "a"])])
    (VObj [("$push", VObj [("tags", eachNothing)])])
  = Ok (VObj [("_id", VOid idA); ("tags", VArr [VStr "a"; eachNothing])]) /\
  applyUpdateOperators (VObj [("_id", VOid idA)])
    (VObj [("$push", VObj [("tags", eachNothing)])])
  = Ok (VObj [("_id", VOid idA); ("tags", VArr [eachNothing])]).
Proof. split; vm_compute; reflexivity. Qed.

(** ** Projection *)

(** C8: [_id] survives a projection that excludes it.  With
    [{ name: 1, _id: 0 }] both [applyProjection] and [Cursor.project] return
    [{ _id, name }]; with [{ _id: 0 }] alone [applyProjection] returns the
    whole document, [_id] included, and [Cursor.project] returns [{ _id }]
    only.  Mixing 1 and 0 on other fields is rejected by both. *)
Theorem projection_excluding_id_keeps_id :
  applyProjection person (Some [("name", VNum 1); ("_id", VNum 0)])
    = Ok (VObj [("_id", VOid idA); ("name", VStr "A")]) /\
  Cursor.project [("name", VNum 1); ("_id", VNum 0)] [person]
    = Ok [VObj [("_id", VOid idA); ("name", VStr "A")]] /\
  applyProjection person (Some [("_id", VNum 0)]) = Ok person /\
  Cursor.project [("_id", VNum 0)] [person] = Ok [VObj [("_id", VOid idA)]] /\
  applyProjection person (Some [("name", VNum 1); ("age", VNum 0)])
    = Throw "Projection cannot have a mix of inclusion and exclusion" /\
  Cursor.project [("name", VNum 1); ("age", VNum 0)] [person]
    = Throw "Projection cannot have a mix of inclusion and exclusion.".
Proof. repeat split; vm_compute; reflexivity. Qed.

(** ** Ordered operators *)

(** C4 (as stated, refuted): a number field matches an ordered predicate
    whose operand is a string, and a date field one whose operand is a
    number: [10 > "5"], [10 >= "5"], [3 < "5"], [3 <= "5"], [1 < "1.5"] and
    [Date(5) < 10] all hold for the host. *)
Lemma ordered_operators_across_kinds_match :
  matchesCondition (VNum 10) (VObj [("$gt", VStr "5")]) = true /\
  matchesCondition (VNum 10) (VObj [("$gte", VStr "5")]) = true /\
  matchesCondition (VNum 3) (VObj [("$lt", VStr "5")]) = true /\
  matchesCondition (VNum 3) (VObj [("$lte", VStr "5")]) = true /\
  matchesCondition (VNum 1) (VObj [("$lt", VStr "1.5")]) = true /\
  matchesCondition (VDate 5) (VObj [("$lt", VNum 10)]) = true /\
  matchesFilter (VObj [("age", VObj [("$gt", VStr "5")])])
    (VObj [("_id", VOid idA); ("age", VNum 10)]) = true.
Proof. repeat split; vm_compute; reflexivity. Qed.

Lemma xnum_lt_integers (a b : Z) :
  xnum_lt (XFin a 0) (XFin b 0) = Some (a <? b).
Proof. cbn. by rewrite !Z.mul_1_r. Qed.

Lemma prim_lt_integers (a b : Z) : prim_lt (PNum a) (PNum b) = Some (a <? b).
Proof. apply xnum_lt_integers. Qed.

(** C4 (amended): on a field value that is not an array (the elements of
    an array are tried one by one), an ordered operator is false as soon as
    the field value or the operand is not a number, a string or a date;
    when both are, it is the host's relational operator on the two, whether
    or not they are of the same kind: two strings are compared as strings,
    any other pair as numbers, a date counting as its time and a string as
    the number its text denotes.  Integers and times compare by their
    order, strings by their code units, and [NaN], also as the reading of
    a string, compares false. *)
Theorem ordered_operators_guard_each_operand
    (op : string) (value val : value) :
  In op orderedOps ->
  isArray value = false ->
  matchesCondition value (VObj [(op, val)]) =
    (if isComparable value && isComparable val
     then compare_with (ordered_relation op) value val
     else false) /\
  (forall a b,
     to_prim value = Some (PNum a) -> to_prim val = Some (PNum b) ->
     matchesCondition value (VObj [(op, val)]) = integer_order op a b) /\
  (forall a b,
     value = VStr a -> val = VStr b ->
     matchesCondition value (VObj [(op, val)]) = string_order op a b) /\
  (forall p q,
     to_prim value = Some p -> to_prim val = Some q ->
     prim_to_number p = XNaN \/ prim_to_number q = XNaN ->
     (forall a b, p = PStr a -> q = PStr b -> False) ->
     matchesCondition value (VObj [(op, val)]) = false).
Proof.
  intros Hop Harr.
  assert (Hop' : forall rec,
             matchesOperator rec op val value =
               if isComparable value && isComparable val
               then compare_with (ordered_relation op) value val
               else false).
  { intros rec. cbn in Hop.
    destruct Hop as [<- | [<- | [<- | [<- | []]]]];
      unfold matchesOperator, ordered_relation;
      cbn [String.eqb Ascii.eqb Bool.eqb];
      destruct (isComparable value), (isComparable val); reflexivity. }
  assert (Hcond : matchesCondition value (VObj [(op, val)]) =
                    (if isComparable value && isComparable val
                     then compare_with (ordered_relation op) value val
                     else false)).
  { unfold matchesCondition.
    destruct value; try discriminate Harr;
      cbn [matchesAnyElement matchesConditionRest is_objectlike truthy typeof
           jstype_eqb andb forallb fst snd];
      rewrite Hop', andb_true_r; reflexivity. }
  assert (Hcomparable : forall v p, to_prim v = Some p -> isComparable v = true).
  { intros v p. destruct v; cbn; congruence. }
  split; [exact Hcond|]. split.
  - intros a b Ha Hb. rewrite Hcond, (Hcomparable _ _ Ha), (Hcomparable _ _ Hb).
    unfold compare_with. rewrite Ha, Hb. cbn [andb].
    cbn in Hop. destruct Hop as [<- | [<- | [<- | [<- | []]]]];
      unfold ordered_relation, integer_order, js_gt, js_ge, js_lt, js_le;
      cbn [String.eqb Ascii.eqb Bool.eqb]; rewrite prim_lt_integers;
      try reflexivity.
    + rewrite Z.leb_antisym. reflexivity.
    + rewrite Z.leb_antisym. reflexivity.
  - split.
    { intros a b -> ->. rewrite Hcond. cbn [isComparable andb].
      unfold compare_with. cbn [to_prim].
      cbn in Hop. destruct Hop as [<- | [<- | [<- | [<- | []]]]];
        unfold ordered_relation, string_order, js_gt, js_ge, js_lt, js_le, prim_lt;
        cbn [String.eqb Ascii.eqb Bool.eqb]; reflexivity. }
    intros p q Hp Hq Hnan Hstr.
    rewrite Hcond, (Hcomparable _ _ Hp), (Hcomparable _ _ Hq).
    unfold compare_with. rewrite Hp, Hq. cbn [andb].
    assert (Hnum : forall x y,
               prim_to_number x = XNaN \/ prim_to_number y = XNaN ->
               xnum_lt (prim_to_number x) (prim_to_number y) = None).
    { intros x y [H | H]; rewrite H; [reflexivity|].
      by destruct (prim_to_number x). }
    assert (Hlt : prim_lt p q = None /\ prim_lt q p = None).
    { destruct p as [a| |a], q as [b| |b];
        try (exfalso; by eapply Hstr);
        unfold prim_lt; cbv beta iota; split; apply Hnum; tauto. }
    destruct Hlt as [H1 H2].
    cbn in Hop. destruct Hop as [<- | [<- | [<- | [<- | []]]]];
      unfold ordered_relation, js_gt, js_ge, js_lt, js_le;
      cbn [String.eqb Ascii.eqb Bool.eqb]; rewrite ?H1, ?H2; reflexivity.
Qed.

(** A boolean field against a number, a number field against null, a
    number field against strings that read as numbers, a date against a
    number, two strings, and a number field against a string that reads as
    no number. *)
Lemma ordered_operators_guard_each_operand_witness :
  matchesCondition (VBool true) (VObj [("$gt", VNum 0)]) = false /\
  matchesCondition (VNum 3) (VObj [("$lte", VNull)]) = false /\
  matchesCondition (VNum 10) (VObj [("$gt", VStr "5")]) = true /\
  matchesCondition (VNum 1) (VObj [("$lt", VStr "1.5")]) = true /\
  matchesCondition (VNum 1000) (VObj [("$gte", VStr "1e3")]) = true /\
  matchesCondition (VDate 5) (VObj [("$lt", VNum 10)]) = true /\
  matchesCondition (VStr "10") (VObj [("$lt", VStr "9")]) = true /\
  matchesCondition (VNum 17) (VObj [("$gte", VStr "abc")]) = false.
Proof.
  repeat apply conj.
  - apply (ordered_operators_guard_each_operand "$gt" (VBool true) (VNum 0));
      [left; reflexivity | reflexivity].
  - apply (ordered_operators_guard_each_operand "$lte" (VNum 3) VNull);
      [do 3 right; left; reflexivity | reflexivity].
  - apply (ordered_operators_guard_each_operand "$gt" (VNum 10) (VStr "5"));
      [left; reflexivity | reflexivity].
  - apply (ordered_operators_guard_each_operand "$lt" (VNum 1) (VStr "1.5"));
      [do 2 right; left; reflexivity | reflexivity].
  - apply (ordered_operators_guard_each_operand "$gte" (VNum 1000) (VStr "1e3"));
      [right; left; reflexivity | reflexivity].
  - refine (proj1 (proj2 (ordered_operators_guard_each_operand "$lt" (VDate 5)
                            (VNum 10) _ _)) 5 10 _ _);
      [do 2 right; left; reflexivity | reflexivity..].
  - refine (proj1 (proj2 (proj2 (ordered_operators_guard_each_operand "$lt"
                                   (VStr "10") (VStr "9") _ _))) "10" "9" _ _);
      [do 2 right; left; reflexivity | reflexivity..].
  - refine (proj2 (proj2 (proj2 (ordered_operators_guard_each_operand "$gte" (VNum 17)
                                   (VStr "abc") _ _))) (PNum 17) (PStr "abc") _ _ _ _);
      [right; left; reflexivity | reflexivity | reflexivity | reflexivity
      | right; reflexivity | discriminate].
Defined.

(** ** Index-backed plans and the full scan *)

(** C2 (as stated, refuted): the filter [{ age: { $gt: 5 } }] matches the
    document with age 10 and the full scan returns it, but the plan over the
    index on [age] returns nothing: the range scan compares the strings
    ["10"] and ["5"]. *)
Lemma index_range_plan_misses_matching_document :
  matchesFilter olderThanFive aliceStored = true /\
  findWithoutIndex "users" users2 olderThanFive noOptions = Ok [aliceStored] /\
  findUsableIndex "users" users2 olderThanFive = Ok (Some ageIndexInfo) /\
  findUsingIndex "users" users2 ageIndexInfo olderThanFive noOptions = Ok [] /\
  find "users" users2 olderThanFive noOptions = Ok [].
Proof. repeat split; vm_compute; reflexivity. Qed.

Section PlanSoundness.

Variable coll : string.
Variable s : Kv.store.
Variable filter : value.

Lemma foldO_invariant {A B} (I : B -> Prop) (f : B -> A -> outcome B) :
  (forall acc x acc', I acc -> f acc x = Ok acc' -> I acc') ->
  forall l acc r, I acc -> foldO f l acc = Ok r -> I r.
Proof.
  intros Hstep l. induction l as [|x l IH]; intros acc r Hacc Hfold; cbn in Hfold.
  - by injection Hfold as <-.
  - destruct (f acc x) as [acc'| |] eqn:Hf; cbn in Hfold; try discriminate.
    eauto.
Qed.

Lemma findById_Some hex doc :
  findById coll s hex = Ok (Some doc) ->
  exists e, In ([KStr coll; KStr hex], e) (Kv.list_prefix s [KStr coll]) /\
            reviveId (Kv.value_of e) = Ok doc.
Proof.
  unfold findById. destruct (Kv.get s _) as [e|] eqn:Hget; [|discriminate].
  destruct (negb _); [discriminate|].
  destruct (reviveId _) as [d| |] eqn:Hrev; cbn; try discriminate.
  intros [= <-]. exists e. split; [|assumption].
  apply elem_of_list_prefix. split; [assumption|].
  cbn. rewrite bool_decide_eq_true_2; reflexivity.
Qed.

Lemma addUniqueDoc_snd doc acc acc' :
  addUniqueDoc doc acc = Ok acc' ->
  snd acc' = snd acc \/ snd acc' = (snd acc ++ [doc])%list.
Proof.
  unfold addUniqueDoc. destruct (idToString _); cbn; try discriminate.
  destruct (includes _ _); intros [= <-]; cbn; auto.
Qed.

Lemma collectCandidate_sound acc entry acc' :
  Forall (stored_match coll s filter) (snd acc) ->
  collectCandidate coll s filter acc entry = Ok acc' ->
  Forall (stored_match coll s filter) (snd acc').
Proof.
  intros Hacc. unfold collectCandidate.
  destruct (entryId entry); cbn; try discriminate.
  destruct (newObjectId _); cbn; try discriminate.
  destruct (idToString _) as [hex| |]; cbn; try discriminate.
  destruct (findById coll s hex) as [[doc|]| |] eqn:Hfind; cbn; try discriminate.
  - destruct (matchesFilter filter doc) eqn:Hm.
    + intros Hadd. apply addUniqueDoc_snd in Hadd as [-> | ->]; [assumption|].
      apply Forall_app. split; [assumption|].
      constructor; [|constructor].
      split; [assumption|]. apply findById_Some in Hfind as (e & ? & ?).
      exists [KStr coll; KStr hex], e. auto.
    + by intros [= <-].
  - by intros [= <-].
Qed.

Lemma findWithoutIndex_unfold :
  findWithoutIndex coll s filter noOptions
  = foldO (scanStep filter) (Kv.list_prefix s [KStr coll]) [].
Proof.
  unfold findWithoutIndex.
  destruct (foldO (scanStep filter) _ _); reflexivity.
Qed.

Lemma scan_complete l :
  forall acc r,
    foldO (scanStep filter) l acc = Ok r ->
    (forall d, In d acc -> In d r) /\
    (forall entry doc,
       In entry l -> List.length (fst entry) = 2%nat ->
       reviveId (Kv.value_of (snd entry)) = Ok doc ->
       matchesFilter filter doc = true -> In doc r).
Proof.
  induction l as [|x l IH]; intros acc r Hfold; cbn in Hfold.
  - injection Hfold as <-. split; [auto | intros ? ? []].
  - destruct ((scanStep filter) acc x) as [acc'| |] eqn:Hstep; cbn in Hfold; try discriminate.
    destruct (IH _ _ Hfold) as [Hmono Hall].
    assert (Hacc : forall d, In d acc -> In d acc').
    { unfold scanStep in Hstep. destruct (negb _); [by injection Hstep as <-|].
      destruct (reviveId _); cbn in Hstep; try discriminate.
      destruct (matchesFilter _ _); injection Hstep as <-; [|auto].
      intros d Hd. apply in_or_app. auto. }
    split; [auto|].
    intros entry doc [<- | Hin] Hlen Hrev Hm; [|eauto].
    apply Hmono. unfold scanStep in Hstep.
    rewrite Hlen, Hrev in Hstep. cbn in Hstep. rewrite Hm in Hstep.
    injection Hstep as <-. apply in_or_app. right. by left.
Qed.

Lemma scan_sound l :
  forall acc r,
    (forall x, In x l -> In x (Kv.list_prefix s [KStr coll])) ->
    Forall (stored_match coll s filter) acc ->
    foldO (scanStep filter) l acc = Ok r ->
    Forall (stored_match coll s filter) r.
Proof.
  induction l as [|x l IH]; intros acc r Hl Hacc Hfold; cbn in Hfold.
  - by injection Hfold as <-.
  - destruct ((scanStep filter) acc x) as [acc'| |] eqn:Hstep; cbn in Hfold; try discriminate.
    apply (IH acc' r); [intros; apply Hl; by right | | assumption].
    unfold scanStep in Hstep.
    destruct (List.length (fst x) =? 2)%nat eqn:Hlen; cbn in Hstep;
      [|by injection Hstep as <-].
    destruct (reviveId _) as [doc| |] eqn:Hrev; cbn in Hstep; try discriminate.
    destruct (matchesFilter filter doc) eqn:Hm; injection Hstep as <-; [|assumption].
    apply Forall_app. split; [assumption|]. constructor; [|constructor].
    split; [assumption|]. exists (fst x), (snd x).
    apply Nat.eqb_eq in Hlen. repeat split; [|assumption..].
    destruct x. apply Hl. by left.
Qed.

(** What the full scan returns: exactly the stored documents that match. *)
Lemma findWithoutIndex_sound all :
  findWithoutIndex coll s filter noOptions = Ok all -> Forall (stored_match coll s filter) all.
Proof.
  rewrite findWithoutIndex_unfold. apply scan_sound; [auto | constructor].
Qed.

Lemma findWithoutIndex_complete all doc :
  findWithoutIndex coll s filter noOptions = Ok all ->
  (stored_match coll s filter) doc -> In doc all.
Proof.
  rewrite findWithoutIndex_unfold. intros Hscan (Hm & k & e & Hin & Hlen & Hrev).
  apply (proj2 (scan_complete _ _ _ Hscan) (k, e) doc); assumption.
Qed.

Lemma candidates_sound l acc :
  foldO (collectCandidate coll s filter) l ([], []) = Ok acc ->
  Forall (stored_match coll s filter) (snd acc).
Proof.
  apply (foldO_invariant (fun acc => Forall (stored_match coll s filter) (snd acc))).
  - intros a x a' Ha Hstep. eapply collectCandidate_sound; eassumption.
  - constructor.
Qed.

Lemma applyFindOptions_none results :
  applyFindOptions results noOptions = Ok results.
Proof. reflexivity. Qed.

Lemma findUsingIndexRange_sound field condition docs :
  findUsingIndexRange coll s field condition filter noOptions = Ok docs ->
  Forall (stored_match coll s filter) docs.
Proof.
  unfold findUsingIndexRange.
  destruct (foldO _ _ _) as [acc| |] eqn:Hscan; [| |discriminate].
  - rewrite applyFindOptions_none. intros [= <-]. revert Hscan.
    apply (foldO_invariant (fun acc => Forall (stored_match coll s filter) (snd acc))).
    + intros a x a' Ha. destruct (inRange _ _).
      * intros Hstep. eapply collectCandidate_sound; eassumption.
      * by intros [= <-].
    + constructor.
  - apply findWithoutIndex_sound.
Qed.

Lemma findUsingIndex_sound indexInfo docs :
  findUsingIndex coll s indexInfo filter noOptions = Ok docs ->
  Forall (stored_match coll s filter) docs.
Proof.
  unfold findUsingIndex.
  destruct (infoSpec indexInfo) as [spec| |]; cbn; try discriminate.
  destruct (specFields spec) as [[|field [|second rest]]| |]; cbn; try discriminate.
  - destruct (foldO _ _ _) as [acc| |] eqn:Hscan; cbn; try discriminate.
    intros [= <-]. eapply candidates_sound; eassumption.
  - destruct (isRangeQuery _); [apply findUsingIndexRange_sound|].
    destruct (getQueryValue _); cbn; try discriminate.
    destruct (foldO _ _ _) as [acc| |] eqn:Hscan; cbn; try discriminate.
    intros [= <-]. eapply candidates_sound; eassumption.
  - destruct (foldO _ _ _) as [acc| |] eqn:Hscan; cbn; try discriminate.
    intros [= <-]. eapply candidates_sound; eassumption.
Qed.

End PlanSoundness.

(** C2 (amended): with no sort, skip, limit or projection, every document an
    index-backed plan returns (exact match, compound prefix or range scan)
    is accepted by the filter and is returned by the full scan as well; the
    converse does not hold. *)
Theorem index_plan_within_full_scan
    (coll : string) (s : Kv.store) (indexInfo filter : value)
    (docs : list value) (doc : value) :
  findUsingIndex coll s indexInfo filter noOptions = Ok docs ->
  In doc docs ->
  matchesFilter filter doc = true /\
  forall all, findWithoutIndex coll s filter noOptions = Ok all -> In doc all.
Proof.
  intros Hplan Hin.
  pose proof (findUsingIndex_sound _ _ _ _ _ Hplan) as Hall.
  rewrite Forall_forall in Hall.
  specialize (Hall _ (proj2 (list_elem_of_In _ _) Hin)).
  split; [apply Hall|].
  intros all Hscan. eapply findWithoutIndex_complete; eassumption.
Qed.

(** The exact-match plan for [{ age: 10 }] finds the document with age 10. *)
Lemma index_plan_within_full_scan_witness :
  matchesFilter (VObj [("age", VNum 10)]) aliceStored = true /\
  forall all,
    findWithoutIndex "users" users2 (VObj [("age", VNum 10)]) noOptions = Ok all ->
    In aliceStored all.
Proof.
  apply (index_plan_within_full_scan "users" users2 ageIndexInfo
           (VObj [("age", VNum 10)]) [aliceStored] aliceStored);
    [vm_compute; reflexivity | left; reflexivity].
Defined.

(** ** Upsert *)






(** * Laws of the operations *)

(** ** Paths: writing and reading back *)

Lemma split_dot_nonempty (path : string) : split_dot path <> [].
Proof.
  induction path as [|c rest IH]; cbn; [discriminate|].
  destruct (Ascii.eqb c "."); [discriminate|].
  destruct (split_dot rest); discriminate.
Qed.

Lemma all_digits_not_marker (k : string) :
  all_digits k = true ->
  (String.eqb k "$" || String.eqb k EmptyString) = false.
Proof.
  destruct k as [|c k]; [discriminate|].
  unfold all_digits. cbn [String.eqb negb andb all_digits_aux].
  intros H. apply andb_true_iff in H as [Hc _].
  rewrite orb_false_r.
  destruct (Ascii.eqb c "$") eqn:E; [|reflexivity].
  apply Ascii.eqb_eq in E. subst c. discriminate.
Qed.

Lemma is_index_all_digits (k : string) : is_index k = true -> all_digits k = true.
Proof. unfold is_index. intros H. by apply andb_true_iff in H as [? _]. Qed.

Lemma obj_get_set_other fs k k' v :
  k' <> k -> obj_get (obj_set fs k v) k' = obj_get fs k'.
Proof.
  intros Hne. induction fs as [|[k0 v0] fs IH]; cbn.
  - destruct (String.eqb k k') eqn:E; [|reflexivity].
    apply String.eqb_eq in E. congruence.
  - destruct (String.eqb k0 k) eqn:Hk; cbn.
    + apply String.eqb_eq in Hk. subst k0.
      destruct (String.eqb k k') eqn:E; [|reflexivity].
      apply String.eqb_eq in E. congruence.
    + destruct (String.eqb k0 k'); [reflexivity | exact IH].
Qed.

(** What [current[part] = v] leaves behind: an object or an array in which
    the step [part] reads [v]. *)
Lemma assign_then_step current part v r :
  assign current part v = Ok r ->
  getNestedStep r part = v /\ truthy r = true.
Proof.
  destruct current as [| | | | | | |xs|fs|]; unfold assign; try discriminate.
  - destruct (is_index part) eqn:Hi; [|discriminate].
    pose proof (all_digits_not_marker _ (is_index_all_digits _ Hi)) as Hm.
    pose proof (is_index_all_digits _ Hi) as Hd.
    destruct (N.to_nat (parseInt part) <? List.length xs)%nat eqn:Hlt.
    + intros [= <-]. split; [|reflexivity].
      apply Nat.ltb_lt in Hlt.
      unfold getNestedStep. rewrite Hm, Hd, length_insert.
      replace (parseInt part <? N.of_nat (List.length xs))%N with true
        by (symmetry; apply N.ltb_lt; lia).
      rewrite nth_lookup, list_lookup_insert_eq by lia. reflexivity.
    + destruct (N.to_nat (parseInt part) =? List.length xs)%nat eqn:Heq;
        [|discriminate].
      intros [= <-]. split; [|reflexivity].
      apply Nat.eqb_eq in Heq.
      unfold getNestedStep. rewrite Hm, Hd, length_app. cbn [List.length].
      replace (parseInt part <? N.of_nat (List.length xs + 1))%N with true
        by (symmetry; apply N.ltb_lt; lia).
      rewrite Heq. apply nth_middle.
  - intros [= <-]. split; [|reflexivity].
    cbn. by rewrite obj_get_set_same.
Qed.

Lemma setNestedWalk_then_steps parts :
  parts <> [] ->
  forall current v r,
    setNestedWalk current parts v = Ok r ->
    fold_left getNestedStep parts r = v /\ truthy r = true.
Proof.
  induction parts as [|part rest IH]; [congruence|]. intros _ current v r.
  destruct rest as [|part' rest].
  - cbn. apply assign_then_step.
  - change (setNestedWalk current (part :: part' :: rest) v)
      with (obind (has_in current part) (fun present =>
            let child := if present then prop_get current part else VObj [] in
            obind (setNestedWalk child (part' :: rest) v) (fun child' =>
            assign current part child'))).
    destruct (has_in current part) as [present| |]; cbn [obind]; try discriminate.
    destruct (setNestedWalk _ (part' :: rest) v) as [child'| |] eqn:Hchild;
      cbn [obind]; try discriminate.
    intros Hassign. apply assign_then_step in Hassign as [Hstep Htruthy].
    split; [|assumption].
    cbn [fold_left]. rewrite Hstep.
    apply (IH ltac:(discriminate) _ _ _ Hchild).
Qed.

Lemma setNestedValue_read_back (obj : value) (path : string) (v r : value) :
  setNestedValue obj path v = Ok r ->
  getNestedValue r path = v.
Proof.
  unfold setNestedValue, getNestedValue. intros Hset.
  apply (setNestedWalk_then_steps _ (split_dot_nonempty path)) in Hset as [Hsteps ->].
  exact Hsteps.
Qed.








Lemma fold_getNestedStep_undef (parts : list string) :
  fold_left getNestedStep parts VUndef = VUndef.
Proof. induction parts as [|p parts IH]; [reflexivity | exact IH]. Qed.

(** Where a step of [index_steps] reads something, the property is there
    and can be written. *)
Lemma step_where_read current part :
  index_step current part = true ->
  getNestedStep current part <> VUndef ->
  has_in current part = Ok true /\
  getNestedStep current part = prop_get current part /\
  forall child, exists r, assign current part child = Ok r.
Proof.
  intros Hstep Hread.
  destruct current as [| |b|n|s|ms|hex|xs|fs|];
    try discriminate Hstep;
    try (exfalso; apply Hread; unfold getNestedStep, is_objectlike;
         cbn [typeof jstype_eqb]; by rewrite ?andb_false_r).
  - unfold index_step in Hstep. apply andb_true_iff in Hstep as [Hi _].
    unfold getNestedStep in *.
    rewrite (all_digits_not_marker _ (is_index_all_digits _ Hi)),
      (is_index_all_digits _ Hi) in *.
    destruct (parseInt part <? N.of_nat (List.length xs))%N eqn:Hlt;
      [|by destruct Hread].
    unfold has_in, prop_get, assign. rewrite Hi, Hlt.
    split; [reflexivity|]. split; [reflexivity|]. intros child.
    apply N.ltb_lt in Hlt.
    replace (N.to_nat (parseInt part) <? List.length xs)%nat with true
      by (symmetry; apply Nat.ltb_lt; lia).
    eauto.
  - unfold getNestedStep, is_objectlike in *.
    cbn [truthy typeof jstype_eqb andb] in *.
    unfold has_in, obj_has, assign, prop_get in *.
    destruct (obj_get fs part); [eauto | by destruct Hread].
Qed.

(** A path of [index_steps] that reads something can be written. *)
Lemma setNestedWalk_where_read parts : forall current v,
  parts <> [] ->
  index_steps current parts = true ->
  fold_left getNestedStep parts current <> VUndef ->
  exists r, setNestedWalk current parts v = Ok r.
Proof.
  induction parts as [|part rest IH]; intros current v Hne; [congruence|].
  cbn [index_steps fold_left]. intros H Hread.
  apply andb_true_iff in H as [Hstep Hrest].
  assert (Hnext : getNestedStep current part <> VUndef).
  { intros Hu. apply Hread. rewrite Hu. apply fold_getNestedStep_undef. }
  destruct (step_where_read _ _ Hstep Hnext) as (Hin & Hsame & Hassign).
  destruct rest as [|part' rest]; [apply Hassign|].
  change (setNestedWalk current (part :: part' :: rest) v)
    with (obind (has_in current part) (fun present =>
          let child := if present then prop_get current part else VObj [] in
          obind (setNestedWalk child (part' :: rest) v) (fun child' =>
          assign current part child'))).
  rewrite Hin. cbn [obind]. cbn zeta. rewrite Hsame in Hread.
  destruct (IH (prop_get current part) v ltac:(discriminate) Hrest Hread)
    as [child' ->].
  cbn [obind]. apply Hassign.
Qed.



(** ** Paths: deleting *)


Lemma obj_get_del_same fs k : obj_get (obj_del fs k) k = None.
Proof.
  induction fs as [|[k' v'] fs IH]; cbn; [reflexivity|].
  destruct (String.eqb k' k) eqn:Hk; cbn; [exact IH | by rewrite Hk].
Qed.

Lemma obj_get_del_other fs k k' :
  k' <> k -> obj_get (obj_del fs k) k' = obj_get fs k'.
Proof.
  intros Hne. induction fs as [|[k0 v0] fs IH]; cbn; [reflexivity|].
  destruct (String.eqb k0 k) eqn:Hk; cbn.
  - apply String.eqb_eq in Hk. subst k0.
    destruct (String.eqb k k') eqn:E; [|exact IH].
    apply String.eqb_eq in E. congruence.
  - destruct (String.eqb k0 k'); [reflexivity | exact IH].
Qed.








(** ** The update engine, one operator at a time *)

Section SingleOperator.

Variable fs : list (string * value).
Variable path : string.
Variable v : value.

Ltac single_operator :=
  unfold applyUpdateOperators, Update.forOperator;
  cbn [prop_get obj_get String.eqb Ascii.eqb Bool.eqb andb truthy entries_of
       foldO obind fst snd];
  match goal with
  | |- context [obind ?o _] => destruct o; reflexivity
  | |- _ => reflexivity
  end.

Lemma update_set_only :
  applyUpdateOperators (VObj fs) (VObj [("$set", VObj [(path, v)])])
  = Update.applySet (VObj fs) (path, v).
Proof. single_operator. Qed.

Lemma update_unset_only :
  applyUpdateOperators (VObj fs) (VObj [("$unset", VObj [(path, v)])])
  = Update.applyUnset (VObj fs) (path, v).
Proof. single_operator. Qed.




Lemma update_pull_only :
  applyUpdateOperators (VObj fs) (VObj [("$pull", VObj [(path, v)])])
  = Update.applyPull (VObj fs) (path, v).
Proof. single_operator. Qed.

Lemma update_addToSet_only :
  applyUpdateOperators (VObj fs) (VObj [("$addToSet", VObj [(path, v)])])
  = Update.applyAddToSet (VObj fs) (path, v).
Proof. single_operator. Qed.

End SingleOperator.

Lemma truthy_present current part :
  truthy (prop_get current part) = true ->
  has_in current part = Ok true /\
  is_null (prop_get current part) = false /\
  forall child, assign current part child = Ok (Update.put_back current part child).
Proof.
  destruct current as [| | | | | | |xs|fs|]; try discriminate.
  - unfold prop_get, has_in, assign, Update.put_back.
    destruct (is_index part) eqn:Hi; [|discriminate].
    intros Ht.
    assert (Hlt : (N.to_nat (parseInt part) < List.length xs)%nat).
    { destruct (Nat.lt_ge_cases (N.to_nat (parseInt part)) (List.length xs)) as [|Hge];
        [assumption|].
      rewrite nth_overflow in Ht by assumption. discriminate. }
    split; [|split].
    + f_equal. apply N.ltb_lt. lia.
    + by destruct (nth _ xs VUndef).
    + intros child. by rewrite (proj2 (Nat.ltb_lt _ _) Hlt).
  - unfold prop_get, has_in, assign, Update.put_back, obj_has.
    destruct (obj_get fs part) as [x|]; [|discriminate].
    intros Ht. split; [reflexivity|]. split; [by destruct x | reflexivity].
Qed.

Lemma unsetHere_objectlike current lastPart :
  is_objectlike current = true ->
  Update.unsetHere current lastPart = delete_prop current lastPart.
Proof. unfold Update.unsetHere. by intros ->. Qed.

Lemma unsetWalk_deleteNestedWalk parts : forall current,
  parts <> [] ->
  is_objectlike current = true ->
  reaches_parent current parts = true ->
  Update.unsetWalk current parts (List.last parts EmptyString)
  = deleteNestedWalk current parts.
Proof.
  induction parts as [|part rest IH]; intros current Hne Hcur Hwalk; [congruence|].
  destruct rest as [|part' rest].
  - cbn. by apply unsetHere_objectlike.
  - change (reaches_parent current (part :: part' :: rest))
      with (is_objectlike (prop_get current part) &&
            reaches_parent (prop_get current part) (part' :: rest)) in Hwalk.
    apply andb_true_iff in Hwalk as [Hobject Hwalk].
    assert (Hnext : truthy (prop_get current part) = true).
    { unfold is_objectlike in Hobject. by apply andb_true_iff in Hobject as [? _]. }
    change (Update.unsetWalk current (part :: part' :: rest)
              (List.last (part :: part' :: rest) EmptyString))
      with (let next := prop_get current part in
            if negb (truthy next)
            then Update.unsetHere current (List.last (part' :: rest) EmptyString)
            else obind (Update.unsetWalk next (part' :: rest)
                          (List.last (part' :: rest) EmptyString))
                       (fun next' => Ok (Update.put_back current part next'))).
    change (deleteNestedWalk current (part :: part' :: rest))
      with (obind (has_in current part) (fun present =>
            if negb present || is_null (prop_get current part) then Ok current
            else
              obind (deleteNestedWalk (prop_get current part) (part' :: rest))
                    (fun child' => assign current part child'))).
    destruct (truthy_present _ _ Hnext) as (Hin & Hnull & Hassign).
    cbn zeta. rewrite Hnext, Hin, Hnull. cbn [negb orb obind].
    rewrite (IH _ ltac:(discriminate) Hobject Hwalk).
    destruct (deleteNestedWalk _ _); cbn [obind]; try reflexivity.
    by rewrite Hassign.
Qed.

(** X4: [$unset] does what [deleteNestedField] does, error included,
    whenever every step of the path before the last reads an object, an
    array, a [Date] or an [ObjectId]; in particular it removes a top-level
    field and no other. *)
Theorem unset_operator_deletes_reachable_path
    (fs : list (string * value)) (path : string) (flag : value) :
  (reaches_parent (VObj fs) (split_dot path) = true ->
   applyUpdateOperators (VObj fs) (VObj [("$unset", VObj [(path, flag)])])
   = deleteNestedField (VObj fs) path) /\
  (is_field_name path ->
   applyUpdateOperators (VObj fs) (VObj [("$unset", VObj [(path, flag)])])
   = Ok (VObj (obj_del fs path)) /\
   obj_get (obj_del fs path) path = None /\
   forall k', k' <> path -> obj_get (obj_del fs path) k' = obj_get fs k').
Proof.
  rewrite update_unset_only. unfold Update.applyUnset, deleteNestedField.
  cbn [fst]. split.
  - intros Hwalk.
    by apply unsetWalk_deleteNestedWalk; [apply split_dot_nonempty| |].
  - intros Hk. rewrite Hk. split; [reflexivity|].
    split; [apply obj_get_del_same | intros; by apply obj_get_del_other].
Qed.

Lemma unset_operator_deletes_reachable_path_witness :
  applyUpdateOperators
    (VObj [("_id", VOid idA); ("a", VObj [("b", VNum 1); ("c", VNum 2)])])
    (VObj [("$unset", VObj [("a.b", VBool true)])])
  = deleteNestedField
      (VObj [("_id", VOid idA); ("a", VObj [("b", VNum 1); ("c", VNum 2)])]) "a.b" /\
  applyUpdateOperators (VObj [("_id", VOid idA); ("y", VNum 1)])
    (VObj [("$unset", VObj [("y", VBool true)])])
  = Ok (VObj [("_id", VOid idA)]).
Proof.
  split.
  - apply (proj1 (unset_operator_deletes_reachable_path
                    [("_id", VOid idA); ("a", VObj [("b", VNum 1); ("c", VNum 2)])]
                    "a.b" (VBool true))).
    reflexivity.
  - apply (proj2 (unset_operator_deletes_reachable_path
                    [("_id", VOid idA); ("y", VNum 1)] "y" (VBool true))).
    reflexivity.
Defined.




(** ** Following a path again after a change *)

Section Stability.

Variable f : value -> value.
Hypothesis f_array : forall xs, exists ys, f (VArr xs) = VArr ys.

Lemma similar_refl a : similar a a.
Proof. destruct a; cbn; auto. Qed.

Lemma similar_objectlike a b : similar a b -> is_objectlike a = is_objectlike b.
Proof. destruct a, b; cbn; try congruence; try discriminate; intros; reflexivity. Qed.

Lemma similar_undef a b : similar a b -> is_undef a = is_undef b.
Proof. destruct a, b; cbn; try congruence; try discriminate; intros; reflexivity. Qed.

Lemma obj_has_set_present fs k x k' :
  obj_has fs k = true -> obj_has (obj_set fs k x) k' = obj_has fs k'.
Proof.
  unfold obj_has. intros Hk.
  destruct (String.eqb k' k) eqn:E.
  - apply String.eqb_eq in E. subst k'. rewrite obj_get_set_same.
    by destruct (obj_get fs k).
  - rewrite obj_get_set_other; [reflexivity|].
    intros ->. by rewrite String.eqb_refl in E.
Qed.

Lemma nth_error_insert_same {A} (ys : list A) (i : nat) (x : A) :
  (i < List.length ys)%nat -> nth_error (<[i := x]> ys) i = Some x.
Proof.
  revert i. induction ys as [|y ys IH]; intros [|i] Hi; cbn in *; try lia.
  - reflexivity.
  - apply IH. lia.
Qed.

Lemma nth_error_insert_other {A} (ys : list A) (i i' : nat) (x : A) :
  i' <> i -> nth_error (<[i := x]> ys) i' = nth_error ys i'.
Proof.
  revert i i'. induction ys as [|y ys IH]; intros [|i] [|i'] Hne; cbn;
    try reflexivity; try congruence.
  apply IH. congruence.
Qed.

(** The value at [l] after a change there. *)
Lemma read_modify_same l : forall d xs,
  read_at d l = VArr xs -> read_at (modify_at f d l) l = f (VArr xs).
Proof.
  induction l as [|[k|i] l IH]; intros d xs; cbn.
  - by intros ->.
  - destruct d as [| | | | | | |ys|fs|]; try discriminate.
    destruct (obj_get fs k) as [x|] eqn:Hk; [|discriminate].
    intros Hx. cbn. rewrite obj_get_set_same. by apply IH.
  - destruct d as [| | | | | | |ys|fs|]; try discriminate.
    destruct (nth_error ys i) as [x|] eqn:Hi; [|discriminate].
    intros Hx. cbn.
    assert (Hlen : (i < List.length ys)%nat) by (apply nth_error_Some; congruence).
    rewrite (nth_error_insert_same _ _ _ Hlen). by apply IH.
Qed.

(** Away from [l] the document looks the same after a change at [l]. *)
Lemma read_modify_similar l : forall d q xs,
  read_at d l = VArr xs ->
  ~ below l q ->
  similar (read_at d q) (read_at (modify_at f d l) q).
Proof.
  induction l as [|[k|i] l IH]; intros d q xs Hl Hq.
  - exfalso. apply Hq. by exists q.
  - cbn in Hl. destruct d as [| | | | | | |ys|fs|]; try discriminate.
    destruct (obj_get fs k) as [x|] eqn:Hk; [|discriminate].
    cbn [modify_at]. rewrite Hk.
    destruct q as [|[k'|i'] q]; cbn [read_at].
    + intros k'. symmetry. apply obj_has_set_present. unfold obj_has. by rewrite Hk.
    + destruct (String.eqb k' k) eqn:E.
      * apply String.eqb_eq in E. subst k'. rewrite obj_get_set_same, Hk.
        apply (IH x q xs Hl). intros [t ->]. apply Hq. by exists t.
      * rewrite obj_get_set_other by (intros ->; by rewrite String.eqb_refl in E).
        apply similar_refl.
    + reflexivity.
  - cbn in Hl. destruct d as [| | | | | | |ys|fs|]; try discriminate.
    destruct (nth_error ys i) as [x|] eqn:Hi; [|discriminate].
    cbn [modify_at]. rewrite Hi.
    assert (Hlen : (i < List.length ys)%nat) by (apply nth_error_Some; congruence).
    destruct q as [|[k'|i'] q]; cbn [read_at].
    + cbn. by rewrite length_insert.
    + reflexivity.
    + destruct (Nat.eq_dec i' i) as [->|Hne].
      * rewrite (nth_error_insert_same _ _ _ Hlen), Hi.
        apply (IH x q xs Hl). intros [t ->]. apply Hq. by exists t.
      * rewrite (nth_error_insert_other _ _ _ _ Hne). apply similar_refl.
Qed.

Lemma below_length l q : below l q -> (List.length l <= List.length q)%nat.
Proof. intros [t ->]. rewrite length_app. lia. Qed.

Lemma below_same_length l q :
  below l q -> (List.length q <= List.length l)%nat -> q = l.
Proof.
  intros [t ->]. rewrite length_app. intros Hlen.
  destruct t; [by rewrite app_nil_r | cbn in Hlen; lia].
Qed.

Lemma below_snoc l q x : below l (q ++ [x]) -> below l q \/ l = (q ++ [x])%list.
Proof.
  intros [t Ht]. destruct t as [|y t _] using rev_ind.
  - right. by rewrite app_nil_r in Ht.
  - left. rewrite app_assoc in Ht. apply app_inj_tail in Ht as [-> _]. by exists t.
Qed.

Lemma clear_of_short l q :
  (List.length q <= List.length l)%nat -> clear_of l q.
Proof.
  intros Hlen. destruct (decide (q = l)) as [->|Hne]; [by left|].
  right. intros Hb. by apply Hne, below_same_length.
Qed.

Section Target.

Variable d : value.
Variable l : place.
Variable items : list value.
Hypothesis Hl : read_at d l = VArr items.

Let d' := modify_at f d l.

Lemma read_target : exists ys, read_at d' l = VArr ys.
Proof.
  subst d'. rewrite (read_modify_same _ _ _ Hl). apply f_array.
Qed.

Lemma observe_stable q :
  clear_of l q -> is_objectlike (read_at d' q) = is_objectlike (read_at d q).
Proof.
  intros [-> | Hq].
  - destruct read_target as [ys ->]. by rewrite Hl.
  - symmetry. apply similar_objectlike. by apply (read_modify_similar l d q items).
Qed.

Lemma observe_field_stable q part :
  clear_of l q ->
  is_undef (read_at d' (q ++ [SField part])) = is_undef (read_at d (q ++ [SField part])).
Proof.
  intros [-> | Hq].
  - rewrite !read_at_app. destruct read_target as [ys ->]. by rewrite Hl.
  - destruct (decide (l = (q ++ [SField part])%list)) as [Heq|Hne].
    + rewrite <- Heq. destruct read_target as [ys ->]. by rewrite Hl.
    + symmetry. apply similar_undef.
      apply (read_modify_similar l d _ items Hl).
      intros Hb. apply below_snoc in Hb as [Hb | Hb]; [by apply Hq | by apply Hne].
Qed.

Lemma refStepArray_stable self elems part :
  Forall (clear_of l) elems ->
  refStepArray d' self elems part = refStepArray d self elems part.
Proof.
  intros Helems. unfold refStepArray.
  destruct (String.eqb part "$" || String.eqb part EmptyString); [reflexivity|].
  destruct (all_digits part); [reflexivity|].
  assert (Hex : existsb (fun q => is_objectlike (read_at d' q)) elems
                = existsb (fun q => is_objectlike (read_at d q)) elems).
  { induction Helems as [|q qs Hq _ IH]; [reflexivity|].
    cbn. by rewrite (observe_stable q Hq), IH. }
  assert (Hfound :
            List.filter (fun q => negb (is_undef (read_at d' q)))
              (List.map (fun q => (q ++ [SField part])%list)
                 (List.filter (fun q => is_objectlike (read_at d' q)) elems))
            = List.filter (fun q => negb (is_undef (read_at d q)))
                (List.map (fun q => (q ++ [SField part])%list)
                   (List.filter (fun q => is_objectlike (read_at d q)) elems))).
  { clear Hex. induction Helems as [|q qs Hq _ IH]; [reflexivity|].
    cbn [List.filter]. rewrite (observe_stable q Hq).
    destruct (is_objectlike (read_at d q)); [|exact IH].
    cbn [List.map List.filter]. rewrite (observe_field_stable q part Hq).
    destruct (negb (is_undef (read_at d (q ++ [SField part])))); by rewrite IH. }
  by rewrite Hex, Hfound.
Qed.

Lemma elements_clear p n :
  ~ below l p ->
  Forall (clear_of l) (List.map (fun i => (p ++ [SIndex i])%list) (seq 0 n)).
Proof.
  intros Hp. apply Forall_forall. intros q Hq%list_elem_of_In.
  apply in_map_iff in Hq as (i & <- & _).
  destruct (decide ((p ++ [SIndex i])%list = l)) as [Heq|Hne]; [by left|].
  right. intros Hb. apply below_snoc in Hb as [Hb | Hb]; [by apply Hp | by apply Hne].
Qed.

(** A step from a place that is not below the target sees the same
    document. *)
Lemma refStep_stable_at p part :
  ~ below l p -> refStep d' (RAt p) part = refStep d (RAt p) part.
Proof.
  intros Hp. pose proof (read_modify_similar l d p items Hl Hp) as Hsim.
  fold d' in Hsim. cbn [refStep].
  destruct (read_at d p) as [| | | | | | |xs|fs|] eqn:Hd;
    destruct (read_at d' p) as [| | | | | | |xs'|fs'|] eqn:Hd';
    cbn in Hsim; try discriminate Hsim; try reflexivity.
  - rewrite <- Hsim. rewrite refStepArray_stable; [reflexivity|].
    by apply elements_clear.
  - by rewrite Hsim.
Qed.

(** A step from the target itself that stays within its depth is a step
    that stays at the target. *)
Lemma refStep_at_target part n :
  depth (refStep d (RAt l) part) n ->
  (n <= List.length l)%nat ->
  refStep d' (RAt l) part = refStep d (RAt l) part.
Proof.
  cbn [refStep]. destruct read_target as [ys ->]. rewrite Hl.
  unfold refStepArray.
  destruct (String.eqb part "$" || String.eqb part EmptyString); [reflexivity|].
  destruct (all_digits part).
  - destruct (parseInt part <? N.of_nat (List.length _))%N; [|intros []].
    destruct (nth_error _ _) as [q|] eqn:Hq; [|intros []].
    apply nth_error_In, in_map_iff in Hq as (i & <- & _).
    cbn. rewrite length_app. cbn. lia.
  - destruct (existsb _ _); [|intros []].
    destruct (List.filter _ _) as [|q qs] eqn:Hfound; [intros []|].
    intros [_ Hall] Hn. exfalso.
    apply Forall_cons in Hall as [Hq _].
    assert (Hin : In q (q :: qs)) by (by left).
    rewrite <- Hfound in Hin. apply filter_In in Hin as [Hin _].
    apply in_map_iff in Hin as (e & <- & He).
    apply filter_In in He as [He _].
    apply in_map_iff in He as (i & <- & _).
    rewrite !length_app in Hq. cbn in Hq. lia.
Qed.

End Target.

End Stability.

Section Depth.

Variable d : value.

Lemma fold_refStep_none (parts : list string) :
  fold_left (refStep d) parts RNone = RNone.
Proof. induction parts as [|p parts IH]; [reflexivity | exact IH]. Qed.

(** A step leads nowhere, or to places that are not shallower. *)
Lemma refStepArray_depth self elems part n k :
  depth self n ->
  Forall (fun q => List.length q = k) elems ->
  (n <= k)%nat ->
  refStepArray d self elems part = RNone \/
  exists n', (n <= n')%nat /\ depth (refStepArray d self elems part) n'.
Proof.
  intros Hself Helems Hnk. unfold refStepArray.
  destruct (String.eqb part "$" || String.eqb part EmptyString); [right; eauto|].
  destruct (all_digits part).
  - destruct (parseInt part <? N.of_nat (List.length elems))%N; [|by left].
    destruct (nth_error elems _) as [q|] eqn:Hq; [|by left].
    right. exists k. split; [assumption|]. cbn.
    rewrite Forall_forall in Helems. apply Helems, list_elem_of_In.
    by apply nth_error_In in Hq.
  - destruct (existsb _ elems); [|by left].
    destruct (List.filter _ _) as [|q qs] eqn:Hfound; [by left|].
    right. exists (S k). split; [lia|]. split; [discriminate|].
    rewrite <- Hfound. apply Forall_forall. intros x Hx%list_elem_of_In.
    apply filter_In in Hx as [Hx _]. apply in_map_iff in Hx as (e & <- & He).
    apply filter_In in He as [He _].
    rewrite Forall_forall in Helems. apply list_elem_of_In, Helems in He.
    rewrite length_app. cbn. lia.
Qed.

Lemma refStep_depth r part n :
  depth r n ->
  refStep d r part = RNone \/
  exists n', (n <= n')%nat /\ depth (refStep d r part) n'.
Proof.
  destruct r as [p|ls|]; cbn [refStep depth]; [| |intros []].
  - intros Hp. destruct (read_at d p) as [| | | | | | |xs|fs|]; try by left.
    + apply (refStepArray_depth _ _ _ n (S n)); [assumption| |lia].
      apply Forall_forall. intros q Hq%list_elem_of_In.
      apply in_map_iff in Hq as (i & <- & _). rewrite length_app. cbn. lia.
    + destruct (obj_has fs part); [|by left].
      right. exists (S n). split; [lia|]. cbn. rewrite length_app. cbn. lia.
  - intros [Hne Hall]. by apply (refStepArray_depth _ _ _ n n).
Qed.

Lemma fold_refStep_depth (parts : list string) : forall r n l,
  depth r n ->
  fold_left (refStep d) parts r = RAt l ->
  (n <= List.length l)%nat.
Proof.
  induction parts as [|part parts IH]; intros r n l Hr; cbn [fold_left].
  - intros ->. cbn in Hr. lia.
  - destruct (refStep_depth r part n Hr) as [-> | (n' & Hn & Hr')].
    + by rewrite fold_refStep_none.
    + intros Hfold. specialize (IH _ _ _ Hr' Hfold). lia.
Qed.

End Depth.

Section Resolve.

Variable f : value -> value.
Hypothesis f_array : forall xs, exists ys, f (VArr xs) = VArr ys.
Variable d : value.
Variable l : place.
Variable items : list value.
Hypothesis Hl : read_at d l = VArr items.

(** The path that led to [l] leads there again after a change at [l]. *)
Lemma resolve_stable (parts : list string) : forall r n,
  depth r n ->
  fold_left (refStep d) parts r = RAt l ->
  fold_left (refStep (modify_at f d l)) parts r = RAt l.
Proof.
  induction parts as [|part parts IH]; intros r n Hr; cbn [fold_left]; [auto|].
  intros Hfold.
  destruct (refStep_depth d r part n Hr) as [Hnone | (n' & Hn & Hr')].
  { rewrite Hnone, fold_refStep_none in Hfold. discriminate. }
  pose proof (fold_refStep_depth d _ _ _ _ Hr' Hfold) as Hn'.
  assert (Hsame : refStep (modify_at f d l) r part = refStep d r part).
  { destruct r as [p|ls|]; [| |destruct Hr].
    - cbn in Hr. destruct (decide (p = l)) as [->|Hne].
      + by apply (refStep_at_target f f_array d l items Hl part n').
      + apply (refStep_stable_at f f_array d l items Hl).
        intros Hb. apply Hne, below_same_length; [assumption | lia].
    - destruct Hr as [_ Hall]. cbn [refStep].
      apply (refStepArray_stable f f_array d l items Hl).
      eapply Forall_impl; [exact Hall|]. intros q Hq. cbn beta in Hq.
      apply clear_of_short. lia. }
  rewrite Hsame. by apply (IH _ n').
Qed.

End Resolve.

(** ** Arrays extended in place *)

Section InPlace.

Variable fs : list (string * value).
Variable path : string.
Variable v : value.

Lemma push_onto_array xs : exists ys, Update.push_onto v (VArr xs) = VArr ys.
Proof. by eexists. Qed.

Lemma modify_object l :
  exists fs', modify_at (Update.push_onto v) (VObj fs) l = VObj fs'.
Proof.
  destruct l as [|[k|i] l]; cbn; eauto.
  destruct (obj_get fs k); eauto.
Qed.

(** An array that lives in the document at the place the path leads to is
    found at the same place, one element longer, after the push. *)
Lemma push_in_place l items :
  getNestedRef (VObj fs) path = RAt l ->
  read_at (VObj fs) l = VArr items ->
  getNestedRef (modify_at (Update.push_onto v) (VObj fs) l) path = RAt l /\
  read_at (modify_at (Update.push_onto v) (VObj fs) l) l = VArr (items ++ [v]).
Proof.
  intros Href Hl. split.
  - unfold getNestedRef in *. destruct (modify_object l) as [fs' Hfs'].
    rewrite Hfs'. cbn [truthy negb] in *. rewrite <- Hfs'.
    by apply (resolve_stable _ push_onto_array _ _ items Hl _ _ 0%nat).
  - by rewrite (read_modify_same _ _ _ _ Hl).
Qed.

End InPlace.



(** X7: where the path steps into arrays by position only (so that the
    array it reads lives in the document), [{ $pull: { path: v } }]
    returns, and the array at the path has then lost every element equal to
    [v] and kept the others, in order. *)
Theorem pull_operator_removes_equal_elements
    (fs : list (string * value)) (path : string) (v : value) (items : list value) :
  index_steps (VObj fs) (split_dot path) = true ->
  getNestedValue (VObj fs) path = VArr items ->
  exists r,
    applyUpdateOperators (VObj fs) (VObj [("$pull", VObj [(path, v)])]) = Ok r /\
    getNestedValue r path
      = VArr (List.filter (fun item => negb (isEqual item v)) items) /\
    forall kept, getNestedValue r path = VArr kept ->
                 existsb (fun item => isEqual item v) kept = false.
Proof.
  intros Hsteps Hitems. rewrite update_pull_only. unfold Update.applyPull.
  cbn [fst snd]. rewrite Hitems.
  destruct (setNestedWalk_where_read (split_dot path) (VObj fs)
              (VArr (List.filter (fun item => negb (isEqual item v)) items))
              (split_dot_nonempty path) Hsteps) as [r Hset].
  { unfold getNestedValue in Hitems. cbn [truthy negb] in Hitems.
    rewrite Hitems. discriminate. }
  exists r. split; [exact Hset|].
  apply setNestedValue_read_back in Hset. split; [exact Hset|].
  intros kept. rewrite Hset. intros [= <-].
  clear. induction items as [|x items IH]; [reflexivity|].
  cbn. destruct (isEqual x v) eqn:E; cbn; [exact IH | by rewrite E].
Qed.

Lemma pull_operator_removes_equal_elements_witness :
  exists r,
    applyUpdateOperators
      (VObj [("_id", VOid idA); ("t", VArr [VNum 1; VNum 2; VNum 3; VNum 2])])
      (VObj [("$pull", VObj [("t", VNum 2)])]) = Ok r /\
    getNestedValue r "t"
      = VArr (List.filter (fun item => negb (isEqual item (VNum 2)))
                [VNum 1; VNum 2; VNum 3; VNum 2]) /\
    forall kept, getNestedValue r "t" = VArr kept ->
                 existsb (fun item => isEqual item (VNum 2)) kept = false.
Proof.
  apply (pull_operator_removes_equal_elements
           [("_id", VOid idA); ("t", VArr [VNum 1; VNum 2; VNum 3; VNum 2])]
           "t" (VNum 2) [VNum 1; VNum 2; VNum 3; VNum 2]); reflexivity.
Defined.

(** ** Equality of values *)

Lemma forallb_idx_suffix {A} (f : nat -> A -> bool) (pre suf : list A) :
  (forall i x, nth_error (pre ++ suf) i = Some x -> (List.length pre <= i)%nat ->
               f i x = true) ->
  forallb_idx f (List.length pre) suf = true.
Proof.
  revert pre. induction suf as [|x suf IH]; intros pre Hall; [reflexivity|].
  cbn. rewrite (Hall (List.length pre) x).
  - cbn. replace (S (List.length pre)) with (List.length (pre ++ [x]))
      by (rewrite length_app; cbn; lia).
    apply IH. intros i y Hn Hi. rewrite <- app_assoc in Hn.
    apply Hall; [exact Hn|]. rewrite length_app in Hi. cbn in Hi. lia.
  - rewrite nth_error_app2 by lia. by rewrite Nat.sub_diag.
  - lia.
Qed.

Lemma obj_get_distinct fs k v :
  distinct_keys (List.map fst fs) = true -> In (k, v) fs -> obj_get fs k = Some v.
Proof.
  induction fs as [|[k' v'] fs IH]; [intros _ []|].
  cbn. intros Hd. apply andb_true_iff in Hd as [Hfresh Hd].
  intros [[= -> ->] | Hin].
  - by rewrite String.eqb_refl.
  - destruct (String.eqb k' k) eqn:E; [|by apply IH].
    apply String.eqb_eq in E. subst k'. exfalso.
    apply negb_true_iff in Hfresh.
    assert (Hex : existsb (String.eqb k) (List.map fst fs) = true).
    { apply existsb_exists. exists k. split; [|apply String.eqb_refl].
      apply in_map_iff. by exists (k, v). }
    congruence.
Qed.

Lemma isEqual_refl (v : value) :
  wf_value v = true -> nan_free v = true -> isEqual v v = true.
Proof.
  induction v as [| |b|n|s|ms|hex|items IH|fields IH|] using value_nested_ind;
    intros Hwf Hnan; cbn; [| | | | | | | | |discriminate Hnan].
  - reflexivity.
  - reflexivity.
  - by destruct b.
  - by rewrite Z.eqb_refl.
  - by rewrite String.eqb_refl.
  - apply Z.eqb_refl.
  - apply String.eqb_refl.
  - rewrite Nat.eqb_refl. cbn [negb].
    destruct items as [|x items]; [reflexivity|].
    apply (forallb_idx_suffix _ [] (x :: items)). cbn [app List.length].
    intros i y Hn _. rewrite (nth_error_nth _ _ _ Hn).
    cbn in Hwf. rewrite Forall_forall in IH.
    apply nth_error_In in Hn.
    change (forallb wf_value (x :: items) = true) in Hwf.
    change (forallb nan_free (x :: items) = true) in Hnan.
    rewrite forallb_forall in Hwf. rewrite forallb_forall in Hnan.
    apply IH; [by apply list_elem_of_In | by apply Hwf | by apply Hnan].
  - rewrite Nat.eqb_refl. cbn [negb].
    cbn in Hwf. apply andb_true_iff in Hwf as [Hd Hall].
    change (forallb (fun kv => nan_free (snd kv)) fields = true) in Hnan.
    apply forallb_forall. intros [k x] Hin. cbn [fst snd].
    unfold obj_has. rewrite (obj_get_distinct _ _ _ Hd Hin). cbn.
    rewrite Forall_forall in IH. rewrite forallb_forall in Hall.
    rewrite forallb_forall in Hnan.
    apply (IH (k, x));
      [by apply list_elem_of_In | by apply (Hall (k, x)) | by apply (Hnan (k, x))].
Qed.

Lemma isEqual_NaN (b : value) : isEqual VNaN b = false /\ isEqual b VNaN = false.
Proof. split; destruct b as [| |[|]| | | | | | |]; reflexivity. Qed.

(** X8: [isEqual(a, a)] holds for every value that holds no [NaN]: integers,
    strings, booleans, [null], [undefined], valid dates, ids, and the arrays
    and objects made of them.  [NaN] is equal to nothing, itself included. *)
Theorem isEqual_reflexive (v : value) :
  (wf_value v = true -> nan_free v = true -> isEqual v v = true) /\
  isEqual VNaN v = false /\ isEqual v VNaN = false.
Proof. split; [apply isEqual_refl | apply isEqual_NaN]. Qed.

Lemma isEqual_reflexive_witness :
  isEqual (VObj [("a", VArr [VNum 1; VNull]); ("b", VDate 5)])
          (VObj [("a", VArr [VNum 1; VNull]); ("b", VDate 5)]) = true.
Proof.
  apply (proj1 (isEqual_reflexive
                  (VObj [("a", VArr [VNum 1; VNull]); ("b", VDate 5)])));
    reflexivity.
Defined.

Lemma strict_eq_prim_eq (a b : value) :
  is_primitive a = true -> nan_free a = true ->
  (strict_eq_prim a b = true <-> a = b).
Proof.
  destruct a, b; cbn; try discriminate; intros _ _;
    try (split; [discriminate | discriminate]);
    try (split; reflexivity).
  - destruct b, b0; cbn; split; congruence.
  - rewrite Z.eqb_eq. split; congruence.
  - rewrite String.eqb_eq. split; congruence.
Qed.

Lemma isEqual_primitive_strict (a b : value) :
  is_primitive a = true -> isEqual a b = strict_eq_prim a b.
Proof.
  destruct a, b; try discriminate; intros _; cbn; try reflexivity;
    match goal with
    | |- (if ?c then true else false) = ?c => by destruct c
    end.
Qed.

(** X9: on a primitive value other than [NaN] ([undefined], [null], a
    boolean, an integer, a string) [isEqual] is identity: it holds of [a]
    and [b] exactly when [b] is [a]. *)
Theorem isEqual_on_primitives (a b : value) :
  is_primitive a = true -> nan_free a = true ->
  (isEqual a b = true <-> a = b).
Proof.
  intros Ha Hnan. rewrite (isEqual_primitive_strict _ _ Ha).
  by apply strict_eq_prim_eq.
Qed.

Lemma isEqual_on_primitives_witness :
  isEqual (VNum 1) (VStr "1") = true <-> VNum 1 = VStr "1".
Proof. apply (isEqual_on_primitives (VNum 1) (VStr "1")); reflexivity. Defined.

Lemma existsb_snoc {A} (f : A -> bool) (l : list A) (x : A) :
  f x = true -> existsb f (l ++ [x]) = true.
Proof. intros Hx. rewrite existsb_app. cbn. rewrite Hx. by rewrite orb_true_r. Qed.

(** X10: [$addToSet] of a value that holds no [NaN] (and is equal to
    itself) is idempotent: applying the same update to its own result
    changes nothing, whether the path leads to an array of the document,
    fans out over the elements of one, or holds no array and steps into
    arrays by position only (where the write of the new array returns a
    value of the model, see [setNestedValue_defined]). *)
Theorem addToSet_operator_idempotent
    (fs : list (string * value)) (path : string) (v r : value) :
  wf_value v = true ->
  nan_free v = true ->
  applyUpdateOperators (VObj fs) (VObj [("$addToSet", VObj [(path, v)])]) = Ok r ->
  applyUpdateOperators r (VObj [("$addToSet", VObj [(path, v)])]) = Ok r.
Proof.
  intros Hwf Hnan. rewrite update_addToSet_only.
  assert (Hpresent : forall fs' items,
            getNestedValue (VObj fs') path = VArr items ->
            existsb (fun item => isEqual item v) items = true ->
            Update.applyAddToSet (VObj fs') (path, v) = Ok (VObj fs')).
  { intros fs' items Hitems Hex. unfold Update.applyAddToSet. cbn [fst snd].
    by rewrite getNestedRef_agrees, Hitems, Hex. }
  unfold Update.applyAddToSet at 1. cbn [fst snd]. rewrite getNestedRef_agrees.
  destruct (getNestedValue (VObj fs) path) as [| | | | | | |items|xfs|] eqn:Hcur;
    try (intros Hset;
         assert (Hobj : exists fs', r = VObj fs');
         [ unfold setNestedValue in Hset;
           pose proof (split_dot_nonempty path) as Hne;
           destruct (split_dot path) as [|part [|part' rest]]; [congruence| |];
           [ cbn in Hset; injection Hset as <-; eauto
           | change (setNestedWalk (VObj fs) (part :: part' :: rest) (VArr [v]))
               with (obind (has_in (VObj fs) part) (fun present =>
                     let child := if present then prop_get (VObj fs) part
                                  else VObj [] in
                     obind (setNestedWalk child (part' :: rest) (VArr [v]))
                           (fun child' => assign (VObj fs) part child'))) in Hset;
             cbn [has_in obind] in Hset;
             destruct (setNestedWalk _ (part' :: rest) (VArr [v]));
             cbn in Hset; try discriminate; injection Hset as <-; eauto ]
         | destruct Hobj as [fs' ->]; rewrite update_addToSet_only;
           apply (Hpresent fs' [v]);
           [ by apply setNestedValue_read_back in Hset
           | cbn; by rewrite (isEqual_refl v Hwf Hnan) ] ]).
  destruct (existsb (fun item => isEqual item v) items) eqn:Hex.
  - intros [= <-]. rewrite update_addToSet_only. by apply (Hpresent fs items).
  - destruct (getNestedRef (VObj fs) path) as [l|ls|] eqn:Href.
    + intros [= <-].
      assert (Hl : read_at (VObj fs) l = VArr items).
      { rewrite <- Hcur, <- getNestedRef_agrees, Href. reflexivity. }
      destruct (push_in_place fs path v l items Href Hl) as [Href' Hl'].
      destruct (modify_object fs v l) as [fs' Hfs']. rewrite Hfs' in *.
      rewrite update_addToSet_only. apply (Hpresent fs' (items ++ [v])%list).
      * by rewrite <- getNestedRef_agrees, Href'.
      * by apply (existsb_snoc (fun item => isEqual item v)), isEqual_refl.
    + intros [= <-]. rewrite update_addToSet_only.
      unfold Update.applyAddToSet. cbn [fst snd].
      by rewrite getNestedRef_agrees, Hcur, Hex, Href.
    + intros [= <-]. rewrite update_addToSet_only.
      unfold Update.applyAddToSet. cbn [fst snd].
      by rewrite getNestedRef_agrees, Hcur, Hex, Href.
Qed.

Lemma addToSet_operator_idempotent_witness :
  applyUpdateOperators
    (VObj [("_id", VOid idA); ("a", VObj [("t", VArr [VNum 1; VNum 2])])])
    (VObj [("$addToSet", VObj [("a.t", VNum 2)])])
  = Ok (VObj [("_id", VOid idA); ("a", VObj [("t", VArr [VNum 1; VNum 2])])]).
Proof.
  apply (addToSet_operator_idempotent
           [("_id", VOid idA); ("a", VObj [("t", VArr [VNum 1])])] "a.t" (VNum 2));
    reflexivity.
Defined.

(** ** Filters *)

(** Case analysis on the test at the head of the left-hand side. *)
Ltac head_case :=
  match goal with
  | |- (if ?c then _ else _) = _ => destruct c
  end.

Lemma matchesFilter_cons (e : string * value) (rest : list (string * value))
    (doc : value) :
  empty_logical e = false ->
  matchesFilter (VObj (e :: rest)) doc
  = matchesFilter (VObj [e]) doc && matchesFilter (VObj rest) doc.
Proof.
  destruct e as [key condition]. unfold empty_logical. cbn [fst snd].
  intros Hne.
  destruct condition as [| | | | |ms|hex|subs|cfs|]; cbn [matchesFilter];
    try (destruct (matchesField doc key _); reflexivity).
  - destruct (String.eqb key "$not"); (try head_case; reflexivity).
  - destruct (String.eqb key "$not"); (try head_case; reflexivity).
  - destruct (String.eqb key "$or") eqn:Hor.
    { destruct subs as [|sub subs]; [discriminate | (try head_case; reflexivity)]. }
    destruct (String.eqb key "$and") eqn:Hand.
    { destruct subs as [|sub subs]; [discriminate | (try head_case; reflexivity)]. }
    destruct (String.eqb key "$nor") eqn:Hnor.
    { destruct subs as [|sub subs]; [discriminate | (try head_case; reflexivity)]. }
    destruct (String.eqb key "$not"); (try head_case; reflexivity).
  - destruct (String.eqb key "$not"); (try head_case; reflexivity).
Qed.

(** X11: the entries of a filter are combined by conjunction: a document
    matches the filter made of the entries of two filters exactly when it
    matches both, provided the first holds no [$or], [$and] or [$nor] with
    an empty list; such an entry makes a filter accept every document,
    whatever follows it. *)
Theorem filter_entries_are_conjoined
    (f1 f2 : list (string * value)) (doc : value) :
  (existsb empty_logical f1 = false ->
   matchesFilter (VObj (f1 ++ f2)) doc
   = matchesFilter (VObj f1) doc && matchesFilter (VObj f2) doc) /\
  (forall e, empty_logical e = true -> matchesFilter (VObj (e :: f2)) doc = true).
Proof.
  split.
  - induction f1 as [|e f1 IH]; [reflexivity|].
    cbn [existsb app]. intros H. apply orb_false_iff in H as [He Hrest].
    rewrite (matchesFilter_cons e (f1 ++ f2)), (matchesFilter_cons e f1) by assumption.
    rewrite IH by assumption. apply andb_assoc.
  - intros [key condition]. unfold empty_logical. cbn [fst snd].
    destruct condition as [| | | | | | |[|sub subs]|cfs|]; try discriminate.
    intros H. cbn [matchesFilter].
    destruct (String.eqb key "$or"); [reflexivity|].
    destruct (String.eqb key "$and"); [reflexivity|].
    destruct (String.eqb key "$nor"); [reflexivity | discriminate].
Qed.

Lemma filter_entries_are_conjoined_witness :
  matchesFilter (VObj ([("name", VStr "A")] ++ [("age", VNum 30)])) person
  = matchesFilter (VObj [("name", VStr "A")]) person &&
    matchesFilter (VObj [("age", VNum 30)]) person.
Proof.
  apply (proj1 (filter_entries_are_conjoined
                  [("name", VStr "A")] [("age", VNum 30)] person)).
  reflexivity.
Defined.

(** ** Writing a document and reading it back *)

Section ReadBack.

Variable coll : string.

Lemma atomic_true checks ms s s' :
  Kv.atomic checks ms s = (true, s') ->
  forallb (Kv.check_holds s) checks = true /\
  s' = snd (Kv.atomic checks ms s).
Proof.
  intros H. split; [|by rewrite H].
  unfold Kv.atomic in H. destruct (forallb _ checks); [reflexivity | discriminate].
Qed.

(** What a successful [insertOne] has done. *)
Lemma insertOne_inv fresh fs s r s' :
  insertOne coll fresh (VObj fs) s = (Ok r, s') ->
  exists idStr s2,
    insertedId r = (if truthy (prop_get (VObj fs) "_id")
                    then prop_get (VObj fs) "_id" else VOid fresh) /\
    idToString (insertedId r) = Ok idStr /\
    forM (Kv.list_prefix s (indexPrefix coll))
         (indexUnder coll (VObj (obj_set fs "_id" (insertedId r)))) s = (Ok tt, s2) /\
    Kv.atomic [([KStr coll; KStr idStr], None)]
      [Kv.Set_ [KStr coll; KStr idStr] (VObj (obj_set fs "_id" (VStr idStr)))] s2
    = (true, s').
Proof.
  intros Hrun. unfold insertOne in Hrun.
  set (_id := if truthy (prop_get (VObj fs) "_id") then prop_get (VObj fs) "_id"
              else VOid fresh) in Hrun.
  apply bind_Ok in Hrun as (key & s1 & Hkey & Hrun).
  apply reading_Ok in Hkey as [Hkey ->].
  apply bind_Ok in Hrun as (idStr & s1 & Hid & Hrun).
  apply reading_Ok in Hid as [Hid ->].
  unfold getKvKey in Hkey. rewrite Hid in Hkey. cbn in Hkey. injection Hkey as <-.
  apply bind_Ok in Hrun as (existing & s1 & Hex & Hrun).
  apply reading_Ok in Hex as [_ ->].
  destruct (match existing with Some e => truthy (Kv.value_of e) | None => false end);
    [discriminate|].
  apply bind_Ok in Hrun as (infos & s1 & Hinfos & Hrun).
  apply reading_Ok in Hinfos as [[= <-] ->].
  apply bind_Ok in Hrun as ([] & s2 & Hloop & Hrun).
  apply bind_Ok in Hrun as (ok & s3 & Hcommit & Hrun).
  apply commit_Ok in Hcommit as [_ Hat].
  destruct ok; [|discriminate]. cbn in Hrun. injection Hrun as <- <-.
  exists idStr, s2. cbn [insertedId]. auto.
Qed.

Lemma findOne_at_id s ffs X e stored :
  obj_get ffs "_id" = Some (VOid X) ->
  Kv.get s [KStr coll; KStr X] = Some e ->
  Kv.value_of e = VObj stored ->
  obj_get stored "_id" = Some (VStr X) ->
  is_hex24 X = true ->
  string_map lower_hex X = X ->
  findOne coll s (VObj ffs) noOptions
  = Ok (Some (VObj (obj_set stored "_id" (VOid X)))).
Proof.
  intros Hid Hget Hv Hs Hhex Hlower. unfold findOne. rewrite Hid.
  unfold findById. rewrite Hget, Hv. cbn [truthy negb].
  rewrite (reviveId_stored _ _ Hs Hhex). cbn [obind]. by rewrite Hlower.
Qed.

(** X12: a document that holds no [ObjectId] besides its [_id] is, once
    inserted with [insertOne], what [findOne] returns for its id: the
    document given, with [_id] set to the id reported.  (An [ObjectId] in
    another field is stored as a plain object and is not read back as it
    was.) *)
Theorem insertOne_then_findOne
    (fresh : string) (fs ffs : list (string * value)) (s s' : Kv.store)
    (r : InsertOneResult) (X : string) :
  Kv.storable (VObj (obj_set fs "_id" (VStr X))) = true ->
  insertOne coll fresh (VObj fs) s = (Ok r, s') ->
  insertedId r = VOid X ->
  is_hex24 X = true ->
  string_map lower_hex X = X ->
  obj_get ffs "_id" = Some (VOid X) ->
  findOne coll s' (VObj ffs) noOptions
  = Ok (Some (VObj (obj_set fs "_id" (VOid X)))).
Proof.
  intros _ Hrun HX Hhex Hlower Hfilter.
  apply insertOne_inv in Hrun as (idStr & s2 & _ & Hid & _ & Hat).
  rewrite HX in Hid. cbn in Hid. injection Hid as <-.
  apply atomic_true in Hat as [Hchecks ->].
  rewrite (findOne_at_id _ ffs X _ (obj_set fs "_id" (VStr X)) Hfilter
             (get_set_same _ _ _ _ Hchecks) eq_refl
             (obj_get_set_same _ _ _) Hhex Hlower).
  by rewrite obj_set_set.
Qed.

(** X13: [insertOne] under an id that already holds a document fails with
    "Duplicate key error" and leaves the store as it was. *)
Theorem insertOne_rejects_existing_id
    (fresh : string) (fs : list (string * value)) (s : Kv.store)
    (X : string) (e : Kv.entry) :
  obj_get fs "_id" = Some (VOid X) \/
  (truthy (prop_get (VObj fs) "_id") = false /\ X = fresh) ->
  Kv.get s [KStr coll; KStr X] = Some e ->
  truthy (Kv.value_of e) = true ->
  insertOne coll fresh (VObj fs) s = (Throw "Duplicate key error", s).
Proof.
  intros Hid Hget Htruthy.
  assert (Htarget :
            (if truthy (prop_get (VObj fs) "_id") then prop_get (VObj fs) "_id"
             else VOid fresh) = VOid X).
  { destruct Hid as [Hid | [Hfalsy ->]].
    - unfold prop_get. rewrite Hid. reflexivity.
    - by rewrite Hfalsy. }
  unfold insertOne, bind, reading, throw. rewrite Htarget.
  cbn [getKvKey idToString obind]. by rewrite Hget, Htruthy.
Qed.

(** X14: after [deleteOne] by id the document is gone: [findOne] for the id
    returns [null], and every other key keeps its entry. *)
Theorem deleteOne_then_findOne
    (ffs stored : list (string * value)) (s : Kv.store) (X : string) (e : Kv.entry) :
  obj_get ffs "_id" = Some (VOid X) ->
  Kv.get s [KStr coll; KStr X] = Some e ->
  Kv.value_of e = VObj stored ->
  obj_get stored "_id" = Some (VStr X) ->
  is_hex24 X = true ->
  string_map lower_hex X = X ->
  fst (deleteOne coll (VObj ffs) s) = Ok (mkDeleteResult true 1) /\
  findOne coll (run (deleteOne coll (VObj ffs)) s) (VObj ffs) noOptions = Ok None /\
  forall k, k <> [KStr coll; KStr X] ->
            Kv.get (run (deleteOne coll (VObj ffs)) s) k = Kv.get s k.
Proof.
  intros Hid Hget Hv Hs Hhex Hlower.
  unfold run, deleteOne, bind, reading.
  rewrite (findOne_at_id s ffs X e stored Hid Hget Hv Hs Hhex Hlower).
  unfold prop_get. rewrite obj_get_set_same. cbn [getKvKey idToString obind].
  rewrite commit_storable by reflexivity.
  assert (Hchecks : forallb (Kv.check_holds s)
                      [([KStr coll; KStr X], Kv.versionstamp <$> Kv.get s [KStr coll; KStr X])]
                    = true).
  { cbn. by rewrite check_holds_current. }
  pose proof (get_delete_same _ [KStr coll; KStr X] s Hchecks) as Hgone.
  pose proof (fun k => get_delete_other
                         [([KStr coll; KStr X], Kv.versionstamp <$> Kv.get s [KStr coll; KStr X])]
                         [KStr coll; KStr X] s k) as Hother.
  unfold Kv.atomic in *. rewrite Hchecks in *. cbn [fst snd negb ret] in *.
  split; [reflexivity|]. split; [|exact Hother].
  unfold findOne. rewrite Hid. unfold findById. by rewrite Hgone.
Qed.

(** X15: [updateOne] by id stores the updated document under the same id,
    whatever the update does to [_id]: when the updated document holds no
    [ObjectId] besides its [_id], [findOne] for the id then returns the
    result of the update operators with [_id] put back, the counts are 1 and
    1, and every other key keeps its entry. *)
Theorem updateOne_then_findOne
    (fresh : string) (ffs stored : list (string * value)) (update updated : value)
    (upsert : bool) (s : Kv.store) (X : string) (e : Kv.entry) :
  obj_get ffs "_id" = Some (VOid X) ->
  Kv.get s [KStr coll; KStr X] = Some e ->
  Kv.value_of e = VObj stored ->
  obj_get stored "_id" = Some (VStr X) ->
  is_hex24 X = true ->
  string_map lower_hex X = X ->
  applyUpdateOperators (VObj (obj_set stored "_id" (VOid X))) update = Ok updated ->
  Kv.storable (VObj (obj_set (entries_of updated) "_id" (VStr X))) = true ->
  fst (updateOne coll fresh (VObj ffs) update upsert s)
    = Ok (mkUpdateResult 1 1 VNull 0 true) /\
  findOne coll (run (updateOne coll fresh (VObj ffs) update upsert) s)
    (VObj ffs) noOptions
    = Ok (Some (VObj (obj_set (entries_of updated) "_id" (VOid X)))) /\
  forall k, k <> [KStr coll; KStr X] ->
            Kv.get (run (updateOne coll fresh (VObj ffs) update upsert) s) k
            = Kv.get s k.
Proof.
  intros Hid Hget Hv Hs Hhex Hlower Hupd Hstorable.
  unfold run, updateOne, bind, reading.
  rewrite (findOne_at_id s ffs X e stored Hid Hget Hv Hs Hhex Hlower).
  rewrite Hupd. unfold prop_get. rewrite obj_get_set_same.
  cbn [getKvKey idToString obind].
  rewrite commit_storable
    by (cbn [forallb Kv.storable_mutation]; by rewrite Hstorable).
  set (checks := [([KStr coll; KStr X], Kv.versionstamp <$> Kv.get s [KStr coll; KStr X])]).
  set (doc' := VObj (obj_set (entries_of updated) "_id" (VStr X))).
  assert (Hchecks : forallb (Kv.check_holds s) checks = true).
  { cbn. by rewrite check_holds_current. }
  pose proof (get_set_same checks [KStr coll; KStr X] doc' s Hchecks) as Hnew.
  pose proof (fun k => get_set_other checks [KStr coll; KStr X] doc' s k) as Hother.
  unfold Kv.atomic in *. rewrite Hchecks in *. cbn [fst snd negb ret] in *.
  split; [reflexivity|]. split; [|exact Hother].
  rewrite (findOne_at_id _ ffs X _ (obj_set (entries_of updated) "_id" (VStr X))
             Hid Hnew eq_refl (obj_get_set_same _ _ _) Hhex Hlower).
  by rewrite obj_set_set.
Qed.

End ReadBack.

Lemma insertOne_then_findOne_witness :
  findOne "users" users1 (VObj [("_id", VOid idA)]) noOptions = Ok (Some aliceStored).
Proof.
  apply (insertOne_then_findOne "users" idA (entries_of alice) [("_id", VOid idA)]
           users0 users1 (mkInsertOneResult true (VOid idA)) idA);
    [reflexivity | apply with_run; vm_compute; reflexivity | reflexivity..].
Defined.

Lemma insertOne_rejects_existing_id_witness :
  insertOne "users" idC (VObj [("_id", VOid idA); ("name", VStr "Z")]) users2
  = (Throw "Duplicate key error", users2).
Proof.
  apply (insertOne_rejects_existing_id "users" idC
           [("_id", VOid idA); ("name", VStr "Z")] users2 idA
           (Kv.mkEntry (VObj (obj_set (entries_of alice) "_id" (VStr idA))) 3)).
  - left. reflexivity.
  - vm_compute. reflexivity.
  - reflexivity.
Defined.

Lemma deleteOne_then_findOne_witness :
  fst (deleteOne "users" (VObj [("_id", VOid idA)]) users2)
    = Ok (mkDeleteResult true 1) /\
  findOne "users" (run (deleteOne "users" (VObj [("_id", VOid idA)])) users2)
    (VObj [("_id", VOid idA)]) noOptions = Ok None /\
  forall k, k <> [KStr "users"; KStr idA] ->
            Kv.get (run (deleteOne "users" (VObj [("_id", VOid idA)])) users2) k
            = Kv.get users2 k.
Proof.
  apply (deleteOne_then_findOne "users" [("_id", VOid idA)]
           (obj_set (entries_of alice) "_id" (VStr idA)) users2 idA
           (Kv.mkEntry (VObj (obj_set (entries_of alice) "_id" (VStr idA))) 3));
    vm_compute; reflexivity.
Defined.

Lemma updateOne_then_findOne_witness :
  fst (updateOne "users" idC (VObj [("_id", VOid idA)])
         (VObj [("$set", VObj [("age", VNum 11)])]) false users2)
    = Ok (mkUpdateResult 1 1 VNull 0 true) /\
  findOne "users"
    (run (updateOne "users" idC (VObj [("_id", VOid idA)])
            (VObj [("$set", VObj [("age", VNum 11)])]) false) users2)
    (VObj [("_id", VOid idA)]) noOptions
    = Ok (Some (VObj [("name", VStr "A"); ("age", VNum 11);
                      ("tags", VArr [VStr "a"]); ("_id", VOid idA)])).
Proof.
  pose proof (updateOne_then_findOne "users" idC [("_id", VOid idA)]
                (obj_set (entries_of alice) "_id" (VStr idA))
                (VObj [("$set", VObj [("age", VNum 11)])])
                (VObj [("name", VStr "A"); ("age", VNum 11);
                       ("tags", VArr [VStr "a"]); ("_id", VOid idA)])
                false users2 idA
                (Kv.mkEntry (VObj (obj_set (entries_of alice) "_id" (VStr idA))) 3)
                eq_refl) as H.
  destruct H as (H1 & H2 & _); try (vm_compute; reflexivity).
  split; [exact H1 | exact H2].
Defined.


(** ** What [find] returns *)

Section FindResults.

Variable coll : string.
Variable s : Kv.store.
Variable filter : value.

Lemma applyFindOptions_slice results options :
  projection options = None ->
  applyFindOptions results options = Ok (slice_options options results).
Proof. unfold applyFindOptions. by intros ->. Qed.

Lemma findWithoutIndex_slice options :
  projection options = None ->
  findWithoutIndex coll s filter options
  = (docs <~ findWithoutIndex coll s filter noOptions ;;
     Ok (slice_options options docs)).
Proof.
  intros Hp. unfold findWithoutIndex.
  destruct (foldO _ _ _) as [results| |]; cbn [obind]; try reflexivity.
  rewrite (applyFindOptions_slice _ _ Hp). reflexivity.
Qed.

Lemma findUsingIndex_slice indexInfo options :
  projection options = None ->
  findUsingIndex coll s indexInfo filter options
  = (docs <~ findUsingIndex coll s indexInfo filter noOptions ;;
     Ok (slice_options options docs)).
Proof.
  intros Hp. unfold findUsingIndex.
  destruct (infoSpec indexInfo) as [spec| |]; cbn [obind]; try reflexivity.
  destruct (specFields spec) as [[|field [|second rest]]| |]; cbn [obind];
    try reflexivity.
  - destruct (foldO _ _ _) as [acc| |]; cbn [obind]; try reflexivity.
    by rewrite (applyFindOptions_slice _ _ Hp).
  - destruct (isRangeQuery _).
    + unfold findUsingIndexRange.
      destruct (foldO _ _ _) as [acc| |]; cbn [obind]; try reflexivity.
      * by rewrite (applyFindOptions_slice _ _ Hp).
      * by apply findWithoutIndex_slice.
    + destruct (getQueryValue _); cbn [obind]; try reflexivity.
      destruct (foldO _ _ _) as [acc| |]; cbn [obind]; try reflexivity.
      by rewrite (applyFindOptions_slice _ _ Hp).
  - destruct (foldO _ _ _) as [acc| |]; cbn [obind]; try reflexivity.
    by rewrite (applyFindOptions_slice _ _ Hp).
Qed.

Lemma find_slice options :
  projection options = None ->
  find coll s filter options
  = (docs <~ find coll s filter noOptions ;; Ok (slice_options options docs)).
Proof.
  intros Hp. unfold find.
  destruct (findUsableIndex coll s filter) as [[indexInfo|]| |]; cbn [obind];
    try reflexivity.
  - by apply findUsingIndex_slice.
  - by apply findWithoutIndex_slice.
Qed.

Lemma find_sound docs :
  find coll s filter noOptions = Ok docs ->
  Forall (stored_match coll s filter) docs.
Proof.
  unfold find.
  destruct (findUsableIndex coll s filter) as [[indexInfo|]| |]; cbn [obind];
    try discriminate.
  - apply findUsingIndex_sound.
  - apply findWithoutIndex_sound.
Qed.

(** X16: [skip] and [limit] are applied to the documents the plan has
    gathered: without a projection, [find] with options returns the documents
    of [find] without options from which [cursor.skip] and, for a positive
    limit, [cursor.limit] have taken their part; a limit of 0 is no limit. *)
Theorem find_options_take_a_slice (options : FindOptions) :
  projection options = None ->
  find coll s filter options
  = (docs <~ find coll s filter noOptions ;;
     let skipped :=
       Cursor.skip (match skip options with Some n => n | None => 0%nat end) docs in
     Ok (match limit options with
         | Some (S n) => Cursor.limit (S n) skipped
         | _ => skipped
         end)).
Proof.
  intros Hp. rewrite (find_slice _ Hp).
  destruct (find coll s filter noOptions); reflexivity.
Qed.

(** X17: whatever the plan and the [skip] and [limit] options, every document
    [find] returns is a stored document of the collection that the filter
    accepts, and there are at most [limit] of them when the limit is
    positive. *)
Theorem find_returns_stored_matches (options : FindOptions) (docs : list value) :
  projection options = None ->
  find coll s filter options = Ok docs ->
  Forall (stored_match coll s filter) docs /\
  forall n, limit options = Some (S n) -> (List.length docs <= S n)%nat.
Proof.
  intros Hp. rewrite (find_slice _ Hp).
  destruct (find coll s filter noOptions) as [all| |] eqn:Hall; cbn [obind];
    try discriminate.
  intros [= <-]. apply find_sound in Hall. unfold slice_options. split.
  - destruct (limit options) as [[|n]|];
      try apply Forall_take; by apply Forall_drop.
  - intros n ->. apply firstn_le_length.
Qed.

(** X18: with no index declared, [find] returns exactly the stored documents
    of the collection that the filter accepts. *)
Theorem find_without_indexes_is_exact (all : list value) (doc : value) :
  Kv.list_prefix s (indexPrefix coll) = [] ->
  find coll s filter noOptions = Ok all ->
  (In doc all <-> stored_match coll s filter doc).
Proof.
  intros Hnone. unfold find, findUsableIndex. rewrite Hnone. cbn [firstUsable obind].
  intros Hscan. split.
  - intros Hin. pose proof (findWithoutIndex_sound _ _ _ _ Hscan) as Hall.
    rewrite Forall_forall in Hall. apply Hall. by apply list_elem_of_In.
  - by apply findWithoutIndex_complete.
Qed.

End FindResults.

Lemma find_options_take_a_slice_witness :
  find "members" members (VObj [("status", VStr "active")])
    (mkFindOptions (Some 1%nat) (Some 1%nat) None)
  = (docs <~ find "members" members (VObj [("status", VStr "active")]) noOptions ;;
     Ok (Cursor.limit 1 (Cursor.skip 1 docs))).
Proof.
  apply (find_options_take_a_slice "members" members
           (VObj [("status", VStr "active")])
           (mkFindOptions (Some 1%nat) (Some 1%nat) None)).
  reflexivity.
Defined.

Lemma find_returns_stored_matches_witness :
  Forall (stored_match "users" users2 (VObj [("age", VNum 10)])) [aliceStored] /\
  forall n, Some 1%nat = Some (S n) -> (List.length [aliceStored] <= S n)%nat.
Proof.
  apply (find_returns_stored_matches "users" users2 (VObj [("age", VNum 10)])
           (mkFindOptions (Some 1%nat) None None) [aliceStored]).
  - reflexivity.
  - vm_compute. reflexivity.
Defined.

Lemma find_without_indexes_is_exact_witness :
  In (VObj [("name", VStr "Jane"); ("age", VNum 25); ("email", VStr "jane@test.com");
            ("status", VStr "active"); ("_id", VOid id2)])
     [VObj [("name", VStr "Jane"); ("age", VNum 25); ("email", VStr "jane@test.com");
            ("status", VStr "active"); ("_id", VOid id2)]] <->
  stored_match "members" members (VObj [("age", VNum 25)])
    (VObj [("name", VStr "Jane"); ("age", VNum 25); ("email", VStr "jane@test.com");
           ("status", VStr "active"); ("_id", VOid id2)]).
Proof.
  apply (find_without_indexes_is_exact "members" members (VObj [("age", VNum 25)])).
  - vm_compute. reflexivity.
  - vm_compute. reflexivity.
Defined.

(** ** No document twice *)

Section NoDuplicates.

Variable coll : string.
Variable s : Kv.store.
Variable filter : value.

Lemma newObjectId_Ok x y : newObjectId x = Ok y -> exists h, y = VOid h.
Proof.
  destruct x; cbn; try discriminate.
  - destruct (is_hex24 s0); [|discriminate]. intros [= <-]. eauto.
  - intros [= <-]. eauto.
Qed.

Lemma reviveId_id stored doc :
  reviveId stored = Ok doc -> exists h, prop_get doc "_id" = VOid h.
Proof.
  destruct stored; cbn; try discriminate.
  destruct (newObjectId _) as [oid| |] eqn:Hoid; cbn; try discriminate.
  intros [= <-]. apply newObjectId_Ok in Hoid as [h ->].
  exists h. cbn. by rewrite obj_get_set_same.
Qed.

Lemma findById_id hex doc :
  findById coll s hex = Ok (Some doc) -> exists h, prop_get doc "_id" = VOid h.
Proof.
  unfold findById. destruct (Kv.get s _) as [e|]; [|discriminate].
  destruct (negb _); [discriminate|].
  destruct (reviveId _) as [d| |] eqn:Hrev; cbn; try discriminate.
  intros [= <-]. by apply reviveId_id in Hrev.
Qed.

Lemma includes_false l x : includes l x = false -> ~ In x l.
Proof.
  unfold includes. intros Hf Hin.
  assert (existsb (String.eqb x) l = true).
  { apply existsb_exists. exists x. split; [assumption | apply String.eqb_refl]. }
  congruence.
Qed.


Lemma collectCandidate_seen_once acc entry acc' :
  seen_once acc ->
  collectCandidate coll s filter acc entry = Ok acc' ->
  seen_once acc'.
Proof.
  intros [Hnd Hids]. unfold collectCandidate.
  destruct (entryId entry); cbn; try discriminate.
  destruct (newObjectId _); cbn; try discriminate.
  destruct (idToString _) as [hex| |]; cbn; try discriminate.
  destruct (findById coll s hex) as [[doc|]| |] eqn:Hfind; cbn; try discriminate;
    [|by intros [= <-]].
  destruct (matchesFilter filter doc); [|by intros [= <-]].
  apply findById_id in Hfind as [h Hh].
  unfold addUniqueDoc. rewrite Hh. cbn.
  destruct (includes (fst acc) h) eqn:Hinc; intros [= <-]; [by split|].
  split; cbn [fst snd].
  - apply NoDup_cons. split; [|assumption].
    intros Hin%list_elem_of_In. by apply includes_false in Hinc.
  - unfold ids_of in *. rewrite List.map_app, Hids. cbn. rewrite Hh.
    by rewrite List.map_app.
Qed.

Lemma seen_once_NoDup acc : seen_once acc -> NoDup (ids_of (snd acc)).
Proof.
  intros [Hnd ->]. apply NoDup_fmap_2; [by intros ? ? [= ->]|].
  by rewrite <- Permutation_rev.
Qed.

Lemma candidates_seen_once l acc :
  foldO (collectCandidate coll s filter) l ([], []) = Ok acc -> seen_once acc.
Proof.
  apply (foldO_invariant seen_once).
  - intros a x a' Ha Hstep. eapply collectCandidate_seen_once; eassumption.
  - split; [apply NoDup_nil_2 | reflexivity].
Qed.

(** X19: an index-backed plan returns no document twice: the ids of the
    documents it returns are pairwise different, unless the range scan
    failed and the plan fell back on the full scan. *)
Theorem index_plan_returns_each_document_once (indexInfo : value) (docs : list value) :
  findUsingIndex coll s indexInfo filter noOptions = Ok docs ->
  NoDup (ids_of docs) \/ findWithoutIndex coll s filter noOptions = Ok docs.
Proof.
  unfold findUsingIndex.
  destruct (infoSpec indexInfo) as [spec| |]; cbn; try discriminate.
  destruct (specFields spec) as [[|field [|second rest]]| |]; cbn; try discriminate.
  - destruct (foldO _ _ _) as [acc| |] eqn:Hscan; cbn; try discriminate.
    intros [= <-]. left. eapply seen_once_NoDup, candidates_seen_once; eassumption.
  - destruct (isRangeQuery _).
    + unfold findUsingIndexRange.
      destruct (foldO _ _ _) as [acc| |] eqn:Hscan; [| |discriminate].
      * rewrite applyFindOptions_none. intros [= <-]. left.
        apply seen_once_NoDup. revert Hscan.
        apply (foldO_invariant seen_once).
        -- intros a x a' Ha. destruct (inRange _ _).
           ++ intros Hstep. eapply collectCandidate_seen_once; eassumption.
           ++ by intros [= <-].
        -- split; [apply NoDup_nil_2 | reflexivity].
      * intros Hfull. by right.
    + destruct (getQueryValue _); cbn; try discriminate.
      destruct (foldO _ _ _) as [acc| |] eqn:Hscan; cbn; try discriminate.
      intros [= <-]. left. eapply seen_once_NoDup, candidates_seen_once; eassumption.
  - destruct (foldO _ _ _) as [acc| |] eqn:Hscan; cbn; try discriminate.
    intros [= <-]. left. eapply seen_once_NoDup, candidates_seen_once; eassumption.
Qed.

End NoDuplicates.

Lemma index_plan_returns_each_document_once_witness :
  NoDup (ids_of [aliceStored]) \/
  findWithoutIndex "users" users2 (VObj [("age", VNum 10)]) noOptions = Ok [aliceStored].
Proof.
  apply (index_plan_returns_each_document_once "users" users2
           (VObj [("age", VNum 10)]) ageIndexInfo [aliceStored]).
  vm_compute. reflexivity.
Defined.

(** ** The exact-match plan misses no indexed document *)

Section ExactMatch.

Variable coll : string.
Variable s : Kv.store.
Variable filter : value.

Lemma ids_agree_findById hex d :
  ids_agree coll s = true ->
  findById coll s hex = Ok (Some d) ->
  prop_get d "_id" = VOid hex.
Proof.
  intros Hagree Hfind. apply findById_Some in Hfind as (e & Hin & Hrev).
  unfold ids_agree in Hagree. rewrite forallb_forall in Hagree.
  specialize (Hagree _ Hin). cbn [fst snd] in Hagree. rewrite Hrev in Hagree.
  destruct (prop_get d "_id"); try discriminate.
  apply String.eqb_eq in Hagree. by subst.
Qed.

Lemma collectCandidate_gathered acc entry acc' :
  ids_agree coll s = true ->
  gathered coll s acc ->
  collectCandidate coll s filter acc entry = Ok acc' ->
  gathered coll s acc' /\ (forall d, In d (snd acc) -> In d (snd acc')).
Proof.
  intros Hagree Hacc. unfold collectCandidate.
  destruct (entryId entry); cbn; try discriminate.
  destruct (newObjectId _); cbn; try discriminate.
  destruct (idToString _) as [hex| |]; cbn; try discriminate.
  destruct (findById coll s hex) as [[doc|]| |] eqn:Hfind; cbn; try discriminate;
    [|by intros [= <-]].
  destruct (matchesFilter filter doc); [|by intros [= <-]].
  unfold addUniqueDoc. rewrite (ids_agree_findById _ _ Hagree Hfind). cbn.
  destruct (includes (fst acc) hex) eqn:Hinc; intros [= <-]; [by split|].
  cbn [fst snd]. split.
  - intros h d Hh Hd. apply in_or_app. unfold includes in Hh. cbn in Hh.
    destruct (String.eqb h hex) eqn:E.
    + apply String.eqb_eq in E. subst h. rewrite Hfind in Hd.
      injection Hd as <-. right. by left.
    + left. by apply (Hacc h d).
  - intros d Hd. apply in_or_app. by left.
Qed.

Lemma candidates_gathered l :
  ids_agree coll s = true ->
  forall acc r,
    gathered coll s acc ->
    foldO (collectCandidate coll s filter) l acc = Ok r ->
    gathered coll s r /\ (forall d, In d (snd acc) -> In d (snd r)).
Proof.
  intros Hagree. induction l as [|x l IH]; intros acc r Hacc Hfold; cbn in Hfold.
  - injection Hfold as <-. by split.
  - destruct (collectCandidate coll s filter acc x) as [acc'| |] eqn:Hstep;
      cbn in Hfold; try discriminate.
    destruct (collectCandidate_gathered _ _ _ Hagree Hacc Hstep) as [Hacc' Hmono].
    destruct (IH _ _ Hacc' Hfold) as [Hr Hmono']. split; [assumption | auto].
Qed.

(** When the scan meets an entry that names a stored document the filter
    accepts, the document is among those gathered. *)
Lemma candidates_complete l entry idStr doc :
  ids_agree coll s = true ->
  In entry l ->
  names entry idStr ->
  is_hex24 idStr = true ->
  string_map lower_hex idStr = idStr ->
  findById coll s idStr = Ok (Some doc) ->
  matchesFilter filter doc = true ->
  forall acc r,
    gathered coll s acc ->
    foldO (collectCandidate coll s filter) l acc = Ok r ->
    In doc (snd r).
Proof.
  intros Hagree Hin Hnames Hhex Hlower Hfind Hmatch.
  induction l as [|x l IH]; [destruct Hin|]. intros acc r Hacc Hfold.
  cbn in Hfold.
  destruct (collectCandidate coll s filter acc x) as [acc'| |] eqn:Hstep;
    cbn in Hfold; try discriminate.
  destruct (collectCandidate_gathered _ _ _ Hagree Hacc Hstep) as [Hacc' Hmono].
  destruct Hin as [-> | Hin]; [|by apply (IH Hin acc')].
  destruct (candidates_gathered _ Hagree _ _ Hacc' Hfold) as [_ Hkeep].
  apply Hkeep. clear Hfold Hkeep IH.
  unfold collectCandidate, entryId in Hstep. unfold names in Hnames.
  rewrite Hnames in Hstep. cbn in Hstep. rewrite Hhex in Hstep. cbn in Hstep.
  rewrite Hlower, Hfind in Hstep. cbn in Hstep. rewrite Hmatch in Hstep.
  unfold addUniqueDoc in Hstep.
  rewrite (ids_agree_findById _ _ Hagree Hfind) in Hstep. cbn in Hstep.
  destruct (includes (fst acc) idStr) eqn:Hinc; injection Hstep as <-.
  - by apply (Hacc idStr doc).
  - cbn. apply in_or_app. right. by left.
Qed.

End ExactMatch.

(** X20: the exact-match plan over a single-field index misses no indexed
    document: a stored document that the filter accepts, and that has an
    index entry under the value the filter asks for, is among the documents
    the plan returns. *)
Theorem exact_match_plan_finds_indexed_documents
    (coll : string) (s : Kv.store) (indexInfo spec lit doc : value)
    (field idStr : string) (fs : list (string * value)) (docs : list value) :
  infoSpec indexInfo = Ok spec ->
  specFields spec = Ok [field] ->
  obj_get fs field = Some lit ->
  is_scalar lit = true ->
  ids_agree coll s = true ->
  is_hex24 idStr = true ->
  string_map lower_hex idStr = idStr ->
  findById coll s idStr = Ok (Some doc) ->
  matchesFilter (VObj fs) doc = true ->
  names_document s (indexEntryKey coll field (serializeIndexValue lit) idStr) idStr ->
  findUsingIndex coll s indexInfo (VObj fs) noOptions = Ok docs ->
  In doc docs.
Proof.
  intros Hspec Hfields Hlit Hscalar Hagree Hhex Hlower Hfind Hmatch Hentry.
  unfold findUsingIndex. rewrite Hspec. cbn [obind]. rewrite Hfields. cbn [obind].
  unfold prop_get. rewrite Hlit.
  assert (Hplain : isRangeQuery lit = false /\ getQueryValue lit = Ok lit).
  { destruct lit; try discriminate Hscalar; split; reflexivity. }
  destruct Hplain as [-> ->]. cbn [obind].
  destruct (foldO _ _ _) as [acc| |] eqn:Hscan; cbn [obind]; try discriminate.
  rewrite applyFindOptions_none. intros [= <-].
  unfold names_document in Hentry.
  destruct (Kv.get s _) as [ie|] eqn:Hget; [|discriminate].
  cbn in Hentry. injection Hentry as Hie.
  apply (candidates_complete coll s (VObj fs)
           (Kv.list_prefix s
              [KStr coll; KStr "__idx__"; KStr field; serializeIndexValue lit])
           (indexEntryKey coll field (serializeIndexValue lit) idStr, ie)
           idStr doc Hagree) with (acc := ([], [])); try assumption.
  - apply elem_of_list_prefix. split; [assumption|].
    cbn. by rewrite !bool_decide_eq_true_2.
  - intros h d Hh. discriminate.
Qed.

Lemma exact_match_plan_finds_indexed_documents_witness :
  findUsingIndex "users" users2 ageIndexInfo (VObj [("age", VNum 10)]) noOptions
    = Ok [aliceStored] /\
  In aliceStored [aliceStored].
Proof.
  split; [vm_compute; reflexivity|].
  apply (exact_match_plan_finds_indexed_documents "users" users2 ageIndexInfo
           (VObj [("key", VObj [("age", VNum 1)])]) (VNum 10) aliceStored "age" idA
           [("age", VNum 10)] [aliceStored]);
    vm_compute; reflexivity.
Defined.

(** ** Counting *)

Section Counting.

Variable coll : string.
Variable s : Kv.store.






(** X22: with a limit, [countDocuments] lies between 0 and the limit; with a
    [skip] alone it is the number of matching documents minus [skip], a
    negative number when more are skipped than there are. *)
Theorem countDocuments_with_options (filter : value) (docs : list value) :
  find coll s filter noOptions = Ok docs ->
  (forall n skip_ c,
     countDocuments coll s filter (Some n) skip_ = Ok c -> 0 <= c <= Z.of_nat n) /\
  (forall k,
     countDocuments coll s filter None (Some k)
     = Ok (Z.of_nat (List.length docs) - Z.of_nat k)).
Proof.
  intros Hfind. unfold countDocuments. rewrite Hfind. cbn [obind]. split.
  - intros n skip_ c H. destruct skip_; injection H as <-; lia.
  - intros k. f_equal. lia.
Qed.

End Counting.


Lemma countDocuments_with_options_witness :
  countDocuments "users" users2 (VObj []) None (Some 5%nat) = Ok (2 - 5).
Proof.
  apply (proj2 (countDocuments_with_options "users" users2 (VObj [])
                  [VObj (obj_set (entries_of alice) "_id" (VOid idA));
                   VObj (obj_set (entries_of bob) "_id" (VOid idB))]
                  ltac:(vm_compute; reflexivity)) 5%nat).
Defined.

(** ** Declaring an index *)

Section DeclareIndex.

Variable coll : string.

Lemma indexOneField_inv doc options field s s' :
  indexOneField coll doc options field s = (Ok tt, s') ->
  exists idStr,
    idToString (prop_get doc "_id") = Ok idStr /\
    s' = snd (Kv.atomic []
                [Kv.Set_ (indexEntryKey coll field
                            (serializeIndexValue (getNestedValue doc field)) idStr)
                   (VObj [("_id", VStr idStr)])] s).
Proof.
  intros Hrun.
  destruct (idToString (prop_get doc "_id")) as [idStr| |] eqn:Hid.
  - exists idStr. split; [reflexivity|]. eapply indexOneField_writes; eassumption.
  - unfold indexOneField, bind, reading in Hrun. by rewrite Hid in Hrun.
  - unfold indexOneField, bind, reading in Hrun. by rewrite Hid in Hrun.
Qed.

(** An index entry is not disturbed by the entries written for any document:
    a write under the same key names the same document. *)
Lemma updateIndexEntry_keeps_entries doc spec options s s' field sv idStr :
  updateIndexEntry coll doc spec options s = (Ok tt, s') ->
  names_document s (indexEntryKey coll field sv idStr) idStr ->
  names_document s' (indexEntryKey coll field sv idStr) idStr.
Proof.
  intros Hrun. unfold updateIndexEntry in Hrun.
  apply bind_Ok in Hrun as (fields & s1 & Hf & Hrun).
  apply reading_Ok in Hf as [_ ->].
  apply (forM_preserves (indexOneField coll doc options)
           (fun t => names_document t (indexEntryKey coll field sv idStr) idStr))
    with (l := fields) (s := s); [|assumption].
  intros f t t' Hstep Ht.
  apply indexOneField_inv in Hstep as (idStr' & _ & ->).
  unfold names_document in *.
  destruct (decide (indexEntryKey coll field sv idStr
                    = indexEntryKey coll f
                        (serializeIndexValue (getNestedValue doc f)) idStr'))
    as [Heq|Hne].
  - rewrite Heq, get_set_same by reflexivity. cbn.
    unfold indexEntryKey in Heq. by injection Heq as _ _ ->.
  - by rewrite get_set_other.
Qed.

(** The entries written for a document leave every key that does not have
    five parts as it was. *)
Lemma updateIndexEntry_frame doc spec options s s' k :
  List.length k <> 5%nat ->
  updateIndexEntry coll doc spec options s = (Ok tt, s') ->
  Kv.get s' k = Kv.get s k.
Proof.
  intros Hlen Hrun. unfold updateIndexEntry in Hrun.
  apply bind_Ok in Hrun as (fields & s1 & Hf & Hrun).
  apply reading_Ok in Hf as [_ ->].
  apply (forM_preserves (indexOneField coll doc options)
           (fun t => Kv.get t k = Kv.get s k))
    with (l := fields) (s := s); [|assumption|reflexivity].
  intros f t t' Hstep Ht.
  apply indexOneField_inv in Hstep as (idStr' & _ & ->).
  rewrite get_set_other; [assumption|].
  intros ->. by apply Hlen.
Qed.

Lemma allDocuments_complete s documents k e doc :
  allDocuments coll s = Ok documents ->
  In (k, e) (Kv.list_prefix s [KStr coll]) ->
  List.length k = 2%nat ->
  reviveId (Kv.value_of e) = Ok doc ->
  In doc documents.
Proof.
  unfold allDocuments. intros Hall Hin Hlen Hrev.
  assert (Hgen : forall l acc r,
            foldO (fun docs entry =>
                     if (List.length (fst entry) =? 2)%nat then
                       doc <~ reviveId (Kv.value_of (snd entry)) ;;
                       Ok (docs ++ [doc])%list
                     else Ok docs) l acc = Ok r ->
            (forall d, In d acc -> In d r) /\ (In (k, e) l -> In doc r)).
  { induction l as [|x l IH]; intros acc r; cbn [foldO].
    - intros [= <-]. split; [auto | intros []].
    - destruct (if (List.length (fst x) =? 2)%nat then _ else _) as [acc'| |] eqn:Hx;
        cbn [obind]; try discriminate.
      intros Hrest. destruct (IH _ _ Hrest) as [Hmono Hhere].
      assert (Hacc : forall d, In d acc -> In d acc').
      { destruct (List.length (fst x) =? 2)%nat; [|by injection Hx as <-].
        destruct (reviveId (Kv.value_of (snd x))); cbn in Hx; try discriminate.
        injection Hx as <-. intros d Hd. apply in_or_app. auto. }
      split; [auto|].
      intros [-> | Hl]; [|auto].
      apply Hmono. cbn [fst snd] in Hx. rewrite Hlen, Hrev in Hx. cbn in Hx.
      injection Hx as <-. apply in_or_app. right. by left. }
  by apply (proj2 (Hgen _ _ _ Hall)).
Qed.

(** What a successful [createIndex] has done, and what a second call with
    the same arguments does on a store that holds the metadata entry. *)
Lemma createIndex_inv fieldOrSpec options s name s' :
  createIndex coll fieldOrSpec options s = (Ok name, s') ->
  exists documents,
    allDocuments coll s = Ok documents /\
    forM documents
      (fun doc => updateIndexEntry coll doc (normalizeIndexSpec fieldOrSpec) options)
      (Kv.set (indexPrefix coll ++ [KStr name])
         (VObj [("spec", normalizeIndexSpec fieldOrSpec); ("options", options)]) s)
    = (Ok tt, s') /\
    forall t e,
      Kv.get t (indexPrefix coll ++ [KStr name]) = Some e ->
      truthy (Kv.value_of e) = true ->
      createIndex coll fieldOrSpec options t = (Throw "Index already exists", t).
Proof.
  unfold createIndex.
  destruct (existsb _ (keys_of options)); [discriminate|].
  destruct (negb _ || _); [discriminate|].
  intros Hrun.
  apply bind_Ok in Hrun as (indexName & s1 & Hname & Hrun).
  apply reading_Ok in Hname as [Hname ->].
  apply bind_Ok in Hrun as (existing & s1 & Hex & Hrun).
  apply reading_Ok in Hex as [_ ->].
  destruct (match existing with Some e => truthy (Kv.value_of e) | None => false end);
    [discriminate|].
  apply bind_Ok in Hrun as (documents & s1 & Hdocs & Hrun).
  apply reading_Ok in Hdocs as [Hdocs ->].
  apply bind_Ok in Hrun as ([] & s1 & Hunique & Hrun).
  assert (s1 = s) as ->.
  { destruct (truthy (prop_get options "unique")).
    - by apply reading_Ok in Hunique as [_ ->].
    - unfold ret in Hunique. by injection Hunique as <-. }
  apply bind_Ok in Hrun as (ok & s2 & Hmeta & Hrun).
  apply commit_Ok in Hmeta as [_ Hmeta].
  assert (s2 = Kv.set (indexPrefix coll ++ [KStr indexName])
                 (VObj [("spec", normalizeIndexSpec fieldOrSpec); ("options", options)])
                 s) as ->.
  { unfold Kv.set. by rewrite Hmeta. }
  apply bind_Ok in Hrun as ([] & s3 & Hloop & Hrun).
  unfold ret in Hrun. injection Hrun as <- <-.
  exists documents. split; [assumption|]. split; [assumption|].
  intros t e Hget Htruthy. unfold bind at 1, reading at 1. rewrite Hname.
  unfold bind at 1, reading at 1. by rewrite Hget, Htruthy.
Qed.

Lemma forM_updateIndexEntry_frame documents spec options s s' k :
  List.length k <> 5%nat ->
  forM documents (fun doc => updateIndexEntry coll doc spec options) s = (Ok tt, s') ->
  Kv.get s' k = Kv.get s k.
Proof.
  intros Hlen Hrun.
  apply (forM_preserves (fun doc => updateIndexEntry coll doc spec options)
           (fun t => Kv.get t k = Kv.get s k))
    with (l := documents) (s := s); [|assumption|reflexivity].
  intros doc t t' Hstep Ht. rewrite <- Ht.
  eapply updateIndexEntry_frame; eassumption.
Qed.

Lemma createIndex_metadata fieldOrSpec options s name s' :
  createIndex coll fieldOrSpec options s = (Ok name, s') ->
  exists stamp,
    Kv.get s' (indexPrefix coll ++ [KStr name])
    = Some (Kv.mkEntry
              (VObj [("spec", normalizeIndexSpec fieldOrSpec); ("options", options)])
              stamp).
Proof.
  intros Hrun. apply createIndex_inv in Hrun as (documents & _ & Hloop & _).
  exists (N.succ (Kv.clock s)).
  assert (Hlen : List.length (indexPrefix coll ++ [KStr name]) <> 5%nat)
    by (cbn; lia).
  rewrite (forM_updateIndexEntry_frame _ _ _ _ _ _ Hlen Hloop).
  unfold Kv.set. by apply get_set_same.
Qed.

Lemma mapO_In {A B} (f : A -> outcome B) (l : list A) (ys : list B) (x : A) :
  mapO f l = Ok ys -> In x l -> exists y, f x = Ok y /\ In y ys.
Proof.
  revert ys. induction l as [|a l IH]; intros ys; cbn; [intros _ []|].
  destruct (f a) as [y| |] eqn:Hy; cbn; try discriminate.
  destruct (mapO f l) as [ys'| |]; cbn; try discriminate.
  intros [= <-] [<- | Hin].
  - exists y. split; [assumption | by left].
  - destruct (IH _ eq_refl Hin) as (y' & ? & ?). exists y'. split; [assumption | by right].
Qed.

(** X23: a successful [createIndex] stores the index under the name it
    returns: the metadata entry holds the normalized specification and the
    options, and [listIndexes] reports the index. *)
Theorem createIndex_registers_index
    (fieldOrSpec options : value) (s s' : Kv.store) (name : string) :
  createIndex coll fieldOrSpec options s = (Ok name, s') ->
  Kv.value_of <$> Kv.get s' [KStr "__indexes__"; KStr coll; KStr name]
  = Some (VObj [("spec", normalizeIndexSpec fieldOrSpec); ("options", options)]) /\
  forall indexes,
    listIndexes coll s' = Ok indexes ->
    In (mkIndexDescription (VStr name) (normalizeIndexSpec fieldOrSpec) options)
       indexes.
Proof.
  intros Hrun. apply createIndex_metadata in Hrun as [stamp Hget].
  cbn [indexPrefix app] in Hget. split; [by rewrite Hget|].
  intros indexes Hlist. unfold listIndexes in Hlist.
  assert (Hin : In ([KStr "__indexes__"; KStr coll; KStr name],
                    Kv.mkEntry
                      (VObj [("spec", normalizeIndexSpec fieldOrSpec);
                             ("options", options)]) stamp)
                   (Kv.list_prefix s' (indexPrefix coll))).
  { apply elem_of_list_prefix. split; [assumption|]. cbn.
    by rewrite !bool_decide_eq_true_2. }
  destruct (mapO_In _ _ _ _ Hlist Hin) as (d & Hd & Hdin).
  cbn in Hd. by injection Hd as <-.
Qed.

(** X24: declaring the same index a second time fails with "Index already
    exists" and leaves the store as it was. *)
Theorem createIndex_twice_is_rejected
    (fieldOrSpec options : value) (s s' : Kv.store) (name : string) :
  createIndex coll fieldOrSpec options s = (Ok name, s') ->
  createIndex coll fieldOrSpec options s' = (Throw "Index already exists", s').
Proof.
  intros Hrun. destruct (createIndex_metadata _ _ _ _ _ Hrun) as [stamp Hget].
  apply createIndex_inv in Hrun as (documents & _ & _ & Hagain).
  by apply (Hagain s' _ Hget).
Qed.

(** X25: [createIndex] builds the index for the documents already stored:
    for every document of the collection and every field of the index, the
    entry [(collection, "__idx__", field, value, id)] is in the store
    afterwards and names the document. *)
Theorem createIndex_indexes_stored_documents
    (fieldOrSpec options : value) (s s' : Kv.store) (name : string)
    (fields : list string) (k : kv_key) (e : Kv.entry) (doc : value)
    (field idStr : string) :
  createIndex coll fieldOrSpec options s = (Ok name, s') ->
  specFields (normalizeIndexSpec fieldOrSpec) = Ok fields ->
  In (k, e) (Kv.list_prefix s [KStr coll]) ->
  List.length k = 2%nat ->
  reviveId (Kv.value_of e) = Ok doc ->
  In field fields ->
  idToString (prop_get doc "_id") = Ok idStr ->
  names_document s'
    (indexEntryKey coll field (serializeIndexValue (getNestedValue doc field)) idStr)
    idStr.
Proof.
  intros Hrun Hfields Hin Hlen Hrev Hfield Hid.
  apply createIndex_inv in Hrun as (documents & Hdocs & Hloop & _).
  pose proof (allDocuments_complete _ _ _ _ _ Hdocs Hin Hlen Hrev) as Hdoc.
  pose proof (forM_establishes
                (fun doc => updateIndexEntry coll doc (normalizeIndexSpec fieldOrSpec) options)
                (fun doc t =>
                   forall field idStr,
                     In field fields ->
                     idToString (prop_get doc "_id") = Ok idStr ->
                     names_document t
                       (indexEntryKey coll field
                          (serializeIndexValue (getNestedValue doc field)) idStr)
                       idStr)) as Hall.
  assert (Hest : forall d t t',
             updateIndexEntry coll d (normalizeIndexSpec fieldOrSpec) options t
             = (Ok tt, t') ->
             forall f i,
               In f fields -> idToString (prop_get d "_id") = Ok i ->
               names_document t'
                 (indexEntryKey coll f (serializeIndexValue (getNestedValue d f)) i) i).
  { intros d t t' Hstep f i Hf Hi.
    exact (updateIndexEntry_writes coll i d _ _ t t' fields f Hi Hstep Hfields Hf). }
  assert (Hkeep : forall x d t t',
             updateIndexEntry coll x (normalizeIndexSpec fieldOrSpec) options t
             = (Ok tt, t') ->
             (forall f i,
                In f fields -> idToString (prop_get d "_id") = Ok i ->
                names_document t
                  (indexEntryKey coll f (serializeIndexValue (getNestedValue d f)) i) i) ->
             forall f i,
               In f fields -> idToString (prop_get d "_id") = Ok i ->
               names_document t'
                 (indexEntryKey coll f (serializeIndexValue (getNestedValue d f)) i) i).
  { intros x d t t' Hstep Hq f i Hf Hi.
    eapply updateIndexEntry_keeps_entries; [exact Hstep|]. by apply Hq. }
  exact (Hall Hest Hkeep _ _ _ Hloop _ Hdoc _ _ Hfield Hid).
Qed.

End DeclareIndex.

Lemma createIndex_registers_index_witness :
  Kv.value_of <$> Kv.get users0 [KStr "__indexes__"; KStr "users"; KStr "age_1"]
  = Some (VObj [("spec", normalizeIndexSpec (VStr "age")); ("options", VObj [])]) /\
  forall indexes,
    listIndexes "users" users0 = Ok indexes ->
    In (mkIndexDescription (VStr "age_1") (normalizeIndexSpec (VStr "age")) (VObj []))
       indexes.
Proof.
  apply (createIndex_registers_index "users" (VStr "age") (VObj []) Kv.empty users0).
  apply with_run. vm_compute. reflexivity.
Defined.

Lemma createIndex_twice_is_rejected_witness :
  createIndex "users" (VStr "age") (VObj []) users0
  = (Throw "Index already exists", users0).
Proof.
  apply (createIndex_twice_is_rejected "users" (VStr "age") (VObj []) Kv.empty users0
           "age_1").
  apply with_run. vm_compute. reflexivity.
Defined.


Lemma createIndex_indexes_stored_documents_witness :
  names_document membersByStatus
    [KStr "members"; KStr "__idx__"; KStr "status"; KStr "active"; KStr id1] id1.
Proof.
  apply (createIndex_indexes_stored_documents "members" (VStr "status") (VObj [])
           members membersByStatus "status_1" ["status"] [KStr "members"; KStr id1]
           (Kv.mkEntry
              (VObj [("name", VStr "John"); ("age", VNum 30);
                     ("email", VStr "john@test.com"); ("status", VStr "active");
                     ("_id", VStr id1)]) 1)
           johnStored "status" id1).
  - apply with_run. vm_compute. reflexivity.
  - reflexivity.
  - vm_compute. left. reflexivity.
  - reflexivity.
  - reflexivity.
  - left. reflexivity.
  - reflexivity.
Defined.

(** ** Inserting several documents *)

Section InsertMany.

Variable coll : string.

Lemma insertDoc_frame fresh doc s k :
  List.length k <> 2%nat ->
  Kv.get (snd (insertDoc coll fresh doc s)) k = Kv.get s k.
Proof.
  intros Hlen. unfold insertDoc.
  destruct doc as [| | | | | | |xs|fs|]; try reflexivity.
  unfold bind, reading, throw, ret.
  destruct (getKvKey coll _) as [key| |] eqn:Hkey; cbn; try reflexivity.
  apply getKvKey_length in Hkey.
  destruct (match Kv.get s key with Some e => truthy (Kv.value_of e) | None => false end);
    [reflexivity|].
  destruct (idToString _) as [idStr| |]; cbn; try reflexivity.
  destruct (checkIndexViolations coll s _); cbn; try reflexivity.
  destruct (commit _ _ s) as [[[|]| |] s'] eqn:Hc; cbn;
    apply (commit_frame_eq _ _ _ _ _ _ Hc); intros ->; congruence.
Qed.

Lemma insertLoop_frame fresh docs k :
  List.length k <> 2%nat ->
  forall i ids s, Kv.get (snd (insertLoop coll fresh i docs ids s)) k = Kv.get s k.
Proof.
  intros Hlen. induction docs as [|doc docs IH]; intros i ids s; [reflexivity|].
  cbn [insertLoop]. unfold bind.
  pose proof (insertDoc_frame (fresh i) doc s k Hlen) as Hdoc.
  destruct (insertDoc coll (fresh i) doc s) as [[id| |] s1]; cbn [snd] in *;
    [|assumption..].
  by rewrite IH.
Qed.

(** X26: [insertMany] writes documents only: whatever it returns, every key
    that is not a two-part document key, in particular every index entry,
    holds afterwards what it held before. *)
Theorem insertMany_writes_no_index_entries
    (fresh : nat -> string) (docs : value) (s : Kv.store) (k : kv_key) :
  List.length k <> 2%nat ->
  Kv.get (run (insertMany coll fresh docs) s) k = Kv.get s k.
Proof.
  intros Hlen. unfold run, insertMany.
  destruct docs as [| | | | | | |items|fs|]; try reflexivity.
  destruct (existsb _ items); [reflexivity|].
  unfold bind.
  pose proof (insertLoop_frame fresh items k Hlen 0%nat [] s) as Hloop.
  destruct (insertLoop coll fresh 0 items [] s) as [[ids| |] s1]; exact Hloop.
Qed.

(** What a successful [insertDoc] has done. *)
Lemma insertDoc_inv fresh doc s id s' :
  insertDoc coll fresh doc s = (Ok (Some id), s') ->
  exists fs idStr stamp,
    doc = VObj fs /\
    id = (if truthy (prop_get doc "_id") then prop_get doc "_id" else VOid fresh) /\
    idToString id = Ok idStr /\
    Kv.get s [KStr coll; KStr idStr] = None /\
    Kv.get s' [KStr coll; KStr idStr]
      = Some (Kv.mkEntry (VObj (obj_set fs "_id" (VStr idStr))) stamp) /\
    forall k, k <> [KStr coll; KStr idStr] -> Kv.get s' k = Kv.get s k.
Proof.
  unfold insertDoc. destruct doc as [| | | | | | |xs|fs|]; try discriminate.
  set (_id := if truthy (prop_get (VObj fs) "_id") then prop_get (VObj fs) "_id"
              else VOid fresh).
  intros Hrun.
  apply bind_Ok in Hrun as (key & s1 & Hkey & Hrun).
  apply reading_Ok in Hkey as [Hkey ->].
  apply bind_Ok in Hrun as (existing & s1 & Hex & Hrun).
  apply reading_Ok in Hex as [_ ->].
  destruct (match existing with Some e => truthy (Kv.value_of e) | None => false end);
    [discriminate|].
  apply bind_Ok in Hrun as (idStr & s1 & Hid & Hrun).
  apply reading_Ok in Hid as [Hid ->].
  unfold getKvKey in Hkey. rewrite Hid in Hkey. cbn in Hkey. injection Hkey as <-.
  apply bind_Ok in Hrun as ([] & s1 & Hcheck & Hrun).
  apply reading_Ok in Hcheck as [_ ->].
  apply bind_Ok in Hrun as (ok & s2 & Hcommit & Hrun).
  apply commit_Ok in Hcommit as [_ Hat].
  destruct ok; [|discriminate]. cbn in Hrun. injection Hrun as <- <-.
  apply atomic_true in Hat as [Hchecks ->].
  exists fs, idStr, (N.succ (Kv.clock s)).
  split; [reflexivity|]. split; [reflexivity|]. split; [assumption|].
  split; [|split].
  - cbn in Hchecks. rewrite andb_true_r in Hchecks.
    unfold Kv.check_holds in Hchecks. apply bool_decide_eq_true in Hchecks.
    cbn [fst snd] in Hchecks. by destruct (Kv.get s _).
  - by apply get_set_same.
  - intros k Hk. by apply get_set_other.
Qed.

Lemma insertLoop_inv fresh docs :
  forall i ids s ids' s',
    forallb is_objectlike docs = true ->
    insertLoop coll fresh i docs ids s = (Ok ids', s') ->
    exists newIds,
      ids' = (ids ++ newIds)%list /\
      List.length newIds = List.length docs /\
      (forall k e, Kv.get s k = Some e -> Kv.get s' k = Some e) /\
      forall j doc,
        nth_error docs j = Some doc ->
        exists fs id idStr,
          doc = VObj fs /\
          nth_error newIds j = Some id /\
          id = (if truthy (prop_get doc "_id") then prop_get doc "_id"
                else VOid (fresh (i + j)%nat)) /\
          idToString id = Ok idStr /\
          Kv.value_of <$> Kv.get s' [KStr coll; KStr idStr]
          = Some (VObj (obj_set fs "_id" (VStr idStr))).
Proof.
  induction docs as [|doc docs IH]; intros i ids s ids' s' Hvalid Hrun.
  - cbn in Hrun. injection Hrun as <- <-. exists []. rewrite app_nil_r.
    split; [reflexivity|]. split; [reflexivity|]. split; [auto|].
    intros [|j] d; discriminate.
  - cbn [forallb] in Hvalid. apply andb_true_iff in Hvalid as [Hdoc Hvalid].
    cbn [insertLoop] in Hrun.
    apply bind_Ok in Hrun as (oid & s1 & Hins & Hrun).
    destruct oid as [id|].
    + destruct (insertDoc_inv _ _ _ _ _ Hins)
        as (fs & idStr & stamp & -> & Hid & Hstr & Habsent & Hstored & Hother).
      destruct (IH _ _ _ _ _ Hvalid Hrun) as (newIds & -> & Hlen & Hkeep & Hall).
      exists (id :: newIds). rewrite <- app_assoc. split; [reflexivity|].
      split; [cbn; by rewrite Hlen|]. split.
      * intros k e Hk. apply Hkeep. rewrite Hother; [assumption|].
        intros ->. congruence.
      * intros [|j] d Hd; cbn in Hd.
        -- injection Hd as <-. exists fs, id, idStr.
           rewrite Nat.add_0_r. repeat (split; [done|]).
           by rewrite (Hkeep _ _ Hstored).
        -- destruct (Hall j d Hd) as (fs' & id' & idStr' & ? & ? & ? & ? & ?).
           exists fs', id', idStr'. replace (i + S j)%nat with (S i + j)%nat by lia.
           auto.
    + exfalso. unfold insertDoc in Hins.
      destruct doc; try discriminate Hdoc; try discriminate Hins.
      * unfold is_objectlike in Hdoc. cbn [typeof jstype_eqb] in Hdoc.
        by rewrite andb_false_r in Hdoc.
      * unfold is_objectlike in Hdoc. cbn [typeof jstype_eqb] in Hdoc.
        by rewrite andb_false_r in Hdoc.
      * unfold is_objectlike in Hdoc. cbn [typeof jstype_eqb] in Hdoc.
        by rewrite andb_false_r in Hdoc.
      * apply bind_Ok in Hins as (key & s2 & _ & Hins).
        apply bind_Ok in Hins as (existing & s3 & _ & Hins).
        destruct (match existing with Some e => truthy (Kv.value_of e) | None => false end);
          [discriminate|].
        apply bind_Ok in Hins as (idStr & s4 & _ & Hins).
        apply bind_Ok in Hins as ([] & s5 & _ & Hins).
        apply bind_Ok in Hins as (ok & s6 & _ & Hins).
        destruct ok; discriminate.
Qed.

(** X27: when an ordered [insertMany] of documents that hold no [ObjectId]
    outside [_id] returns, every document of the list has been inserted:
    the result counts them all and reports no write error, the id at each
    position is the document's own [_id] or the id generated there, and the
    document is stored under that id. *)
Theorem insertMany_inserts_every_document
    (fresh : nat -> string) (items : list value) (s s' : Kv.store)
    (r : InsertManyResult) :
  forallb storable_document items = true ->
  insertMany coll fresh (VArr items) s = (Ok r, s') ->
  insertedCount r = List.length items /\
  hasWriteErrors r = false /\
  forall j doc,
    nth_error items j = Some doc ->
    exists fs id idStr,
      doc = VObj fs /\
      nth_error (insertedIds r) j = Some id /\
      id = (if truthy (prop_get doc "_id") then prop_get doc "_id"
            else VOid (fresh j)) /\
      idToString id = Ok idStr /\
      Kv.value_of <$> Kv.get s' [KStr coll; KStr idStr]
      = Some (VObj (obj_set fs "_id" (VStr idStr))).
Proof.
  intros _. unfold insertMany.
  destruct (existsb _ items) eqn:Hvalid; [discriminate|].
  intros Hrun. apply bind_Ok in Hrun as (ids & s1 & Hloop & Hrun).
  unfold ret in Hrun. injection Hrun as <- <-.
  assert (Hall : forallb is_objectlike items = true).
  { apply forallb_forall. intros x Hx.
    destruct (is_objectlike x) eqn:E; [reflexivity|].
    assert (existsb (fun doc => negb (is_objectlike doc)) items = true).
    { apply existsb_exists. exists x. by rewrite E. }
    congruence. }
  destruct (insertLoop_inv _ _ _ _ _ _ _ Hall Hloop)
    as (newIds & -> & Hlen & _ & Hdocs).
  cbn [insertedCount hasWriteErrors insertedIds app].
  split; [assumption|]. split; [reflexivity|]. exact Hdocs.
Qed.

End InsertMany.

Lemma insertMany_writes_no_index_entries_witness :
  Kv.get (run (insertMany "users" (fun _ => idC) (VArr [VObj [("age", VNum 10)]])) users0)
    [KStr "users"; KStr "__idx__"; KStr "age"; KNum 10; KStr idC]
  = Kv.get users0 [KStr "users"; KStr "__idx__"; KStr "age"; KNum 10; KStr idC].
Proof.
  apply (insertMany_writes_no_index_entries "users" (fun _ => idC)
           (VArr [VObj [("age", VNum 10)]]) users0).
  cbn. lia.
Defined.


Lemma insertMany_inserts_every_document_witness :
  insertedCount bothInserted = List.length [alice; bob] /\
  hasWriteErrors bothInserted = false /\
  forall j doc,
    nth_error [alice; bob] j = Some doc ->
    exists fs id idStr,
      doc = VObj fs /\
      nth_error (insertedIds bothInserted) j = Some id /\
      id = (if truthy (prop_get doc "_id") then prop_get doc "_id"
            else VOid (freshAB j)) /\
      idToString id = Ok idStr /\
      Kv.value_of <$> Kv.get usersMany [KStr "users"; KStr idStr]
      = Some (VObj (obj_set fs "_id" (VStr idStr))).
Proof.
  apply (insertMany_inserts_every_document "users" freshAB [alice; bob] Kv.empty
           usersMany bothInserted); [reflexivity|].
  apply with_run. vm_compute. reflexivity.
Defined.

(** ** Distinct values *)

Lemma normalizeValue_primitive v : is_primitive v = true -> normalizeValue v = v.
Proof. by destruct v. Qed.

Lemma is_exact_primitive v : is_exact v = true -> is_primitive v = true.
Proof. unfold is_exact. intros H. by apply andb_true_iff in H as [? _]. Qed.

Lemma is_exact_nan_free v : is_exact v = true -> nan_free v = true.
Proof. by destruct v. Qed.

Lemma arrayIncludes_primitives kept v :
  forallb is_exact kept = true ->
  (arrayIncludes kept v = true <-> In v kept).
Proof.
  intros Hprim. unfold arrayIncludes. rewrite existsb_exists.
  rewrite forallb_forall in Hprim. split.
  - intros (item & Hin & Heq).
    rewrite (isEqual_primitive_strict item v (is_exact_primitive _ (Hprim _ Hin)))
      in Heq.
    apply strict_eq_prim_eq in Heq;
      [by subst | by apply is_exact_primitive, Hprim
      | by apply is_exact_nan_free, Hprim].
  - intros Hin. exists v. split; [assumption|].
    rewrite (isEqual_primitive_strict v v (is_exact_primitive _ (Hprim _ Hin))).
    apply strict_eq_prim_eq;
      [by apply is_exact_primitive, Hprim | by apply is_exact_nan_free, Hprim
      | reflexivity].
Qed.

Lemma distinctValues_primitives (values : list value) :
  forallb is_exact values = true ->
  NoDup (distinctValues values) /\
  forall v, In v (distinctValues values) <-> In v values.
Proof.
  unfold distinctValues.
  assert (Hgen : forall kept,
            forallb is_exact values = true ->
            forallb is_exact kept = true ->
            NoDup kept ->
            let result :=
              fold_left (fun kept v =>
                           if arrayIncludes kept v then kept
                           else (kept ++ [normalizeValue v])%list) values kept in
            NoDup result /\
            forall v, In v result <-> In v kept \/ In v values).
  { induction values as [|x values IH]; intros kept Hvs Hkept Hnd; cbn.
    - split; [assumption | intros v; tauto].
    - cbn in Hvs. apply andb_true_iff in Hvs as [Hx Hvs].
      rewrite (normalizeValue_primitive _ (is_exact_primitive _ Hx)).
      destruct (arrayIncludes kept x) eqn:Hinc.
      + destruct (IH kept Hvs Hkept Hnd) as [Hnd' Hin]. split; [assumption|].
        intros v. rewrite Hin.
        apply (arrayIncludes_primitives _ _ Hkept) in Hinc.
        split; [tauto | intros [H | [<- | H]]; tauto].
      + assert (Hnot : ~ In x kept).
        { intros Hin. apply (arrayIncludes_primitives _ _ Hkept) in Hin. congruence. }
        destruct (IH (kept ++ [x])%list Hvs) as [Hnd' Hin].
        * rewrite forallb_app. cbn. by rewrite Hkept, Hx.
        * apply NoDup_app. split; [assumption|]. split.
          -- intros y Hy Hy'. apply list_elem_of_In in Hy.
             apply list_elem_of_singleton in Hy'. by subst.
          -- apply NoDup_singleton.
        * split; [assumption|]. intros v. rewrite Hin, in_app_iff. cbn. tauto. }
  intros Hprim. destruct (Hgen [] Hprim eq_refl NoDup_nil_2) as [Hnd Hin].
  split; [assumption|]. intros v. rewrite Hin. cbn. tauto.
Qed.

(** [NaN] is never found among the values kept, so every [NaN] is kept. *)
Lemma distinctValues_nan (values : list value) :
  forallb is_nan values = true -> distinctValues values = values.
Proof.
  unfold distinctValues.
  assert (Hgen : forall kept,
            forallb is_nan values = true ->
            fold_left (fun kept v =>
                         if arrayIncludes kept v then kept
                         else (kept ++ [normalizeValue v])%list) values kept
            = (kept ++ values)%list).
  { induction values as [|x values IH]; intros kept Hvs; cbn.
    - by rewrite app_nil_r.
    - cbn in Hvs. apply andb_true_iff in Hvs as [Hx Hvs].
      destruct x; try discriminate Hx.
      assert (Hinc : arrayIncludes kept VNaN = false).
      { unfold arrayIncludes. apply not_true_is_false. intros Hex.
        apply existsb_exists in Hex as (item & _ & Heq).
        by rewrite (proj2 (isEqual_NaN item)) in Heq. }
      rewrite Hinc, IH by assumption. by rewrite <- app_assoc. }
  intros Hnan. by rewrite (Hgen [] Hnan).
Qed.

Lemma distinctValues_objects (values : list value) :
  existsb is_primitive values = false ->
  distinctValues values = List.map normalizeValue values.
Proof.
  unfold distinctValues.
  assert (Hgen : forall kept,
            existsb is_primitive values = false ->
            forallb (fun item => match item with VStr _ => true | _ => false end) kept
            = true ->
            fold_left (fun kept v =>
                         if arrayIncludes kept v then kept
                         else (kept ++ [normalizeValue v])%list) values kept
            = (kept ++ List.map normalizeValue values)%list).
  { induction values as [|x values IH]; intros kept Hvs Hkept; cbn.
    - by rewrite app_nil_r.
    - cbn in Hvs. apply orb_false_iff in Hvs as [Hx Hvs].
      assert (Hinc : arrayIncludes kept x = false).
      { unfold arrayIncludes. apply not_true_is_false. intros Hex.
        apply existsb_exists in Hex as (item & Hin & Heq).
        rewrite forallb_forall in Hkept. specialize (Hkept _ Hin).
        destruct item; try discriminate. destruct x; discriminate. }
      rewrite Hinc, IH; [by rewrite <- app_assoc | assumption |].
      rewrite forallb_app, Hkept. cbn. destruct x; try discriminate; reflexivity. }
  intros Hobj. by rewrite (Hgen [] Hobj eq_refl).
Qed.

(** X28: [distinct] on values that are all primitive and none [NaN] returns
    each of them exactly once; on values that are all objects, arrays,
    dates or ids it returns the JSON text of every one of them, duplicates
    included; and it returns [NaN] as often as it occurs. *)
Theorem distinct_removes_primitive_duplicates_only
    (coll : string) (s : Kv.store) (field : string) (filter : value)
    (docs : list value) :
  find coll s filter noOptions = Ok docs ->
  (forallb is_exact (collectValues field docs) = true ->
   exists values,
     distinct coll s field filter = Ok values /\
     NoDup values /\
     forall v, In v values <-> In v (collectValues field docs)) /\
  (existsb is_primitive (collectValues field docs) = false ->
   distinct coll s field filter
   = Ok (List.map normalizeValue (collectValues field docs))) /\
  (forallb is_nan (collectValues field docs) = true ->
   distinct coll s field filter = Ok (collectValues field docs)).
Proof.
  intros Hfind. unfold distinct. rewrite Hfind. cbn [obind]. split; [|split].
  - intros Hprim. eexists. split; [reflexivity|].
    by apply distinctValues_primitives.
  - intros Hobj. by rewrite distinctValues_objects.
  - intros Hnan. by rewrite distinctValues_nan.
Qed.


Lemma distinct_removes_primitive_duplicates_only_witness :
  (exists values,
     distinct "members" members "status" (VObj []) = Ok values /\
     NoDup values /\
     forall v, In v values <-> In v (collectValues "status" memberDocs)) /\
  distinct "points" points "pos" (VObj [])
  = Ok (List.map normalizeValue (collectValues "pos" pointDocs)).
Proof.
  split.
  - apply (proj1 (distinct_removes_primitive_duplicates_only "members" members
                    "status" (VObj []) memberDocs ltac:(vm_compute; reflexivity))).
    reflexivity.
  - apply (proj1 (proj2 (distinct_removes_primitive_duplicates_only "points" points
                           "pos" (VObj []) pointDocs ltac:(vm_compute; reflexivity)))).
    reflexivity.
Defined.

(** ** Unique indexes *)

Section UniqueIndex.

Variable coll : string.


Lemma checkUnique_duplicate field idStr entries e other :
  Forall (fun e => exists x, names e x) entries ->
  In e entries ->
  names e other ->
  other <> idStr ->
  other <> EmptyString ->
  checkUnique field idStr entries = Throw ("Duplicate key error: " ++ field).
Proof.
  intros Hwf Hin He Hother Hne.
  induction entries as [|e0 entries IH]; [destruct Hin|].
  apply Forall_cons in Hwf as [[x0 Hx0] Hwf].
  cbn [checkUnique]. unfold entryId. unfold names in Hx0. rewrite Hx0.
  cbn [obind prop_get obj_get String.eqb Ascii.eqb Bool.eqb andb truthy strict_eq_prim].
  destruct (negb (String.eqb x0 EmptyString) && negb (String.eqb x0 idStr)) eqn:Hdup;
    [reflexivity|].
  destruct Hin as [-> | Hin]; [|by apply IH].
  exfalso. unfold names in He. rewrite He in Hx0. injection Hx0 as ->.
  apply andb_false_iff in Hdup as [H | H]; apply negb_false_iff, String.eqb_eq in H;
    congruence.
Qed.

(** X29: a unique index rejects a second document with the same value: when
    the collection has one declared index, unique, and an entry of its
    first field under the value of the new document names another document,
    [insertOne] fails with "Duplicate key error: field" and leaves the store
    as it was. *)
Theorem insertOne_unique_index_rejects_duplicate
    (fresh : string) (fs : list (string * value)) (s : Kv.store)
    (metaKey : kv_key) (info : Kv.entry) (spec options : value)
    (field : string) (rest : list string) (idStr other : string)
    (e : kv_key * Kv.entry) :
  let _id := if truthy (prop_get (VObj fs) "_id") then prop_get (VObj fs) "_id"
             else VOid fresh in
  let entries :=
    Kv.list_prefix s
      [KStr coll; KStr "__idx__"; KStr field;
       serializeIndexValue (getNestedValue (VObj (obj_set fs "_id" _id)) field)] in
  idToString _id = Ok idStr ->
  Kv.get s [KStr coll; KStr idStr] = None ->
  Kv.list_prefix s (indexPrefix coll) = [(metaKey, info)] ->
  infoSpec (Kv.value_of info) = Ok spec ->
  specFields spec = Ok (field :: rest) ->
  infoOptions (Kv.value_of info) = Ok options ->
  optionUnique options = Ok true ->
  Forall (fun e => exists x, names e x) entries ->
  In e entries ->
  names e other ->
  other <> idStr ->
  other <> EmptyString ->
  insertOne coll fresh (VObj fs) s = (Throw ("Duplicate key error: " ++ field), s).
Proof.
  intros _id entries Hid Habsent Hinfos Hspec Hfields Hopts Hunique Hwf Hin He Hother Hne.
  pose proof (checkUnique_duplicate field idStr entries e other Hwf Hin He Hother Hne)
    as Hdup.
  subst _id entries.
  unfold insertOne, bind, reading, getKvKey. rewrite Hid. cbn [obind].
  rewrite Habsent, Hinfos. cbn [forM]. unfold bind, indexUnder, reading. cbn [snd].
  rewrite Hspec, Hopts. unfold updateIndexEntry, bind, reading. rewrite Hfields.
  cbn [forM]. unfold bind, indexOneField, bind, reading.
  unfold prop_get at 1. rewrite obj_get_set_same, Hid, Hunique.
  by rewrite Hdup.
Qed.

End UniqueIndex.


Lemma insertOne_unique_index_rejects_duplicate_witness :
  insertOne "members" idA (member "Jim" "john@test.com" "active" 40) membersUnique
  = (Throw "Duplicate key error: email", membersUnique).
Proof.
  apply (insertOne_unique_index_rejects_duplicate "members" idA
           (entries_of (member "Jim" "john@test.com" "active" 40)) membersUnique
           [KStr "__indexes__"; KStr "members"; KStr "email_1"]
           (Kv.mkEntry
              (VObj [("spec", VObj [("key", VObj [("email", VNum 1)])]);
                     ("options", VObj [("unique", VBool true)])]) 5)
           (VObj [("key", VObj [("email", VNum 1)])])
           (VObj [("unique", VBool true)])
           "email" [] idA id1 johnEmailEntry).
  - reflexivity.
  - vm_compute. reflexivity.
  - vm_compute. reflexivity.
  - reflexivity.
  - reflexivity.
  - reflexivity.
  - reflexivity.
  - vm_compute. constructor; [|constructor]. exists id1. reflexivity.
  - vm_compute. left. reflexivity.
  - reflexivity.
  - discriminate.
  - discriminate.
Defined.

(** ** Projection *)

Section Inclusion.

Variable fs : list (string * value).











End Inclusion.

